(** * pummeler.featurize: feature encoding and kernel mean embeddings

    A shallow embedding of [src/pummeler/featurize.py].

    - numpy arrays of [float64] are lists (vectors) and lists of rows
      (matrices) over a number type [A] that comes with the operations
      the code uses ([Num]); the same definitions are read at IEEE
      binary64 ([float], where they compute) and at the reals ([R],
      exact arithmetic, where algebraic facts are proved);
    - Python exceptions are the [Raise] side of [result];
    - dicts are [gmap], sets are [gset], a pandas Series is the ordered
      list of its (index, value) pairs, a DataFrame is the list of its
      rows. *)

From Stdlib Require Import Reals Lra ZArith Ascii String Floats.
From stdpp Require Import gmap strings list fin_maps sorting.

Open Scope string_scope.
Open Scope list_scope.

(** ** Exceptions *)

Inductive exn : Type :=
  | KeyError
  | IndexError
  | AssertionError
  | SyntaxError
  | ValueError (msg : string).

Inductive result (T : Type) : Type :=
  | Ok (x : T)
  | Raise (e : exn).
Arguments Ok {T} x.
Arguments Raise {T} e.

Definition bind {T U} (r : result T) (k : T -> result U) : result U :=
  match r with
  | Ok x => k x
  | Raise e => Raise e
  end.

Notation "x <- r ;; k" := (bind r (fun x => k))
  (at level 100, r at next level, right associativity).

Definition lookup_or {T} (e : exn) (o : option T) : result T :=
  match o with
  | Some x => Ok x
  | None => Raise e
  end.

Fixpoint mapR {T U} (f : T -> result U) (l : list T) : result (list U) :=
  match l with
  | [] => Ok []
  | x :: l' => y <- f x ;; ys <- mapR f l' ;; Ok (y :: ys)
  end.

Definition broadcast_msg : string := "operands could not be broadcast together".
Definition assign_msg : string := "could not broadcast input array".
Definition take_out_msg : string := "output array does not match result of ndarray.take".
Definition categories_msg : string := "Categorical categories must be unique".
Definition aligned_msg : string := "shapes not aligned".

(** ** Numbers *)

Class Num (A : Type) : Type := {
  zero : A;
  one : A;
  add : A -> A -> A;
  sub : A -> A -> A;
  mul : A -> A -> A;
  div : A -> A -> A;
  isnan : A -> bool;       (* np.isnan *)
  nonzero : A -> bool;     (* x != 0 *)
  leb : A -> A -> bool;    (* x <= y *)
  sqrt : A -> A;           (* np.sqrt *)
}.

Class Trig (A : Type) : Type := {
  sin : A -> A;            (* np.sin *)
  cos : A -> A;            (* np.cos *)
}.

Declare Scope num_scope.
Delimit Scope num_scope with num.
Infix "+" := add : num_scope.
Infix "-" := sub : num_scope.
Infix "*" := mul : num_scope.
Infix "/" := div : num_scope.

(** IEEE binary64, the dtype of every array the code allocates. *)
#[export] Instance float64 : Num float := {|
  zero := 0%float;
  one := 1%float;
  add := PrimFloat.add;
  sub := PrimFloat.sub;
  mul := PrimFloat.mul;
  div := PrimFloat.div;
  isnan := PrimFloat.is_nan;
  nonzero := fun x => negb (PrimFloat.eqb x 0%float);
  leb := PrimFloat.leb;
  sqrt := PrimFloat.sqrt;
|}.

(** Exact arithmetic: no rounding, no NaN, no infinities. *)
#[export] Instance exact : Num R := {|
  zero := 0%R;
  one := 1%R;
  add := Rplus;
  sub := Rminus;
  mul := Rmult;
  div := Rdiv;
  isnan := fun _ => false;
  nonzero := fun x => if Req_dec_T x 0%R then false else true;
  leb := fun x y => if Rle_dec x y then true else false;
  sqrt := R_sqrt.sqrt;
|}.

#[export] Instance exact_trig : Trig R := {|
  sin := Rtrigo_def.sin;
  cos := Rtrigo_def.cos;
|}.

(** ** Data model *)

(** One entry of [VERSIONS] (module [reader]). *)
Record SchemaInfo : Type := {
  real_feats : list string;
  discrete_feats : list string;
  alloc_flags : list string;
}.

(** A [value_counts] Series: categories in stored order with their counts. *)
Abbreviation Counts := (list (string * Z)).

Section Model.
Context {A : Type} {NumA : Num A}.

Local Open Scope num_scope.

(** One person record.  Real-valued columns hold numbers (a missing value
    is the number NaN), categorical columns hold a category or are
    missing ([None]); [PWGTP] is the person weight. *)
Record Row : Type := {
  reals : gmap string A;
  cats : gmap string (option string);
  PWGTP : A;
}.

(** A DataFrame is the list of its rows, a 2-d array the list of its rows. *)
Local Abbreviation DataFrame := (list Row).
Local Abbreviation Matrix := (list (list A)).

Record Stats : Type := {
  version : string;
  real_means : list (string * A);
  real_stds : list (string * A);
  value_counts : gmap string Counts;
  n_total : Z;
  sample : DataFrame;
}.

(** [VERSIONS] is defined in [pummeler.reader]; it is a parameter here. *)
Variable VERSIONS : gmap string SchemaInfo.

(** *** Feature encoder *)

Definition vc_sum (vc : Counts) : Z := foldr Z.add 0%Z (vc.*2).

(** [vc.sum() < stats['n_total']]: the feature has an overflow column. *)
Definition has_overflow (vc : Counts) (n_total : Z) : bool :=
  bool_decide (vc_sum vc < n_total)%Z.

Definition _num_feats (stats : Stats) (skip_feats : gset string) : nat :=
  let n := size (list_to_set (C := gset string) (stats.(real_means).*1) ∖ skip_feats) in
  foldl (fun n kv =>
           if bool_decide (kv.1 ∈ skip_feats) then n
           else (n + (length kv.2 + (if has_overflow kv.2 stats.(n_total) then 1 else 0)))%nat)
        n (map_to_list stats.(value_counts)).

(** Broadcasting of a 1-d operand against rows of [width] columns. *)
Definition broadcast_row (width : nat) (s : list A) : result (list A) :=
  if decide (length s = width) then Ok s
  else match s with
       | [x] => Ok (replicate width x)
       | _ => Raise (ValueError broadcast_msg)
       end.

(** [df[real_feats]] *)
Definition select_reals (df : DataFrame) (fs : list string) : result Matrix :=
  mapR (fun row => mapR (fun f => lookup_or KeyError (row.(reals) !! f)) fs) df.

(** [df[k]] for a categorical column *)
Definition select_cat (df : DataFrame) (k : string) : result (list (option string)) :=
  mapR (fun row => lookup_or KeyError (row.(cats) !! k)) df.

(** [pd.Categorical(values, categories=categories).codes] *)
Definition code_of (categories : list string) (v : option string) : Z :=
  match v with
  | None => (-1)%Z
  | Some s =>
      match list_find (fun c => c = s) categories with
      | Some (i, _) => Z.of_nat i
      | None => (-1)%Z
      end
  end.

Definition categorical_codes (values : list (option string)) (categories : list string)
  : result (list Z) :=
  if bool_decide (NoDup categories) then Ok (code_of categories <$> values)
  else Raise (ValueError categories_msg).

(** Row [i] of [np.eye(n)] *)
Definition eye_row (n i : nat) : list A :=
  (fun j => if decide (j = i) then one else zero) <$> seq 0 n.

(** [np.eye(n).take(c, axis=0)] with the default [mode='raise']: a negative
    index counts from the end, an index outside [-n, n) is an error. *)
Definition take_eye (n : nat) (c : Z) : result (list A) :=
  let c' := if bool_decide (c < 0)%Z then (c + Z.of_nat n)%Z else c in
  if bool_decide (0 <= c' < Z.of_nat n)%Z then Ok (eye_row n (Z.to_nat c'))
  else Raise IndexError.

(** State of the loop over the discrete features: the column cursor,
    the columns written so far (row by row) and the column names. *)
Record EncState : Type := {
  start_col : nat;
  filled : Matrix;
  feat_names : list string;
}.

(** Body of the loop, lines 43-58. [num_feats] is the width of [out]. *)
Definition encode_feature (df : DataFrame) (stats : Stats) (num_feats : nat)
    (skip_feats : gset string) (st : EncState) (k : string) : result EncState :=
  if bool_decide (k ∈ skip_feats) then Ok st else
  vc <- lookup_or KeyError (stats.(value_counts) !! k) ;;
  vals <- select_cat df k ;;
  c <- categorical_codes vals (vc.*1) ;;
  let n_codes := length vc in
  let names := st.(feat_names) ++ ((fun v => k +:+ "_" +:+ v) <$> vc.*1) in
  let '(c, n_codes, names) :=
    if has_overflow vc stats.(n_total)
    then ((fun x => if bool_decide (x = -1)%Z then Z.of_nat n_codes else x) <$> c,
          S n_codes, names ++ [k +:+ "_nan"])
    else (c, n_codes, names) in
  (* bit = out[:, start_col:start_col + n_codes] *)
  if bool_decide (st.(start_col) + n_codes <= num_feats \/ n_codes = 0)%nat then
    bit <- mapR (take_eye n_codes) c ;;
    Ok {| start_col := st.(start_col) + n_codes;
          filled := zip_with app st.(filled) bit;
          feat_names := names |}
  else Raise (ValueError take_out_msg).

Fixpoint encode_features (df : DataFrame) (stats : Stats) (num_feats : nat)
    (skip_feats : gset string) (st : EncState) (ks : list string) : result EncState :=
  match ks with
  | [] => Ok st
  | k :: ks' =>
      st' <- encode_feature df stats num_feats skip_feats st k ;;
      encode_features df stats num_feats skip_feats st' ks'
  end.

(** [reals[np.isnan(reals)] = 0] on one entry *)
Definition nan_to_zero (x : A) : A := if isnan x then zero else x.

(** Lines 33-37: the standardized real columns. *)
Definition encode_reals (df : DataFrame) (stats : Stats) (num_feats : nat)
    (real_feats : list string) : result Matrix :=
  let r := length real_feats in
  let width := r `min` num_feats in          (* reals = out[:, :len(real_feats)] *)
  x <- select_reals df real_feats ;;
  if bool_decide (r = width \/ r = 1)%nat then
    means <- broadcast_row width (stats.(real_means).*2) ;;
    stds <- broadcast_row width (stats.(real_stds).*2) ;;
    Ok ((fun row =>
           nan_to_zero <$> zip_with div (zip_with sub (take width row) means) stds) <$> x)
  else Raise (ValueError assign_msg).

(** [out] is the shape of the caller's buffer, when one is passed. *)
Definition get_dummies (df : DataFrame) (stats : Stats) (num_feats : option nat)
    (ret_df : bool) (skip_feats : gset string) (out : option (nat * nat))
  : result (Matrix * option (list string)) :=
  info <- lookup_or KeyError (VERSIONS !! stats.(version)) ;;
  let num_feats := default (_num_feats stats skip_feats) num_feats in
  if bool_decide (default (length df, num_feats) out = (length df, num_feats)) then
    let real_feats := filter (fun f => f ∉ skip_feats) info.(real_feats) in
    reals <- encode_reals df stats num_feats real_feats ;;
    let st := {| start_col := length real_feats; filled := reals; feat_names := real_feats |} in
    st <- encode_features df stats num_feats skip_feats st
            (info.(discrete_feats) ++ info.(alloc_flags)) ;;
    if bool_decide (st.(start_col) = num_feats) then
      Ok (st.(filled), if ret_df then Some st.(feat_names) else None)
    else Raise AssertionError
  else Raise AssertionError.

(** *** Embedding primitives *)

(** Sums run over the list from its head; numpy does not fix the order of
    summation, which matters for rounding only. *)
Definition vsum (l : list A) : A := foldr add zero l.

Definition dot (xs ys : list A) : A := vsum (zip_with mul xs ys).

(** [m.shape[1]]; a matrix without rows is taken to have no columns. *)
Definition shape1 (m : Matrix) : nat :=
  match m with
  | [] => 0
  | row :: _ => length row
  end.

(** [m[:, j]] *)
Definition column (j : nat) (m : Matrix) : list A :=
  (fun row => default zero (row !! j)) <$> m.

(** [np.dot(a, b)] for an [n x f] and an [f x d] matrix. *)
Definition matmul (a b : Matrix) : result Matrix :=
  if bool_decide (Forall (fun row => length row = length b) a) then
    Ok ((fun row => (fun j => dot row (column j b)) <$> seq 0 (shape1 b)) <$> a)
  else Raise (ValueError aligned_msg).

(** [np.dot(a.T, wts.T)] for an [n x ncols] matrix [a] and a [q x n]
    matrix [wts]: the [ncols x q] matrix of the weighted column sums. *)
Definition dot_T (ncols : nat) (a wts : Matrix) : result Matrix :=
  if bool_decide (Forall (fun w => length w = length a) wts) then
    Ok ((fun j => (fun w => dot (column j a) w) <$> wts) <$> seq 0 ncols)
  else Raise (ValueError aligned_msg).

(** [w = wts.sum(axis=1); nz = w != 0; out[:, nz] /= w[np.newaxis, nz]] *)
Definition normalize_columns (out : Matrix) (w : list A) : Matrix :=
  (fun row => zip_with (fun x wi => if nonzero wi then x / wi else x) row w) <$> out.

(** Called without [out] everywhere in this file. *)
Definition linear_embedding (feats wts : Matrix) : result Matrix :=
  out <- dot_T (shape1 feats) feats wts ;;
  Ok (normalize_columns out (vsum <$> wts)).

Context {TrigA : Trig A}.

Definition rff_embedding (feats wts freqs : Matrix) : result Matrix :=
  let D := shape1 freqs in
  angles <- matmul feats freqs ;;
  let sin_angles := (fun row : list A => sin (A := A) <$> row) <$> angles in
  let cos_angles := (fun row : list A => cos (A := A) <$> row) <$> angles in
  out_sin <- dot_T D sin_angles wts ;;
  out_cos <- dot_T D cos_angles wts ;;
  Ok (normalize_columns (out_sin ++ out_cos) (vsum <$> wts)).

(** *** Bandwidth selector *)

Definition two : A := one + one.

(** [sklearn.metrics.pairwise.euclidean_distances(X, squared=True)]:
    [-2 X.X^T + |x|^2 + |y|^2], clipped at zero, with a zero diagonal. *)
Definition euclidean_distances (X : Matrix) : Matrix :=
  imap (fun i x =>
    imap (fun j y =>
      if decide (i = j) then zero else
      let d := ((zero - two) * dot x y + dot x x) + dot y y in
      if leb d zero then zero else d) X) X.

(** [np.triu_indices_from(D2, k)] for an [n x n] matrix, in row-major order. *)
Definition triu_indices (n k : nat) : list (nat * nat) :=
  i ← seq 0 n; (fun j => (i, j)) <$> seq (i + k)%nat (n - (i + k))%nat.

(** [D2[idx]] for a list of index pairs *)
Definition take_pairs (m : Matrix) (idx : list (nat * nat)) : list A :=
  (fun ij => default zero (default [] (m !! ij.1) !! ij.2)) <$> idx.

Definition num_le (x y : A) : Prop := leb x y = true.

#[export] Instance num_le_dec : RelDecision num_le.
Proof. intros x y; unfold num_le; apply _. Defined.

(** [np.median] of a 1-d array: NaN if it holds a NaN or is empty, else
    the middle element of the sorted array, or the mean of the two
    middle ones. *)
Definition median (l : list A) : A :=
  if existsb isnan l then zero / zero
  else
    let s := merge_sort num_le l in
    let n := length l in
    if decide (n = 0)%nat then zero / zero
    else if Nat.even n
         then (default zero (s !! (n / 2 - 1)%nat) + default zero (s !! (n / 2)%nat)) / two
         else default zero (s !! (n / 2)%nat).

Definition pick_gaussian_bandwidth (stats : Stats) (skip_feats : gset string) : result A :=
  r <- get_dummies stats.(sample) stats None false skip_feats None ;;
  let samp := r.1 in
  let D2 := euclidean_distances samp in
  Ok (sqrt (median (take_pairs D2 (triu_indices (length D2) 1)))).

(** *** Stream aggregator *)

(** [pick_rff_freqs n_freqs bandwidth seed n_feats orthogonal] draws from a
    random source; only its result is used here. *)
Variable pick_rff_freqs : nat -> A -> option Z -> nat -> bool -> Matrix.

(** [DataFrame.eval]: the subset expression denotes one row predicate per
    sub-expression, or fails to parse. *)
Variable parse_query : string -> result (list (Row -> bool)).

(** [s.rstrip()] *)
Fixpoint rstrip (s : list ascii) : list ascii :=
  match s with
  | [] => []
  | a :: s' =>
      match rstrip s' with
      | [] => if Ascii.is_space a then [] else [a]
      | t => a :: t
      end
  end.

(** [s.count(',')] *)
Definition count_commas (s : list ascii) : nat :=
  length (filter (fun a => a = ","%char) s).

(** [subsets.rstrip()[:-1].count(',') + 1] *)
Definition count_subsets (subsets : string) : nat :=
  (count_commas (removelast (rstrip (list_ascii_of_string subsets))) + 1)%nat.

(** [pd.read_hdf(file, chunksize=chunksize)]: consecutive batches of at
    most [chunksize] rows. *)
Fixpoint chunked (fuel chunksize : nat) (rows : DataFrame) : list DataFrame :=
  match fuel, rows with
  | S fuel', _ :: _ => take chunksize rows :: chunked fuel' chunksize (drop chunksize rows)
  | _, _ => []
  end.

Definition read_hdf (file : DataFrame) (chunksize : nat) : list DataFrame :=
  chunked (length file) chunksize file.

(** Boolean-mask selection, [c.loc[keep]] and [which[:, keep]]. *)
Fixpoint compress {T} (keep : list bool) (l : list T) : list T :=
  match keep, l with
  | b :: keep', x :: l' => if b then x :: compress keep' l' else compress keep' l'
  | _, _ => []
  end.

(** [c.eval(subsets).astype(bool)]: queries x records *)
Definition eval_queries (preds : list (Row -> bool)) (c : DataFrame) : list (list bool) :=
  (fun p => p <$> c) <$> preds.

(** [which.any(axis=0)] for a matrix with [n] columns *)
Definition any_axis0 (n : nat) (which : list (list bool)) : list bool :=
  (fun j => existsb (fun w => default false (w !! j)) which) <$> seq 0 n.

(** Lines 213-228: the rows of a chunk selected by some query, with their
    membership flags. *)
Definition select_rows (subsets : string) (c : DataFrame)
  : result (DataFrame * list (list bool)) :=
  preds <- parse_query subsets ;;
  let hacked := bool_decide (length c = 1)%nat in
  let c2 := if hacked then c ++ c else c in
  let which := eval_queries preds c2 in
  let c := if hacked then take 1 c2 else c2 in
  let which := if hacked then take 1 <$> which else which in
  let keep := any_axis0 (length c) which in
  Ok (compress keep c, compress keep <$> which).

(** Lines 241-243:
    [wts = np.tile(c.PWGTP, (n_subsets, 1)); wts[i, ~w] = 0]. *)
Definition query_weights (n_subsets : nat) (c : DataFrame) (which : list (list bool))
  : result Matrix :=
  if bool_decide (length which <= n_subsets)%nat then
    Ok (imap (fun i wrow =>
                match which !! i with
                | Some w => zip_with (fun x (b : bool) => if b then x else zero) wrow w
                | None => wrow
                end)
             (replicate n_subsets (PWGTP <$> c)))
  else Raise IndexError.

(** What one file accumulates over its chunks. *)
Record FileState : Type := {
  lin_emb_pieces : list Matrix;
  rff_emb_pieces : list Matrix;
  weights : list (list A);
  total_weights : list A;
  names : option (list string);     (* feat_names, shared by all files *)
}.

(** Lines 209-251, one chunk. *)
Definition process_chunk (stats : Stats) (skip_feats : gset string)
    (n_feats n_subsets : nat) (subsets : string) (skip_rbf : bool) (freqs : Matrix)
    (st : FileState) (c : DataFrame) : result FileState :=
  sel <- select_rows subsets c ;;
  let c := sel.1 in
  let which := sel.2 in
  if bool_decide (length c = 0)%nat then Ok st else
  enc <- get_dummies c stats (Some n_feats) (bool_decide (st.(names) = None)) skip_feats
           (Some (length c, n_feats)) ;;
  let feats := enc.1 in
  let names' := match st.(names) with None => enc.2 | Some ns => Some ns end in
  wts <- query_weights n_subsets c which ;;
  lin <- linear_embedding feats wts ;;
  rff <- (if skip_rbf then Ok [] else rff_embedding feats wts freqs) ;;
  let ws := vsum <$> wts in
  Ok {| lin_emb_pieces := st.(lin_emb_pieces) ++ [lin];
        rff_emb_pieces := if skip_rbf then [] else st.(rff_emb_pieces) ++ [rff];
        weights := st.(weights) ++ [ws];
        total_weights := zip_with add st.(total_weights) ws;
        names := names' |}.

Fixpoint process_chunks (stats : Stats) (skip_feats : gset string)
    (n_feats n_subsets : nat) (subsets : string) (skip_rbf : bool) (freqs : Matrix)
    (st : FileState) (cs : list DataFrame) : result FileState :=
  match cs with
  | [] => Ok st
  | c :: cs' =>
      st' <- process_chunk stats skip_feats n_feats n_subsets subsets skip_rbf freqs st c ;;
      process_chunks stats skip_feats n_feats n_subsets subsets skip_rbf freqs st' cs'
  end.

(** Lines 253-258: the contribution ratio of one chunk. *)
Definition ratio_of (total_weights ws : list A) : list A :=
  zip_with (fun x t => if nonzero t then x / t else x) ws total_weights.

(** [emb += piece * rs], with [rs] broadcast along the rows of [piece]. *)
Definition add_scaled (emb piece : Matrix) (rs : list A) : result Matrix :=
  if bool_decide (length piece = length emb
                  /\ Forall (fun row => length row = length rs) piece
                  /\ Forall (fun row => length row = length rs) emb) then
    Ok (zip_with (fun erow prow => zip_with add erow (zip_with mul prow rs)) emb piece)
  else Raise (ValueError broadcast_msg).

(** Lines 260-267: [emb[file_idx] = 0] and the ratio-weighted sum. *)
Fixpoint combine (emb : Matrix) (ratios : list (list A)) (pieces : list Matrix)
  : result Matrix :=
  match ratios, pieces with
  | rs :: ratios', p :: pieces' =>
      emb' <- add_scaled emb p rs ;;
      combine emb' ratios' pieces'
  | _, _ => Ok emb
  end.

Definition zeros (rows cols : nat) : Matrix := replicate rows (replicate cols zero).

(** What one file contributes to the three output arrays. *)
Record FileResult : Type := {
  file_lin : Matrix;          (* emb_lin[file_idx] *)
  file_rff : Matrix;          (* emb_rff[file_idx] *)
  file_weight : list A;       (* region_weights[file_idx] *)
}.

(** Lines 204-269, one file read as the chunks [cs]. *)
Definition embed_file (stats : Stats) (skip_feats : gset string)
    (n_feats n_freqs n_subsets : nat) (subsets : string) (skip_rbf : bool) (freqs : Matrix)
    (feat_names : option (list string)) (cs : list DataFrame)
  : result (FileResult * option (list string)) :=
  let st0 := {| lin_emb_pieces := []; rff_emb_pieces := []; weights := [];
                total_weights := replicate n_subsets zero; names := feat_names |} in
  st <- process_chunks stats skip_feats n_feats n_subsets subsets skip_rbf freqs st0 cs ;;
  let ratios := ratio_of st.(total_weights) <$> st.(weights) in
  lin <- combine (zeros n_feats n_subsets) ratios st.(lin_emb_pieces) ;;
  rff <- (if skip_rbf then Ok []
          else combine (zeros (2 * n_freqs)%nat n_subsets) ratios st.(rff_emb_pieces)) ;;
  Ok ({| file_lin := lin; file_rff := rff; file_weight := st.(total_weights) |}, st.(names)).

Fixpoint embed_files (stats : Stats) (skip_feats : gset string)
    (n_feats n_freqs n_subsets : nat) (subsets : string) (skip_rbf : bool) (freqs : Matrix)
    (chunksize : nat) (feat_names : option (list string)) (files : list DataFrame)
  : result (list FileResult * option (list string)) :=
  match files with
  | [] => Ok ([], feat_names)
  | file :: files' =>
      r <- embed_file stats skip_feats n_feats n_freqs n_subsets subsets skip_rbf freqs
             feat_names (read_hdf file chunksize) ;;
      rs <- embed_files stats skip_feats n_feats n_freqs n_subsets subsets skip_rbf freqs
              chunksize r.2 files' ;;
      Ok (r.1 :: rs.1, rs.2)
  end.

(** An array of per-file matrices, with or without its trailing query axis. *)
Inductive Embedding : Type :=
  | PerQuery (a : list Matrix)        (* files x rows x queries *)
  | Squeezed (a : Matrix).            (* files x rows *)

Inductive RegionWeights : Type :=
  | WeightsPerQuery (a : Matrix)      (* files x queries *)
  | WeightsSqueezed (a : list A).     (* files *)

(** The two tuples [get_embeddings] returns. *)
Inductive Returned : Type :=
  | Ret3 (emb_lin : Embedding) (region_weights : RegionWeights)
         (feat_names : option (list string))
  | Ret6 (emb_lin emb_rff : Embedding) (region_weights : RegionWeights)
         (freqs : Matrix) (bandwidth : option A) (feat_names : option (list string)).

(** [a[:, :, 0]] *)
Definition first_query (a : list Matrix) : Matrix :=
  (fun m : Matrix => (fun row : list A => default zero (row !! 0%nat)) <$> m) <$> a.

Definition get_embeddings (files : list DataFrame) (stats : Stats)
    (n_freqs : nat) (freqs : option Matrix) (bandwidth : option A) (chunksize : nat)
    (skip_rbf : bool) (skip_feats : gset string) (seed : option Z) (rff_orthogonal : bool)
    (subsets : option string) (squeeze_queries : bool) (skip_alloc_flags : bool)
  : result Returned :=
  skip_feats <-
    (if skip_alloc_flags then
       info <- lookup_or KeyError (VERSIONS !! stats.(version)) ;;
       Ok (skip_feats ∪ list_to_set info.(alloc_flags))
     else Ok skip_feats) ;;
  let n_feats := _num_feats stats skip_feats in
  fb <-
    (if skip_rbf then Ok (freqs, bandwidth, n_freqs) else
     match freqs with
     | None =>
         bandwidth <- match bandwidth with
                      | None => pick_gaussian_bandwidth stats skip_feats
                      | Some b => Ok b
                      end ;;
         Ok (Some (pick_rff_freqs n_freqs bandwidth seed n_feats rff_orthogonal),
             Some bandwidth, n_freqs)
     | Some f => Ok (Some f, bandwidth, shape1 f)
     end) ;;
  let freqs := fb.1.1 in
  let bandwidth := fb.1.2 in
  let n_freqs := fb.2 in
  let subsets := default "PWGTP > 0" subsets in
  let n_subsets := count_subsets subsets in
  let subsets := if decide (n_subsets = 1)%nat then subsets +:+ "," else subsets in
  r <- embed_files stats skip_feats n_feats n_freqs n_subsets subsets skip_rbf
         (default [] freqs) chunksize None files ;;
  let emb_lin := file_lin <$> r.1 in
  let emb_rff := file_rff <$> r.1 in
  let region_weights := file_weight <$> r.1 in
  let feat_names := r.2 in
  let squeeze := squeeze_queries && bool_decide (n_subsets = 1)%nat in
  let emb_lin := if squeeze then Squeezed (first_query emb_lin) else PerQuery emb_lin in
  let emb_rff := if squeeze then Squeezed (first_query emb_rff) else PerQuery emb_rff in
  let region_weights :=
    if squeeze then WeightsSqueezed ((fun w : list A => default zero (w !! 0%nat)) <$> region_weights)
    else WeightsPerQuery region_weights in
  if skip_rbf then Ok (Ret3 emb_lin region_weights feat_names)
  else Ok (Ret6 emb_lin emb_rff region_weights (default [] freqs) bandwidth feat_names).

End Model.

(** ** The frequency sampler

    [pick_rff_freqs] draws from numpy's random source and calls scipy's
    QR decomposition.  Both are parameters here: a draw takes the state of
    the random source and returns the sample with the state after it. *)

Inductive sampler_exn : Type :=
  | TypeError
  | ZeroDivisionError
  | NumpyError (e : exn).

Inductive drawn (T : Type) : Type :=
  | Drawn (x : T)
  | Failed (e : sampler_exn).
Arguments Drawn {T} x.
Arguments Failed {T} e.

Module Sampler.
Section Sampler.
Context {A : Type} {NumA : Num A}.

Local Abbreviation Matrix := (list (list A)).

Variable RandomState : Type.
(** [np.random.mtrand._rand] and [np.random.RandomState(seed)] *)
Variable global_rand : RandomState.
Variable seeded : Z -> RandomState.
(** [rs.normal(loc, scale, size=(rows, cols))], on the scales numpy
    accepts: it raises on a negative one. *)
Variable normal : A -> A -> nat * nat -> RandomState -> Matrix * RandomState.
(** [rs.chisquare(df, size=n)] *)
Variable chisquare : nat -> nat -> RandomState -> list A * RandomState.
(** The factor [Q] of [scipy.linalg.qr] *)
Variable qr : Matrix -> Matrix.
(** What [np.empty] finds in memory at row [i], column [j]. *)
Variable garbage : nat -> nat -> A.

(** [np.empty((rows, cols))] *)
Definition np_empty (rows cols : nat) : Matrix :=
  (fun i => garbage i <$> seq 0 cols) <$> seq 0 rows.

(** [m.T] *)
Definition transpose (m : Matrix) : Matrix :=
  (fun j => column j m) <$> seq 0 (shape1 m).

(** A 2-d value broadcast to [rows x width], as an assignment to a slice
    of that shape does it: an axis of the value has the length of the
    target's, or length 1. *)
Definition broadcast_matrix (rows width : nat) (value : Matrix) : result Matrix :=
  match mapR (broadcast_row width) value with
  | Ok rs =>
      if decide (length rs = rows) then Ok rs
      else match rs with
           | [r] => Ok (replicate rows r)
           | _ => Raise (ValueError assign_msg)
           end
  | Raise _ => Raise (ValueError assign_msg)
  end.

(** [freqs[:, start:stop] = value] for a matrix with [cols] columns *)
Definition assign_columns (cols : nat) (freqs : Matrix) (start stop : nat) (value : Matrix)
  : result Matrix :=
  let start' := start `min` cols in
  let width := (stop `min` cols) - start' in
  block <- broadcast_matrix (length freqs) width value ;;
  Ok (zip_with (fun row brow => take start' row ++ brow ++ drop (start' + width) row)
        freqs block).

(** [int(np.ceil(n_freqs / n_feats))] for a positive [n_feats]; the
    quotient is computed in binary64, which is exact for the sizes an
    array can have. *)
Definition ceil_div (n_freqs n_feats : nat) : nat := (n_freqs + n_feats - 1) / n_feats.

(** Lines 136-141: one pass of the loop over the blocks. *)
Definition fill_block (n_feats n_freqs n_reps : nat) (acc : Matrix * RandomState) (i : nat)
  : result (Matrix * RandomState) :=
  let gauss := normal zero one (n_feats, n_feats) acc.2 in
  let Q := qr gauss.1 in
  freqs <- (if decide (i < n_reps - 1)
            then assign_columns n_freqs acc.1 (i * n_feats) ((i + 1) * n_feats) (transpose Q)
            else assign_columns n_freqs acc.1 (i * n_feats) n_freqs
                   (transpose (take (n_freqs - i * n_feats) Q))) ;;
  Ok (freqs, gauss.2).

Fixpoint fill_blocks (n_feats n_freqs n_reps : nat) (acc : Matrix * RandomState)
    (blocks : list nat) : result (Matrix * RandomState) :=
  match blocks with
  | [] => Ok acc
  | i :: blocks' =>
      acc' <- fill_block n_feats n_freqs n_reps acc i ;;
      fill_blocks n_feats n_freqs n_reps acc' blocks'
  end.

Definition lift {T} (r : result T) : drawn T :=
  match r with
  | Ok x => Drawn x
  | Raise e => Failed (NumpyError e)
  end.

(** The matrix of frequencies, and the state the random source is left in. *)
Definition pick_rff_freqs (n_freqs : nat) (bandwidth : A) (seed : option Z)
    (n_feats : option nat) (orthogonal : bool) (stats : option (Stats (A := A)))
    (skip_feats : gset string) : drawn (Matrix * RandomState) :=
  match (match n_feats, stats with
         | Some n, _ => Some n
         | None, Some stats => Some (_num_feats stats skip_feats)
         | None, None => None
         end) with
  | None => Failed TypeError
  | Some n_feats =>
      let rs := match seed with None => global_rand | Some s => seeded s end in
      if negb orthogonal || bool_decide (n_feats = 1) then
        Drawn (normal zero (div one bandwidth) (n_feats, n_freqs) rs)
      else if decide (n_feats = 0) then Failed ZeroDivisionError
      else
        let n_reps := ceil_div n_freqs n_feats in
        lift (filled <- fill_blocks n_feats n_freqs n_reps (np_empty n_feats n_freqs, rs)
                          (seq 0 n_reps) ;;
              let chi := chisquare n_feats n_freqs filled.2 in
              let scale := (fun s => div (sqrt s) bandwidth) <$> chi.1 in
              scale <- broadcast_row n_freqs scale ;;
              Ok ((fun row => zip_with mul row scale) <$> filled.1, chi.2))
  end.

End Sampler.
End Sampler.

(** * Vocabulary of the statements

    The notions the theorems below are stated with: what it means for a
    stats bundle to fit its schema, the quantities the embeddings are
    compared with, and the shapes of the returned arrays. *)

Section EncoderVocabulary.
Context {A : Type}.

(** The stats bundle was built for the schema it names: its real means
    are indexed by the schema's real features and its category counts by
    the schema's discrete features and allocation flags. *)
Definition stats_match_schema (stats : Stats (A := A)) (info : SchemaInfo) : Prop :=
  NoDup info.(real_feats)
  /\ list_to_set (stats.(real_means).*1) =@{gset string} list_to_set info.(real_feats)
  /\ NoDup (info.(discrete_feats) ++ info.(alloc_flags))
  /\ dom stats.(value_counts)
     =@{gset string} list_to_set (info.(discrete_feats) ++ info.(alloc_flags)).



End EncoderVocabulary.

Section ExactVocabulary.
Local Open Scope R_scope.

(** What the guarded division leaves in one entry. *)
Definition guarded_div (s t : R) : R := if nonzero t then s / t else s.

(** The weighted mean of [xs] under the weights [w]. *)
Definition weighted_mean (xs w : list R) : R := dot xs w / vsum w.

(** Column [k] of [features . frequencies]. *)
Definition angles_column (feats freqs : list (list R)) (k : nat) : list R :=
  (fun row => dot row (column k freqs)) <$> feats.

(** The squared Euclidean distance of two rows. *)
Definition sq_dist (x y : list R) : R :=
  vsum (zip_with (fun a b => (a - b) * (a - b)) x y).

(** All pairs of an earlier with a later element, row by row. *)
Fixpoint upper_pairs {T} (l : list T) : list (T * T) :=
  match l with
  | [] => []
  | a :: l' => ((fun b => (a, b)) <$> l') ++ upper_pairs l'
  end.

(** The squared distances of the strictly upper triangle. *)
Definition upper_sq_dists (X : list (list R)) : list R :=
  (fun p => sq_dist p.1 p.2) <$> upper_pairs X.

(** The record has a strictly positive weight. *)
Definition positive_weight (r : Row (A := R)) : Prop := 0 < r.(PWGTP).

End ExactVocabulary.

(** A binary64 number that is a zero (of either sign), and one that is
    neither a NaN nor an infinity. *)
Definition fzero (x : float) : Prop := PrimFloat.is_zero x = true.
Definition ffinite (x : float) : Prop := PrimFloat.is_finite x = true.

#[export] Instance Rlt_decision (x y : R) : Decision (x < y)%R := Rlt_dec x y.

#[export] Instance positive_weight_dec r : Decision (positive_weight r).
Proof. unfold positive_weight. apply _. Defined.




(** ** Example data *)

Module Examples.

(** A schema with one real feature, one discrete feature and one
    allocation flag, and a stats bundle built for it. *)
Definition schema : SchemaInfo :=
  {| real_feats := ["AGEP"]; discrete_feats := ["SEX"]; alloc_flags := ["FAGEP"] |}.

Definition versions : gmap string SchemaInfo := {[ "2015" := schema ]}.

Definition person {A} (age : A) (sex : option string) (w : A) : Row (A := A) :=
  {| reals := {[ "AGEP" := age ]};
     cats := {[ "SEX" := sex; "FAGEP" := Some "0" ]};
     PWGTP := w |}.

(** [SEX] was never missing in the 10 training records, [FAGEP] once. *)
Definition stats_of {A} (mean std : A) (sample : list (Row (A := A))) : Stats (A := A) :=
  {| version := "2015";
     real_means := [("AGEP", mean)];
     real_stds := [("AGEP", std)];
     value_counts := {[ "SEX" := [("1", 6%Z); ("2", 4%Z)]; "FAGEP" := [("0", 9%Z)] ]};
     n_total := 10%Z;
     sample := sample |}.

Definition stats64 : Stats (A := float) := stats_of 40%float 10%float [].

(** A schema that declares no real feature, for a stats bundle that has
    the mean of one. *)
Definition schema_no_reals : SchemaInfo :=
  {| real_feats := []; discrete_feats := ["SEX"]; alloc_flags := ["FAGEP"] |}.

Definition versions_no_reals : gmap string SchemaInfo := {[ "2015" := schema_no_reals ]}.

(** A real feature whose recorded standard deviation is zero. *)
Definition stats_constant : Stats (A := float) := stats_of 40%float 0%float [].

(** The same bundle in exact arithmetic, with a reference sample. *)
Definition stats_exact : Stats (A := R) :=
  stats_of 40%R 10%R
    [person 30%R (Some "1") 1%R; person 50%R (Some "2") 1%R; person 60%R None 2%R].

(** One file of three records. *)
Definition file_exact : list (Row (A := R)) :=
  [person 50%R (Some "2") 1%R; person 30%R (Some "1") 0%R; person 30%R None 2%R].

(** An evaluator that knows two subset expressions. *)
Definition sex_is {A} (v : string) (r : Row (A := A)) : bool :=
  bool_decide (r.(cats) !! "SEX" = Some (Some v)).

Definition eval_by_sex {A} (subsets : string) : result (list (Row (A := A) -> bool)) :=
  if decide (subsets = "SEX == 1, SEX == 2") then Ok [sex_is "1"; sex_is "2"]
  else if decide (subsets = "SEX == 2,") then Ok [sex_is "2"]
  else Raise SyntaxError.

(** A sampler that draws the zero matrix. *)
Definition zero_freqs {A} `{Num A} (n_freqs : nat) (bandwidth : A) (seed : option Z)
    (n_feats : nat) (orthogonal : bool) : list (list A) :=
  replicate n_feats (replicate n_freqs zero).

End Examples.

(** ** Vocabulary of the further properties *)

Section LayoutVocabulary.
Context {A : Type} {NumA : Num A}.

(** The column, inside the block of a feature with the stored counts [vc],
    that a record with the value [v] sets: the position of [v] among the
    stored categories; for a value that is missing or not stored, the
    overflow column if the feature has one and the last stored category
    otherwise. *)
Definition hot_index (stats : Stats (A := A)) (vc : Counts) (v : option string) : nat :=
  match v ≫= (fun s => fst <$> list_find (fun c => c = s) (vc.*1)) with
  | Some i => i
  | None => if has_overflow vc stats.(n_total) then length vc else length vc - 1
  end.

(** The one-hot block of feature [k] for the record [row]. *)
Definition block_of (stats : Stats (A := A)) (skip : gset string) (row : Row (A := A))
    (k : string) : list A :=
  if bool_decide (k ∈ skip) then []
  else match stats.(value_counts) !! k, row.(cats) !! k with
       | Some vc, Some v =>
           eye_row (if has_overflow vc stats.(n_total) then S (length vc) else length vc)
                   (hot_index stats vc v)
       | _, _ => []
       end.

(** The column names of feature [k]: one per stored category, and
    [k_nan] for the overflow column. *)
Definition block_names (stats : Stats (A := A)) (skip : gset string) (k : string)
  : list string :=
  if bool_decide (k ∈ skip) then []
  else match stats.(value_counts) !! k with
       | Some vc =>
           ((fun v => k +:+ "_" +:+ v) <$> vc.*1)
           ++ (if has_overflow vc stats.(n_total) then [k +:+ "_nan"] else [])
       | None => []
       end.

(** Two records agree on every feature the encoder keeps. *)
Definition agree_on_kept (info : SchemaInfo) (skip : gset string) (r1 r2 : Row (A := A))
  : Prop :=
  (forall f, f ∈ info.(real_feats) -> f ∉ skip -> r1.(reals) !! f = r2.(reals) !! f)
  /\ (forall k, k ∈ info.(discrete_feats) ++ info.(alloc_flags) -> k ∉ skip ->
        r1.(cats) !! k = r2.(cats) !! k).

End LayoutVocabulary.

(** The weights of query [i] multiplied by the factor [cs !! i]. *)
Definition rescale (cs : list R) (wts : list (list R)) : list (list R) :=
  zip_with (fun c w => Rmult c <$> w) cs wts.

Section ReturnedVocabulary.
Context {A : Type}.

(** The feature names of a returned tuple. *)
Definition returned_names (r : Returned (A := A)) : option (list string) :=
  match r with
  | Ret3 _ _ names => names
  | Ret6 _ _ _ _ _ names => names
  end.

(** An embedding array holds one matrix of [rows] rows per file. *)
Definition embedding_shape (files rows : nat) (e : Embedding (A := A)) : Prop :=
  match e with
  | PerQuery a => length a = files /\ Forall (fun m => length m = rows) a
  | Squeezed a => length a = files /\ Forall (fun row => length row = rows) a
  end.

Definition weights_shape (files : nat) (w : RegionWeights (A := A)) : Prop :=
  match w with
  | WeightsPerQuery a => length a = files
  | WeightsSqueezed a => length a = files
  end.

(** The shapes of the returned arrays: [files] entries each, [n_feats]
    rows in a linear embedding and [rff_rows] in an RFF embedding. *)
Definition returned_shape (files n_feats rff_rows : nat) (r : Returned (A := A)) : Prop :=
  match r with
  | Ret3 lin w _ => embedding_shape files n_feats lin /\ weights_shape files w
  | Ret6 lin rff w _ _ _ =>
      embedding_shape files n_feats lin
      /\ embedding_shape files rff_rows rff
      /\ weights_shape files w
  end.

(** What a file without a selected record contributes. *)
Definition zero_file `{Num A} (n_feats n_freqs n : nat) (skip_rbf : bool)
  : FileResult (A := A) :=
  {| file_lin := zeros n_feats n;
     file_rff := if skip_rbf then [] else zeros (2 * n_freqs) n;
     file_weight := replicate n zero |}.

End ReturnedVocabulary.

Section SamplerVocabulary.
Context {A : Type} {NumA : Num A}.
Variable RandomState : Type.
Variable normal : A -> A -> nat * nat -> RandomState -> list (list A) * RandomState.
Variable qr : list (list A) -> list (list A).

(** The orthogonal factors of [reps] successive standard normal draws of
    [n_feats x n_feats] matrices, and the state after them. *)
Fixpoint blocks_drawn (n_feats reps : nat) (rs : RandomState)
  : list (list (list A)) * RandomState :=
  match reps with
  | 0 => ([], rs)
  | S reps' =>
      let gauss := normal zero one (n_feats, n_feats) rs in
      let rest := blocks_drawn n_feats reps' gauss.2 in
      (qr gauss.1 :: rest.1, rest.2)
  end.

(** Entry [(i, j)] of block [b]. *)
Definition block_entry (blocks : list (list (list A))) (b i j : nat) : A :=
  default zero ((blocks !! b) ≫= (fun Q : list (list A) => (Q !! i) ≫= (fun row => row !! j))).

(** A bandwidth the plain path accepts: it is not zero, so that
    [1 / bandwidth] is defined whether the bandwidth is a Python or a
    numpy number, and [1 / bandwidth] is a positive scale, which numpy's
    [normal] draws with. *)
Definition accepted_bandwidth (bandwidth : A) : Prop :=
  nonzero bandwidth = true
  /\ leb zero (div one bandwidth) = true
  /\ nonzero (div one bandwidth) = true.

(** The random source returns arrays of the shape it is asked for, and
    the orthogonal factor of a square matrix has its shape. *)
Definition draws_shaped
    (chisquare : nat -> nat -> RandomState -> list A * RandomState) : Prop :=
  (forall loc scale rows cols rs,
     length (normal loc scale (rows, cols) rs).1 = rows
     /\ Forall (fun row => length row = cols) (normal loc scale (rows, cols) rs).1)
  /\ (forall m n,
        length m = n -> Forall (fun row => length row = n) m ->
        length (qr m) = n /\ Forall (fun row => length row = n) (qr m))
  /\ (forall df n rs, length (chisquare df n rs).1 = n).

End SamplerVocabulary.

(** The rows of the orthogonal factor of a square matrix are orthonormal. *)
Definition orthonormal_rows (qr : list (list R) -> list (list R)) : Prop :=
  forall g n, length g = n -> Forall (fun row => length row = n) g ->
    forall a b ra rb, qr g !! a = Some ra -> qr g !! b = Some rb ->
      dot ra rb = if decide (a = b) then 1%R else 0%R.

(** A random source for the examples: the state counts the draws, a
    normal draw returns its scale everywhere, a chi-square draw returns
    4 everywhere, and the orthogonal factor is the identity matrix. *)
Module SamplerExamples.
Section SamplerExamples.
Context {A : Type} {NumA : Num A}.

Definition normal (loc scale : A) (size : nat * nat) (rs : nat) : list (list A) * nat :=
  (replicate size.1 (replicate size.2 scale), S rs).

Definition four : A := add (add one one) (add one one).

Definition chisquare (df n : nat) (rs : nat) : list A * nat := (replicate n four, S rs).

Definition qr (m : list (list A)) : list (list A) :=
  imap (fun i _ => eye_row (length m) i) m.

Definition garbage (i j : nat) : A := zero.

Definition pick_rff_freqs :=
  Sampler.pick_rff_freqs nat 0 Z.to_nat normal chisquare qr garbage.

End SamplerExamples.
End SamplerExamples.

(** * Proofs *)

(** ** The error monad *)

Lemma bind_Ok {T U} (r : result T) (k : T -> result U) y :
  bind r k = Ok y <-> exists x, r = Ok x /\ k x = Ok y.
Proof.
  destruct r as [x|e]; simpl; split.
  - intros H. by exists x.
  - intros (x' & Hx & H). by injection Hx as ->.
  - intros H. discriminate.
  - intros (x' & H & _). discriminate.
Qed.

Lemma bind_Raise {T U} (r : result T) (k : T -> result U) e :
  bind r k = Raise e <-> r = Raise e \/ exists x, r = Ok x /\ k x = Raise e.
Proof.
  destruct r as [x|e']; simpl; split.
  - intros H. right. by exists x.
  - intros [H|(x' & Hx & H)]; [discriminate|]. by injection Hx as ->.
  - intros H. left. congruence.
  - intros [H|(x' & H & _)]; [congruence|discriminate].
Qed.

Ltac inv_bind H :=
  repeat match type of H with
         | bind _ _ = Ok _ =>
             let x := fresh "x" in
             let Hx := fresh "Hx" in
             apply bind_Ok in H as (x & Hx & H)
         end.

Lemma mapR_Ok_length {T U} (f : T -> result U) l l' :
  mapR f l = Ok l' -> length l' = length l.
Proof.
  revert l'. induction l as [|x l IH]; intros l' H; simpl in H.
  - by simplify_eq.
  - inv_bind H. simplify_eq. simpl. f_equal. eauto.
Qed.

Lemma mapR_Ok_lookup {T U} (f : T -> result U) l l' i x :
  mapR f l = Ok l' -> l !! i = Some x -> exists y, f x = Ok y /\ l' !! i = Some y.
Proof.
  revert l' i. induction l as [|a l IH]; intros l' i H Hi; simpl in H; [done|].
  inv_bind H. simplify_eq. destruct i as [|i]; simpl in *.
  - simplify_eq. eauto.
  - eauto.
Qed.

Lemma mapR_app {T U} (f : T -> result U) l1 l2 :
  mapR f (l1 ++ l2) = (y1 <- mapR f l1 ;; y2 <- mapR f l2 ;; Ok (y1 ++ y2)).
Proof.
  induction l1 as [|x l1 IH]; simpl.
  - by destruct (mapR f l2).
  - destruct (f x); simpl; [|done]. rewrite IH.
    destruct (mapR f l1); simpl; [|done]. by destruct (mapR f l2).
Qed.

Lemma mapR_Ok_Forall {T U} (f : T -> result U) (P : U -> Prop) l l' :
  mapR f l = Ok l' -> (forall x y, f x = Ok y -> P y) -> Forall P l'.
Proof.
  revert l'. induction l as [|a l IH]; intros l' H HP; simpl in H.
  - simplify_eq. constructor.
  - inv_bind H. simplify_eq. constructor; eauto.
Qed.

(** ** Column counting *)

Section EncoderFacts.
Context {A : Type} {NumA : Num A}.
Variable VERSIONS : gmap string SchemaInfo.

Implicit Types (stats : Stats (A := A)) (df : list (Row (A := A))) (skip : gset string).

(** Number of columns of the block of feature [k] with counts [vc]. *)
Definition block_width stats skip (k : string) (vc : Counts) : nat :=
  if bool_decide (k ∈ skip) then 0
  else length vc + (if has_overflow vc stats.(n_total) then 1 else 0).

Definition feat_width stats skip (k : string) : nat :=
  match stats.(value_counts) !! k with
  | Some vc => block_width stats skip k vc
  | None => 0
  end.

Lemma num_feats_sum stats skip :
  _num_feats stats skip =
    size (list_to_set (C := gset string) (stats.(real_means).*1) ∖ skip)
    + sum_list_with (fun kv => block_width stats skip kv.1 kv.2)
        (map_to_list stats.(value_counts)).
Proof.
  unfold _num_feats.
  generalize (size (list_to_set (C := gset string) (stats.(real_means).*1) ∖ skip)).
  induction (map_to_list stats.(value_counts)) as [|kv l IH]; intros n; simpl.
  - lia.
  - rewrite IH. unfold block_width. case_bool_decide; lia.
Qed.

Lemma kept_reals_size skip (means_index rf : list string) :
  NoDup rf ->
  list_to_set means_index =@{gset string} list_to_set rf ->
  size (list_to_set (C := gset string) means_index ∖ skip)
  = length (filter (fun f => f ∉ skip) rf).
Proof.
  intros Hnd ->.
  rewrite <- (size_list_to_set (C := gset string)) by by apply NoDup_filter.
  f_equal. apply set_eq. intros x.
  rewrite elem_of_difference, !elem_of_list_to_set, list_elem_of_filter. tauto.
Qed.

Lemma map_to_list_keys {V} (m : gmap string V) (ks : list string) :
  NoDup ks -> dom m = list_to_set ks ->
  map_to_list m ≡ₚ omap (fun k => (fun v => (k, v)) <$> m !! k) ks.
Proof.
  intros Hnd Hdom. apply NoDup_Permutation.
  - apply NoDup_map_to_list.
  - clear Hdom. induction Hnd as [|k ks Hk Hnd IH]; simpl; [constructor|].
    destruct (m !! k) as [v|] eqn:Hv; simpl; [|done].
    constructor; [|done]. rewrite list_elem_of_omap.
    intros (k' & Hk' & Heq). destruct (m !! k'); simplify_eq/=. done.
  - intros [k v]. rewrite elem_of_map_to_list, list_elem_of_omap. split.
    + intros Hkv. exists k. split.
      * assert (k ∈ dom m) as Hin by (apply elem_of_dom; eauto).
        rewrite Hdom in Hin. by apply elem_of_list_to_set in Hin.
      * by rewrite Hkv.
    + intros (k' & _ & Heq). destruct (m !! k') eqn:?; simplify_eq/=. done.
Qed.

Lemma width_sum_keys stats skip (ks : list string) :
  NoDup ks -> dom stats.(value_counts) = list_to_set ks ->
  sum_list_with (fun kv => block_width stats skip kv.1 kv.2)
    (map_to_list stats.(value_counts))
  = sum_list_with (feat_width stats skip) ks.
Proof.
  intros Hnd Hdom.
  rewrite (map_to_list_keys _ _ Hnd Hdom).
  clear. induction ks as [|k ks IH]; [done|].
  cbn [omap list_omap sum_list_with]. rewrite <- IH. unfold feat_width.
  destruct (value_counts stats !! k); simpl; lia.
Qed.

(** *** The loop over the discrete features *)

Definition n_codes_of stats (vc : Counts) : nat :=
  if has_overflow vc stats.(n_total) then S (length vc) else length vc.

Definition codes_of stats (vc : Counts) (c : list Z) : list Z :=
  if has_overflow vc stats.(n_total)
  then (fun x => if bool_decide (x = -1)%Z then Z.of_nat (length vc) else x) <$> c
  else c.

Definition names_of stats (k : string) (vc : Counts) : list string :=
  ((fun v => k +:+ "_" +:+ v) <$> vc.*1)
  ++ (if has_overflow vc stats.(n_total) then [k +:+ "_nan"] else []).

Lemma encode_feature_unfold df stats nf skip st k :
  encode_feature df stats nf skip st k =
  if bool_decide (k ∈ skip) then Ok st else
  vc <- lookup_or KeyError (stats.(value_counts) !! k) ;;
  vals <- select_cat df k ;;
  c <- categorical_codes vals (vc.*1) ;;
  if bool_decide (st.(start_col) + n_codes_of stats vc <= nf \/ n_codes_of stats vc = 0) then
    bit <- mapR (take_eye (n_codes_of stats vc)) (codes_of stats vc c) ;;
    Ok {| start_col := st.(start_col) + n_codes_of stats vc;
          filled := zip_with app st.(filled) bit;
          feat_names := st.(feat_names) ++ names_of stats k vc |}
  else Raise (ValueError take_out_msg).
Proof.
  unfold encode_feature, n_codes_of, codes_of, names_of.
  case_bool_decide; [done|].
  destruct (lookup_or KeyError (value_counts stats !! k)) as [vc|]; simpl; [|done].
  destruct (select_cat df k) as [vals|]; simpl; [|done].
  destruct (categorical_codes vals vc.*1) as [c|]; simpl; [|done].
  destruct (has_overflow vc (n_total stats)); simpl.
  - by rewrite <- app_assoc.
  - by rewrite app_nil_r.
Qed.

Lemma feat_width_skip stats skip k : k ∈ skip -> feat_width stats skip k = 0.
Proof.
  intros Hk. unfold feat_width, block_width.
  destruct (value_counts stats !! k); [|done]. by rewrite bool_decide_true.
Qed.

Lemma feat_width_kept stats skip k vc :
  k ∉ skip -> stats.(value_counts) !! k = Some vc ->
  feat_width stats skip k = n_codes_of stats vc.
Proof.
  intros Hk Hvc. unfold feat_width, block_width, n_codes_of. rewrite Hvc.
  rewrite bool_decide_false by done. destruct (has_overflow _ _); lia.
Qed.

Lemma length_eye_row n i : length (eye_row (A := A) n i) = n.
Proof. unfold eye_row. by rewrite length_fmap, length_seq. Qed.

Lemma take_eye_length n c row : take_eye (A := A) n c = Ok row -> length row = n.
Proof.
  unfold take_eye. case_bool_decide; intros; simplify_eq. apply length_eye_row.
Qed.

Lemma select_cat_length df k vals : select_cat df k = Ok vals -> length vals = length df.
Proof. apply mapR_Ok_length. Qed.

Lemma categorical_codes_length vals cs c :
  categorical_codes vals cs = Ok c -> length c = length vals.
Proof.
  unfold categorical_codes. case_bool_decide; intros; simplify_eq.
  by rewrite length_fmap.
Qed.

Lemma codes_of_length stats vc c : length (codes_of stats vc c) = length c.
Proof. unfold codes_of. destruct (has_overflow _ _); by rewrite ?length_fmap. Qed.

(** The rows written so far all end at the cursor. *)
Definition well_filled df (st : EncState (A := A)) : Prop :=
  length st.(filled) = length df
  /\ Forall (fun row => length row = st.(start_col)) st.(filled).

Lemma encode_feature_Ok df stats nf skip st k st' :
  encode_feature df stats nf skip st k = Ok st' ->
  st'.(start_col) = st.(start_col) + feat_width stats skip k
  /\ (well_filled df st -> well_filled df st').
Proof.
  rewrite encode_feature_unfold. case_bool_decide as Hk.
  { intros; simplify_eq. rewrite feat_width_skip by done. split; [lia|done]. }
  intros H. apply bind_Ok in H as (vc & Hvc & H).
  apply bind_Ok in H as (vals & Hvals & H). apply bind_Ok in H as (c & Hc & H).
  destruct (value_counts stats !! k) as [vc'|] eqn:Hvc'; simplify_eq/=.
  case_bool_decide as Hfit; [|done].
  apply bind_Ok in H as (bit & Hbit' & H). simplify_eq/=.
  rewrite (feat_width_kept _ _ _ _ Hk Hvc'). split; [done|].
  intros [Hlen Hrows]. unfold well_filled; simpl.
  assert (length bit = length df) as Hbit.
  { rewrite (mapR_Ok_length _ _ _ Hbit'), codes_of_length.
    rewrite (categorical_codes_length _ _ _ Hc). by eapply select_cat_length. }
  split.
  - rewrite length_zip_with. lia.
  - apply Forall_lookup_2. intros i row Hi.
    apply lookup_zip_with_Some in Hi as (a & b & -> & Ha & Hb).
    rewrite length_app. rewrite (Forall_lookup_1 _ _ _ _ Hrows Ha). f_equal.
    eapply (Forall_lookup_1 (fun row => length row = n_codes_of stats vc)); [|done].
    eapply mapR_Ok_Forall; [done|]. intros ??. apply take_eye_length.
Qed.

Lemma encode_features_Ok df stats nf skip ks st st' :
  encode_features df stats nf skip st ks = Ok st' ->
  st'.(start_col) = st.(start_col) + sum_list_with (feat_width stats skip) ks
  /\ (well_filled df st -> well_filled df st').
Proof.
  revert st. induction ks as [|k ks IH]; intros st H; simpl in H.
  - simplify_eq. simpl. split; [lia|done].
  - apply bind_Ok in H as (st1 & Hst1 & H).
    apply encode_feature_Ok in Hst1 as [Hc Hw].
    apply IH in H as [Hc' Hw']. simpl. split; [lia|auto].
Qed.

(** Whatever goes wrong in the loop, it is not the buffer that is too
    narrow, as long as the blocks still to come fit behind the cursor. *)
Lemma encode_features_fit df stats nf skip ks st e :
  st.(start_col) + sum_list_with (feat_width stats skip) ks <= nf ->
  encode_features df stats nf skip st ks = Raise e ->
  e <> ValueError take_out_msg /\ e <> ValueError assign_msg /\ e <> AssertionError.
Proof.
  revert st. induction ks as [|k ks IH]; intros st Hfit H; simpl in *; [done|].
  apply bind_Raise in H as [H|(st1 & Hst1 & H)].
  - clear IH. rewrite encode_feature_unfold in H. case_bool_decide as Hk; [done|].
    apply bind_Raise in H as [H|(vc & Hvc & H)].
    { destruct (value_counts stats !! k); simplify_eq/=. done. }
    destruct (value_counts stats !! k) as [vc'|] eqn:Hvc'; simplify_eq/=.
    rewrite (feat_width_kept _ _ _ _ Hk Hvc') in Hfit.
    apply bind_Raise in H as [H|(vals & Hvals & H)].
    { unfold select_cat in H. clear -H. induction df as [|row df IH]; simpl in H; [done|].
      apply bind_Raise in H as [H|(y & Hy & H)].
      - destruct (cats row !! k); simplify_eq/=. done.
      - apply bind_Raise in H as [H|(ys & Hys & H)]; [auto|done]. }
    apply bind_Raise in H as [H|(c & Hc & H)].
    { unfold categorical_codes in H. case_bool_decide; simplify_eq. done. }
    rewrite bool_decide_true in H by lia.
    apply bind_Raise in H as [H|(bit & Hbit & H)]; [|done].
    clear -H. induction (codes_of stats vc c) as [|z zs IH]; simpl in H; [done|].
    apply bind_Raise in H as [H|(y & Hy & H)].
    + unfold take_eye in H. case_bool_decide; simplify_eq. done.
    + apply bind_Raise in H as [H|(ys & Hys & H)]; [auto|done].
  - apply encode_feature_Ok in Hst1 as [Hc _]. apply (IH st1); [lia|done].
Qed.

(** *** The real columns *)

Lemma broadcast_row_length width (s row : list A) :
  broadcast_row width s = Ok row -> length row = width.
Proof.
  unfold broadcast_row. case_decide; [by intros; simplify_eq|].
  destruct s as [|x [|]]; intros; simplify_eq. by rewrite length_replicate.
Qed.

Lemma select_reals_shape df fs x :
  select_reals df fs = Ok x ->
  length x = length df /\ Forall (fun row => length row = length fs) x.
Proof.
  unfold select_reals. intros H. split; [by eapply mapR_Ok_length|].
  eapply mapR_Ok_Forall; [done|]. intros row y Hy; simpl in Hy.
  by apply mapR_Ok_length in Hy.
Qed.

Lemma encode_reals_Ok df stats nf fs m :
  encode_reals df stats nf fs = Ok m ->
  length m = length df
  /\ Forall (fun row => length row = length fs `min` nf) m.
Proof.
  unfold encode_reals. intros H.
  apply bind_Ok in H as (x & Hx & H). case_bool_decide; [|done].
  apply bind_Ok in H as (means & Hmeans & H). apply bind_Ok in H as (stds & Hstds & H).
  simplify_eq. apply select_reals_shape in Hx as [Hlen Hrows].
  apply broadcast_row_length in Hmeans, Hstds.
  split; [by rewrite length_fmap|].
  apply Forall_fmap. eapply Forall_impl; [done|]. intros row Hrow; simpl in *.
  rewrite length_fmap, !length_zip_with, length_take. lia.
Qed.

Lemma encode_reals_fit df stats nf fs e :
  length fs <= nf ->
  encode_reals df stats nf fs = Raise e ->
  e <> ValueError take_out_msg /\ e <> ValueError assign_msg /\ e <> AssertionError.
Proof.
  unfold encode_reals. intros Hfit H.
  apply bind_Raise in H as [H|(x & Hx & H)].
  { unfold select_reals in H. clear -H. induction df as [|row df IH]; simpl in H; [done|].
    apply bind_Raise in H as [H|(y & Hy & H)].
    - clear -H. induction fs as [|f fs IH]; simpl in H; [done|].
      apply bind_Raise in H as [H|(y & Hy & H)].
      + destruct (reals row !! f); simplify_eq/=. done.
      + apply bind_Raise in H as [H|(ys & Hys & H)]; [auto|done].
    - apply bind_Raise in H as [H|(ys & Hys & H)]; [auto|done]. }
  rewrite bool_decide_true in H by lia.
  assert (forall s e', broadcast_row (A := A) (length fs `min` nf) s = Raise e' ->
                       e' = ValueError broadcast_msg) as Hb.
  { intros s e'. unfold broadcast_row. case_decide; [done|].
    destruct s as [|? [|]]; intros; by simplify_eq. }
  apply bind_Raise in H as [H|(means & Hmeans & H)]; [by apply Hb in H as ->|].
  apply bind_Raise in H as [H|(stds & Hstds & H)]; [by apply Hb in H as ->|done].
Qed.

Lemma encode_feature_prefix df stats nf skip st k st' i row :
  well_filled df st ->
  encode_feature df stats nf skip st k = Ok st' ->
  st.(filled) !! i = Some row ->
  exists ext, st'.(filled) !! i = Some (row ++ ext).
Proof.
  intros [Hlen _]. rewrite encode_feature_unfold. case_bool_decide as Hk.
  { intros ? Hi; simplify_eq. exists []. by rewrite app_nil_r. }
  intros H Hi. apply bind_Ok in H as (vc & Hvc & H).
  apply bind_Ok in H as (vals & Hvals & H). apply bind_Ok in H as (c & Hc & H).
  case_bool_decide as Hfit; [|done].
  apply bind_Ok in H as (bit & Hbit & H). simplify_eq/=.
  assert (length bit = length df) as Hbitlen.
  { rewrite (mapR_Ok_length _ _ _ Hbit), codes_of_length.
    rewrite (categorical_codes_length _ _ _ Hc). by eapply select_cat_length. }
  destruct (lookup_lt_is_Some_2 bit i) as [ext Hext].
  { apply lookup_lt_Some in Hi. lia. }
  exists ext. rewrite lookup_zip_with, Hi. simpl. by rewrite Hext.
Qed.

Lemma encode_features_prefix df stats nf skip ks st st' i row :
  well_filled df st ->
  encode_features df stats nf skip st ks = Ok st' ->
  st.(filled) !! i = Some row ->
  exists ext, st'.(filled) !! i = Some (row ++ ext).
Proof.
  revert st row. induction ks as [|k ks IH]; intros st row Hw H Hi; simpl in H.
  - simplify_eq. exists []. by rewrite app_nil_r.
  - apply bind_Ok in H as (st1 & Hst1 & H).
    destruct (encode_feature_prefix _ _ _ _ _ _ _ _ _ Hw Hst1 Hi) as [ext1 Hext1].
    apply encode_feature_Ok with (df := df) in Hst1 as [_ Hw1].
    destruct (IH st1 _ (Hw1 Hw) H Hext1) as [ext2 Hext2].
    exists (ext1 ++ ext2). by rewrite app_assoc.
Qed.

(** *** The encoder and the column count *)

Lemma num_feats_schema stats info skip :
  stats_match_schema stats info ->
  _num_feats stats skip
  = length (filter (fun f => f ∉ skip) info.(real_feats))
    + sum_list_with (feat_width stats skip) (info.(discrete_feats) ++ info.(alloc_flags)).
Proof.
  intros (Hnd & Hreal & Hnd' & Hdom).
  rewrite num_feats_sum. f_equal.
  - by apply kept_reals_size.
  - by apply width_sum_keys.
Qed.

(** Whenever the encoder returns, every row ends at the final cursor,
    which is the width [num_feats] of the buffer. *)
Lemma get_dummies_shape df stats num_feats ret_df skip out m names :
  get_dummies VERSIONS df stats num_feats ret_df skip out = Ok (m, names) ->
  length m = length df
  /\ Forall (fun row => length row = default (_num_feats stats skip) num_feats) m.
Proof.
  unfold get_dummies. intros H.
  apply bind_Ok in H as (info & Hinfo & H).
  set (nf := default (_num_feats stats skip) num_feats) in *.
  case_bool_decide; [|done].
  apply bind_Ok in H as (x & Hx & H). apply bind_Ok in H as (st & Hst & H).
  case_bool_decide as Hcur; [|done]. simplify_eq.
  apply encode_reals_Ok in Hx as [Hlen Hrows].
  apply encode_features_Ok with (df := df) in Hst as [Hc Hw]. simpl in Hc.
  assert (well_filled df st) as [Hlen' Hrows']; [apply Hw|].
  - split; [done|]. simpl. eapply Forall_impl; [done|]. intros row; simpl. lia.
  - split; [done|]. by rewrite <- Hcur.
Qed.

End EncoderFacts.

(** ** One-hot blocks *)

Section OneHot.
Context {A : Type} {NumA : Num A}.

Implicit Types (stats : Stats (A := A)).

Lemma code_of_stored (categories : list string) i s :
  NoDup categories -> categories !! i = Some s ->
  code_of categories (Some s) = Z.of_nat i.
Proof.
  intros Hnd Hi. unfold code_of.
  destruct (list_find (fun c => c = s) categories) as [[j y]|] eqn:Hfind.
  - apply list_find_Some in Hfind as (Hj & -> & _).
    by rewrite (NoDup_lookup _ _ _ _ Hnd Hj Hi).
  - apply list_find_None in Hfind.
    by apply (Forall_lookup_1 _ _ _ _ Hfind) in Hi.
Qed.

Lemma code_of_unseen (categories : list string) v :
  (forall s, v = Some s -> s ∉ categories) ->
  code_of categories v = (-1)%Z.
Proof.
  intros Hv. unfold code_of. destruct v as [s|]; [|done].
  destruct (list_find (fun c => c = s) categories) as [[j y]|] eqn:Hfind; [|done].
  apply list_find_Some in Hfind as (Hj & -> & _).
  destruct (Hv s eq_refl). by eapply list_elem_of_lookup_2.
Qed.

(** What the block of one feature holds for a record whose value is [v]:
    the row of the identity matrix at the value's position; at the overflow
    column for a value that is not stored when there is one; and, when
    there is none, the row of the last stored category. *)
Lemma one_hot_row stats (vc : Counts) v :
  NoDup vc.*1 ->
  let n := n_codes_of stats vc in
  let row := mapR (take_eye (A := A) n) (codes_of stats vc [code_of vc.*1 v]) in
  (forall i s, vc.*1 !! i = Some s -> v = Some s -> row = Ok [eye_row n i])
  /\ ((forall s, v = Some s -> s ∉ vc.*1) ->
      has_overflow vc stats.(n_total) = true -> row = Ok [eye_row n (length vc)])
  /\ ((forall s, v = Some s -> s ∉ vc.*1) ->
      has_overflow vc stats.(n_total) = false -> vc <> [] ->
      row = Ok [eye_row n (length vc - 1)]).
Proof.
  intros Hnd n row. subst n row. unfold n_codes_of, codes_of. split_and!.
  - intros i s Hi ->. rewrite (code_of_stored _ _ _ Hnd Hi).
    assert (i < length vc) as Hlt.
    { apply lookup_lt_Some in Hi. by rewrite length_fmap in Hi. }
    destruct (has_overflow vc _); simpl; unfold take_eye.
    + rewrite (bool_decide_false (Z.of_nat i = -1)%Z) by lia.
      rewrite (bool_decide_false (Z.of_nat i < 0)%Z) by lia.
      rewrite bool_decide_true by lia. simpl. by rewrite Nat2Z.id.
    + rewrite (bool_decide_false (Z.of_nat i < 0)%Z) by lia.
      rewrite bool_decide_true by lia. simpl. by rewrite Nat2Z.id.
  - intros Hv ->. rewrite (code_of_unseen _ _ Hv). simpl. unfold take_eye.
    rewrite (bool_decide_false (Z.of_nat (length vc) < 0)%Z) by lia.
    rewrite bool_decide_true by lia. simpl. by rewrite Nat2Z.id.
  - intros Hv -> Hne. rewrite (code_of_unseen _ _ Hv). simpl. unfold take_eye.
    assert (0 < length vc) by (destruct vc; simpl; [done|lia]).
    rewrite (bool_decide_true (-1 < 0)%Z) by lia.
    rewrite bool_decide_true by lia. simpl. do 3 f_equal. lia.
Qed.

End OneHot.

Section EncoderClaims.
Context {A : Type} {NumA : Num A}.
Variable VERSIONS : gmap string SchemaInfo.

Implicit Types (stats : Stats (A := A)) (df : list (Row (A := A))) (skip : gset string).

(** C1 (as amended): for a stats bundle built for the schema it names and
    every skip-set, the encoder called with the default [num_feats] never
    fails its final assertion and never finds the buffer too narrow for a
    block; whenever it returns, the matrix has one row per record and
    exactly [_num_feats stats skip_feats] columns. *)
Theorem num_feats_matches_encoder df stats info skip ret_df :
  VERSIONS !! stats.(version) = Some info ->
  stats_match_schema stats info ->
  let r := get_dummies VERSIONS df stats None ret_df skip None in
  r <> Raise AssertionError
  /\ r <> Raise (ValueError take_out_msg)
  /\ r <> Raise (ValueError assign_msg)
  /\ forall m names, r = Ok (m, names) ->
       length m = length df
       /\ Forall (fun row => length row = _num_feats stats skip) m.
Proof.
  intros Hinfo Hmatch r.
  assert (forall m names, r = Ok (m, names) ->
            length m = length df
            /\ Forall (fun row => length row = _num_feats stats skip) m) as Hshape.
  { intros m names Hr. by apply get_dummies_shape in Hr. }
  assert (forall e, r = Raise e ->
            e <> ValueError take_out_msg /\ e <> ValueError assign_msg
            /\ e <> AssertionError) as Herr.
  { subst r. unfold get_dummies. rewrite Hinfo; simpl.
    rewrite bool_decide_true by done.
    pose proof (num_feats_schema stats info skip Hmatch) as Hn.
    set (kept := filter (fun f => f ∉ skip) (real_feats info)) in *.
    intros e H. apply bind_Raise in H as [H|(x & Hx & H)].
    { eapply encode_reals_fit; [|done]. lia. }
    apply bind_Raise in H as [H|(st & Hst & H)].
    { eapply encode_features_fit; [|done]. simpl. lia. }
    apply encode_features_Ok with (df := df) in Hst as [Hc _]. simpl in Hc.
    rewrite bool_decide_true in H by lia. done. }
  split_and!; [intros H; by apply Herr in H as (_ & _ & ?)
              |intros H; by apply Herr in H as (? & _ & _)
              |intros H; by apply Herr in H as (_ & ? & _)
              |done].
Qed.

(** C6 (as amended): when the encoder returns and the stats bundle lists
    the means and deviations of exactly the kept real features, in schema
    order, the column of the [j]-th kept real feature holds
    [(value - mean) / std] for every record, except that a NaN result is
    replaced by 0; any other result, an infinity included, is stored as
    computed. *)
Theorem real_columns_standardized df stats info num_feats ret_df skip out m names :
  VERSIONS !! stats.(version) = Some info ->
  get_dummies VERSIONS df stats num_feats ret_df skip out = Ok (m, names) ->
  (stats.(real_means)).*1 = filter (fun f => f ∉ skip) info.(real_feats) ->
  (stats.(real_stds)).*1 = filter (fun f => f ∉ skip) info.(real_feats) ->
  forall i row j f mu sd,
    df !! i = Some row ->
    stats.(real_means) !! j = Some (f, mu) ->
    stats.(real_stds) !! j = Some (f, sd) ->
    exists v,
      row.(reals) !! f = Some v
      /\ (m !! i) ≫= (fun r => r !! j)
         = Some (let z := div (sub v mu) sd in if isnan z then zero else z).
Proof.
  intros Hinfo H Hmeans Hstds i row j f mu sd Hi Hmu Hsd.
  unfold get_dummies in H. rewrite Hinfo in H; simpl in H.
  case_bool_decide; [|done].
  apply bind_Ok in H as (x & Hx & H). apply bind_Ok in H as (st & Hst & H).
  case_bool_decide as Hcur; [|done]. injection H as <- _.
  remember (default (_num_feats stats skip) num_feats) as nf eqn:Hnf.
  remember (filter (fun f => f ∉ skip) (real_feats info)) as kept eqn:Hkept.
  pose proof (encode_features_Ok _ _ _ _ _ _ _ Hst) as [Hc _]. simpl in Hc.
  assert (length kept `min` nf = length kept) as Hwidth by lia.
  pose proof (encode_reals_Ok _ _ _ _ _ Hx) as [Hxlen Hxrows].
  rewrite Hwidth in Hxrows.
  (* the row of the record in the real block *)
  unfold encode_reals in Hx. apply bind_Ok in Hx as (sel & Hsel & Hx).
  case_bool_decide; [|done].
  apply bind_Ok in Hx as (means & Hmeans' & Hx).
  apply bind_Ok in Hx as (stds & Hstds' & Hx). injection Hx as <-.
  rewrite Hwidth in *.
  assert (means = (real_means stats).*2) as ->.
  { unfold broadcast_row in Hmeans'. rewrite decide_True in Hmeans'; [by simplify_eq|].
    by rewrite length_fmap, <- (length_fmap fst), Hmeans. }
  assert (stds = (real_stds stats).*2) as ->.
  { unfold broadcast_row in Hstds'. rewrite decide_True in Hstds'; [by simplify_eq|].
    by rewrite length_fmap, <- (length_fmap fst), Hstds. }
  assert (kept !! j = Some f) as Hf.
  { rewrite <- Hmeans, list_lookup_fmap, Hmu. done. }
  unfold select_reals in Hsel.
  destruct (mapR_Ok_lookup _ _ _ _ _ Hsel Hi) as (srow & Hsrow & Hsi).
  destruct (mapR_Ok_lookup _ _ _ _ _ Hsrow Hf) as (v & Hv & Hsj).
  exists v. split.
  { destruct (reals row !! f); by simplify_eq/=. }
  set (rrow := nan_to_zero <$>
                 zip_with div (zip_with sub (take (length kept) srow) (real_means stats).*2)
                   (real_stds stats).*2).
  assert (forall (T : Type) (x0 : T) l, l !! j = Some x0 -> take (length kept) l !! j = Some x0)
    as Htake.
  { intros T x0 l Hl. rewrite lookup_take_lt; [done|]. by apply lookup_lt_Some in Hf. }
  assert (rrow !! j = Some (nan_to_zero (div (sub v mu) sd))) as Hrj.
  { subst rrow. rewrite list_lookup_fmap, !lookup_zip_with.
    rewrite (Htake _ _ _ Hsj), !list_lookup_fmap, Hmu, Hsd. done. }
  edestruct (encode_features_prefix df stats nf skip) as [ext Hext]; [|exact Hst|..].
  { split; simpl; [exact Hxlen|exact Hxrows]. }
  { simpl. rewrite list_lookup_fmap, Hsi. done. }
  fold rrow in Hext. rewrite Hext. simpl.
  rewrite lookup_app_l; [done|]. by apply lookup_lt_Some in Hrj.
Qed.

End EncoderClaims.

(** A record aged 50 against a mean of 40 and a deviation of 10. *)
Lemma real_columns_standardized_witness :
  Examples.versions !! Examples.stats64.(version) = Some Examples.schema
  /\ get_dummies Examples.versions [Examples.person 50%float (Some "2") 1%float]
       Examples.stats64 None true ∅ None
     = Ok ([[1; 0; 1; 1; 0]]%float, Some ["AGEP"; "SEX_1"; "SEX_2"; "FAGEP_0"; "FAGEP_nan"])
  /\ exists v,
       (Examples.person 50%float (Some "2") 1%float).(reals) !! "AGEP" = Some v
       /\ Some 1%float
          = Some (let z := div (sub v 40%float) 10%float in if isnan z then zero else z).
Proof.
  assert (Examples.versions !! Examples.stats64.(version) = Some Examples.schema) as H1
    by (vm_compute; reflexivity).
  assert (get_dummies Examples.versions [Examples.person 50%float (Some "2") 1%float]
            Examples.stats64 None true ∅ None
          = Ok ([[1; 0; 1; 1; 0]]%float,
                Some ["AGEP"; "SEX_1"; "SEX_2"; "FAGEP_0"; "FAGEP_nan"])) as H2
    by (vm_compute; reflexivity).
  split; [exact H1|]. split; [exact H2|].
  exact (real_columns_standardized Examples.versions _ _ _ _ _ _ _ _ _ H1 H2
           eq_refl eq_refl 0 _ 0 "AGEP" 40%float 10%float eq_refl eq_refl eq_refl).
Defined.

(** C6, counterexample: a real feature whose recorded deviation is zero.
    For a record off the mean the quotient is an infinity, which is not a
    NaN and stays in the encoded matrix. *)
Lemma infinite_value_counterexample :
  get_dummies Examples.versions [Examples.person 50%float (Some "2") 1%float]
    Examples.stats_constant None true ∅ None
  = Ok ([[infinity; 0; 1; 1; 0]]%float,
        Some ["AGEP"; "SEX_1"; "SEX_2"; "FAGEP_0"; "FAGEP_nan"])
  /\ PrimFloat.eqb infinity 0 = false.
Proof. split; vm_compute; reflexivity. Qed.

(** C3, the failing input: [SEX] has the stored categories "1" and "2" and no
    overflow column.  A record with the unseen value "3" and a record whose
    value is missing both get the block of category "2". *)
Theorem unseen_category_without_overflow :
  let block (sex : option string) :=
    get_dummies Examples.versions [Examples.person 40%float sex 1%float]
      Examples.stats64 None false {["FAGEP"]} None in
  block (Some "3") = Ok ([[0; 0; 1]]%float, None)
  /\ block None = Ok ([[0; 0; 1]]%float, None)
  /\ block (Some "2") = Ok ([[0; 0; 1]]%float, None).
Proof. split_and!; vm_compute; reflexivity. Qed.

(** A stats bundle built for its schema: five columns are counted and
    five are produced. *)
Lemma num_feats_matches_encoder_witness :
  Examples.versions !! Examples.stats64.(version) = Some Examples.schema
  /\ stats_match_schema Examples.stats64 Examples.schema
  /\ let r := get_dummies Examples.versions
                [Examples.person 50%float (Some "2") 1%float] Examples.stats64
                None true ∅ None in
     r <> Raise AssertionError
     /\ r <> Raise (ValueError take_out_msg)
     /\ r <> Raise (ValueError assign_msg)
     /\ forall m names, r = Ok (m, names) ->
          length m = 1
          /\ Forall (fun row => length row = _num_feats Examples.stats64 ∅) m.
Proof.
  assert (Examples.versions !! Examples.stats64.(version) = Some Examples.schema) as H1
    by (vm_compute; reflexivity).
  assert (stats_match_schema Examples.stats64 Examples.schema) as H2.
  { unfold stats_match_schema. split_and!; compute_done. }
  split; [exact H1|]. split; [exact H2|].
  exact (num_feats_matches_encoder Examples.versions
           [Examples.person 50%float (Some "2") 1%float] Examples.stats64
           Examples.schema ∅ true H1 H2).
Defined.

(** C1, counterexample: a stats bundle that has the mean of a real feature
    its schema does not declare.  Five columns are counted, four are
    produced, and the final assertion fails. *)
Lemma num_feats_counterexample :
  _num_feats (Examples.stats64) ∅ = 5
  /\ get_dummies Examples.versions_no_reals
       [Examples.person 50%float (Some "2") 1%float] Examples.stats64
       None true ∅ None
     = Raise AssertionError.
Proof. split; vm_compute; reflexivity. Qed.

(** ** Embedding primitives, in exact arithmetic *)

Section Embeddings.
Local Open Scope R_scope.

Implicit Types (feats wts freqs : list (list R)) (w xs : list R).

Lemma nonzero_true (x : R) : x <> 0 -> nonzero x = true.
Proof. intros Hx. simpl. by destruct (Req_dec_T x 0). Qed.

Lemma nonzero_false : nonzero 0 = false.
Proof. simpl. by destruct (Req_dec_T 0 0). Qed.

Lemma guarded_div_nonzero s t : t <> 0 -> guarded_div s t = s / t.
Proof. intros Ht. unfold guarded_div. by rewrite nonzero_true. Qed.

Lemma guarded_div_zero s : guarded_div s 0 = s.
Proof. unfold guarded_div. by rewrite nonzero_false. Qed.

Lemma vsum_cons (x : R) l : vsum (x :: l) = x + vsum l.
Proof. done. Qed.

Lemma vsum_app (l k : list R) : vsum (l ++ k) = vsum l + vsum k.
Proof.
  induction l as [|x l IH]; [unfold vsum; simpl; lra|].
  change ((x :: l) ++ k) with (x :: (l ++ k)). rewrite !vsum_cons, IH. lra.
Qed.

Lemma vsum_nonneg w : Forall (fun x => 0 <= x) w -> 0 <= vsum w.
Proof.
  induction 1 as [|x l Hx _ IH]; [simpl; lra|]. rewrite vsum_cons. lra.
Qed.

(** Non-negative weights that sum to zero are all zero. *)
Lemma vsum_nonneg_zero w :
  Forall (fun x => 0 <= x) w -> vsum w = 0 -> Forall (fun x => x = 0) w.
Proof.
  induction 1 as [|x l Hx Hl IH]; intros Hs; [constructor|].
  rewrite vsum_cons in Hs. pose proof (vsum_nonneg _ Hl).
  constructor; [lra|]. apply IH. lra.
Qed.

Lemma dot_nil_r xs : dot xs [] = 0.
Proof. unfold dot. by destruct xs. Qed.

Lemma dot_cons (x y : R) xs w : dot (x :: xs) (y :: w) = x * y + dot xs w.
Proof. done. Qed.

Lemma dot_zero_weights xs w : Forall (fun x => x = 0) w -> dot xs w = 0.
Proof.
  intros Hw. revert xs. induction Hw as [|y w -> _ IH]; intros xs.
  - apply dot_nil_r.
  - destruct xs as [|x xs]; [done|]. rewrite dot_cons, IH. lra.
Qed.

Lemma dot_app xs1 xs2 w1 w2 :
  length xs1 = length w1 -> dot (xs1 ++ xs2) (w1 ++ w2) = dot xs1 w1 + dot xs2 w2.
Proof.
  revert w1. induction xs1 as [|x xs1 IH]; intros [|y w1] Hlen; simplify_eq/=.
  - unfold dot, vsum; simpl; lra.
  - rewrite !dot_cons, IH by done. lra.
Qed.

(** The entries of [np.dot(a.T, wts.T)] after the guarded division. *)
Lemma weighted_columns_entry ncols (a wts : list (list R)) :
  Forall (fun w => length w = length a) wts ->
  exists out,
    dot_T ncols a wts = Ok out
    /\ length out = ncols
    /\ Forall (fun row => length row = length wts) out
    /\ forall j i w, (j < ncols)%nat -> wts !! i = Some w ->
         (normalize_columns out (vsum <$> wts) !! j) ≫= (fun row => row !! i)
         = Some (guarded_div (dot (column j a) w) (vsum w)).
Proof.
  intros Hshape. eexists. unfold dot_T. rewrite bool_decide_true by done.
  split; [done|]. split_and!.
  - by rewrite length_fmap, length_seq.
  - apply Forall_fmap, Forall_forall. intros j _. simpl. by rewrite length_fmap.
  - intros j i w Hj Hi. unfold normalize_columns.
    rewrite !list_lookup_fmap, lookup_seq_lt by done. simpl.
    rewrite lookup_zip_with, !list_lookup_fmap, Hi. done.
Qed.

Lemma normalize_columns_app out1 out2 ws :
  normalize_columns (out1 ++ out2) ws
  = normalize_columns out1 ws ++ normalize_columns out2 ws.
Proof. unfold normalize_columns. by rewrite fmap_app. Qed.

Lemma normalize_columns_length out ws :
  length (normalize_columns out ws) = length out.
Proof. unfold normalize_columns. by rewrite length_fmap. Qed.

Lemma normalize_columns_rows (out : list (list R)) (ws : list R) :
  Forall (fun row => length row = length ws) out ->
  Forall (fun row => length row = length ws) (normalize_columns out ws).
Proof.
  intros H. unfold normalize_columns. apply Forall_fmap.
  eapply Forall_impl; [done|]. intros row Hrow; simpl in *.
  rewrite length_zip_with. lia.
Qed.


(** Column [k] of [sin(angles)], and of [cos(angles)]. *)
Lemma column_of_angles (g : R -> R) feats freqs k :
  (k < shape1 freqs)%nat ->
  column k ((fun row : list R => g <$> row) <$>
            ((fun row => (fun j => dot row (column j freqs)) <$> seq 0 (shape1 freqs)) <$> feats))
  = g <$> angles_column feats freqs k.
Proof.
  intros Hk. unfold column, angles_column. rewrite <- !list_fmap_compose.
  apply list_fmap_ext. intros _ row _. simpl.
  by rewrite !list_lookup_fmap, lookup_seq_lt.
Qed.

Lemma rff_embedding_entry feats wts freqs :
  Forall (fun row => length row = length freqs) feats ->
  Forall (fun w => length w = length feats) wts ->
  exists out,
    rff_embedding feats wts freqs = Ok out
    /\ length out = (2 * shape1 freqs)%nat
    /\ Forall (fun row => length row = length wts) out
    /\ forall k i w, (k < shape1 freqs)%nat -> wts !! i = Some w ->
         (out !! k) ≫= (fun row => row !! i)
         = Some (guarded_div (dot (sin <$> angles_column feats freqs k) w) (vsum w))
         /\ (out !! (shape1 freqs + k)%nat) ≫= (fun row => row !! i)
            = Some (guarded_div (dot (cos <$> angles_column feats freqs k) w) (vsum w)).
Proof.
  intros Hfeats Hwts. unfold rff_embedding, matmul.
  rewrite bool_decide_true by done. cbn [bind].
  set (angles := (fun row => (fun j => dot row (column j freqs)) <$> seq 0 (shape1 freqs))
                 <$> feats).
  set (S := (fun row : list R => sin <$> row) <$> angles).
  set (C := (fun row : list R => cos <$> row) <$> angles).
  assert (length S = length feats) as HS by (subst S angles; by rewrite !length_fmap).
  assert (length C = length feats) as HC by (subst C angles; by rewrite !length_fmap).
  destruct (weighted_columns_entry (shape1 freqs) S wts)
    as (os & Hos & Hlens & Hrowss & Hes); [by rewrite HS|].
  destruct (weighted_columns_entry (shape1 freqs) C wts)
    as (oc & Hoc & Hlenc & Hrowsc & Hec); [by rewrite HC|].
  fold S C. rewrite Hos; cbn [bind]. rewrite Hoc; cbn [bind]. eexists. split; [done|].
  rewrite normalize_columns_app. split_and!.
  - rewrite length_app, !normalize_columns_length. lia.
  - rewrite <- (length_fmap vsum wts).
    apply Forall_app; split; apply normalize_columns_rows; by rewrite length_fmap.
  - intros k i w Hk Hi. split.
    + rewrite lookup_app_l by (rewrite normalize_columns_length; lia).
      rewrite (Hes k i w Hk Hi). subst S angles. by rewrite column_of_angles.
    + rewrite lookup_app_r by (rewrite normalize_columns_length; lia).
      rewrite normalize_columns_length, Hlens.
      replace (shape1 freqs + k - shape1 freqs)%nat with k by lia.
      rewrite (Hec k i w Hk Hi). subst C angles. by rewrite column_of_angles.
Qed.


(** C8: for an [n x f] matrix, [q x n] weights and [f x D] frequencies,
    [rff_embedding] returns a [2D x q] matrix; row [k < D] holds, for each
    query, the weighted mean of the sines of column [k] of
    [features . frequencies] and row [D + k] that of the cosines; a query
    whose non-negative weights sum to zero has zeros there. *)
Theorem rff_embedding_layout feats wts freqs :
  Forall (fun row => length row = length freqs) feats ->
  Forall (fun w => length w = length feats) wts ->
  exists out,
    rff_embedding feats wts freqs = Ok out
    /\ length out = (2 * shape1 freqs)%nat
    /\ Forall (fun row => length row = length wts) out
    /\ forall i w k, wts !! i = Some w -> (k < shape1 freqs)%nat ->
         let angles := angles_column feats freqs k in
         let first_half := (out !! k) ≫= (fun row => row !! i) in
         let second_half := (out !! (shape1 freqs + k)%nat) ≫= (fun row => row !! i) in
         (vsum w <> 0 ->
            first_half = Some (weighted_mean (sin <$> angles) w)
            /\ second_half = Some (weighted_mean (cos <$> angles) w))
         /\ (vsum w = 0 -> Forall (fun x => 0 <= x) w ->
              first_half = Some 0 /\ second_half = Some 0).
Proof.
  intros Hfeats Hwts.
  destruct (rff_embedding_entry feats wts freqs Hfeats Hwts)
    as (out & Hout & Hlen & Hrows & He).
  exists out. split_and!; [done..|].
  intros i w k Hi Hk angles first_half second_half.
  destruct (He k i w Hk Hi) as [Hs Hc]. subst first_half second_half angles.
  rewrite Hs, Hc. split.
  - intros Hnz. by rewrite !guarded_div_nonzero.
  - intros Hzero Hnonneg. rewrite Hzero, !guarded_div_zero.
    by rewrite !dot_zero_weights by by apply vsum_nonneg_zero.
Qed.

End Embeddings.

(** Two records, two queries and three frequencies: six rows of two
    entries. *)
Lemma rff_embedding_layout_witness :
  let feats := [[1; 0]; [0; 1]]%R in
  let wts := [[2; 2]; [0; 0]]%R in
  let freqs := [[0; 1; 2]; [1; 0; 3]]%R in
  Forall (fun row => length row = length freqs) feats
  /\ Forall (fun w => length w = length feats) wts
  /\ exists out,
       rff_embedding feats wts freqs = Ok out
       /\ length out = 6
       /\ Forall (fun row => length row = 2) out
       /\ forall i w k, wts !! i = Some w -> (k < 3)%nat ->
            let angles := angles_column feats freqs k in
            let first_half := (out !! k) ≫= (fun row => row !! i) in
            let second_half := (out !! (3 + k)%nat) ≫= (fun row => row !! i) in
            (vsum w <> 0%R ->
               first_half = Some (weighted_mean (sin <$> angles) w)
               /\ second_half = Some (weighted_mean (cos <$> angles) w))
            /\ (vsum w = 0%R -> Forall (fun x => 0 <= x)%R w ->
                 first_half = Some 0%R /\ second_half = Some 0%R).
Proof.
  intros feats wts freqs.
  assert (Forall (fun row => length row = length freqs) feats) as H1 by compute_done.
  assert (Forall (fun w => length w = length feats) wts) as H2 by compute_done.
  split; [exact H1|]. split; [exact H2|].
  exact (rff_embedding_layout feats wts freqs H1 H2).
Defined.

(** ** Embedding primitives, in binary64 *)

Section Binary64.

Implicit Types (x y : float) (l xs w : list float) (feats wts : list (list float)).

Lemma fzero_spec x : fzero x <-> exists s, Prim2SF x = S754_zero s.
Proof.
  unfold fzero, is_zero. rewrite FloatAxioms.eqb_spec.
  change (Prim2SF PrimFloat.zero) with (S754_zero false).
  destruct (Prim2SF x) as [s|s| |s m e]; simpl;
    (split; [intros H|intros [s' H]]); try done; eauto; by destruct s.
Qed.


Lemma fzero_finite x : fzero x -> ffinite x.
Proof.
  intros [s Hs]%fzero_spec. unfold ffinite, is_finite, is_nan, is_infinity.
  rewrite !FloatAxioms.eqb_spec, FloatAxioms.abs_spec, Hs. done.
Qed.








End Binary64.




(** ** Bandwidth selector, in exact arithmetic *)

Section Bandwidth.
Local Open Scope R_scope.

Implicit Types (X : list (list R)) (x y : list R).

Lemma sq_dist_nonneg x y : 0 <= sq_dist x y.
Proof.
  unfold sq_dist. apply vsum_nonneg.
  revert y. induction x as [|a x IH]; intros [|b y]; simpl; try constructor.
  - apply (Rle_0_sqr (a - b)).
  - apply IH.
Qed.

Lemma sq_dist_expand x y :
  length x = length y ->
  ((0 - (1 + 1)) * dot x y + dot x x) + dot y y = sq_dist x y.
Proof.
  revert y. induction x as [|a x IH]; intros [|b y] Hlen; try done.
  - unfold sq_dist, dot, vsum; simpl; lra.
  - injection Hlen as Hlen. specialize (IH y Hlen). unfold sq_dist in *.
    cbn [zip_with]. rewrite !dot_cons, vsum_cons. lra.
Qed.

Lemma euclidean_distances_entry X i j x y :
  X !! i = Some x -> X !! j = Some y -> length x = length y ->
  default 0 (default [] (euclidean_distances X !! i) !! j)
  = if decide (i = j) then 0 else sq_dist x y.
Proof.
  intros Hi Hj Hlen. unfold euclidean_distances.
  rewrite list_lookup_imap, Hi; simpl. rewrite list_lookup_imap, Hj; simpl.
  case_decide; [done|].
  change two with (1 + 1). rewrite (sq_dist_expand x y Hlen).
  pose proof (sq_dist_nonneg x y). destruct (Rle_dec (sq_dist x y) 0); [lra|done].
Qed.

Lemma fmap_list_bind {T U V} (h : U -> V) (g : T -> list U) (l : list T) :
  h <$> (l ≫= g) = l ≫= (fun i => h <$> g i).
Proof.
  induction l as [|i l IH]; [done|]. by rewrite !bind_cons, fmap_app, IH.
Qed.

Lemma list_bind_ext_in {T U} (g1 g2 : T -> list U) (l : list T) :
  (forall i, i ∈ l -> g1 i = g2 i) -> l ≫= g1 = l ≫= g2.
Proof.
  induction l as [|i l IH]; intros H; [done|]. rewrite !bind_cons.
  rewrite H by left. f_equal. apply IH. intros j Hj. apply H. by right.
Qed.

Lemma triu_indices_S n :
  triu_indices (S n) 1
  = ((fun j => (0%nat, S j)) <$> seq 0 n)
    ++ ((fun ij => (S ij.1, S ij.2)) <$> triu_indices n 1).
Proof.
  unfold triu_indices. cbn [seq]. rewrite bind_cons. f_equal.
  - simpl. rewrite Nat.sub_0_r, <- fmap_S_seq, <- list_fmap_compose. done.
  - rewrite <- fmap_S_seq, list_fmap_bind, fmap_list_bind.
    apply list_bind_ext_in. intros i _. simpl.
    rewrite <- (fmap_S_seq (i + 1)), <- !list_fmap_compose. done.
Qed.

(** The distance the selector reads at an index pair. *)
Definition pair_at X (ij : nat * nat) : R :=
  match X !! ij.1, X !! ij.2 with
  | Some x, Some y => sq_dist x y
  | _, _ => 0
  end.

Lemma pair_at_triu X :
  pair_at X <$> triu_indices (length X) 1 = upper_sq_dists X.
Proof.
  unfold upper_sq_dists. induction X as [|x X IH]; [done|].
  cbn [length upper_pairs]. rewrite triu_indices_S, !fmap_app. f_equal.
  - rewrite <- !list_fmap_compose.
    apply list_eq. intros j. rewrite !list_lookup_fmap.
    destruct (X !! j) as [y|] eqn:Hy; simpl.
    + rewrite lookup_seq_lt by by eapply lookup_lt_Some. simpl.
      unfold pair_at; simpl. by rewrite Hy.
    + rewrite lookup_seq_ge; [done|]. by apply lookup_ge_None.
  - rewrite <- IH, <- list_fmap_compose. by apply list_fmap_ext.
Qed.

Lemma triu_indices_lt n i j :
  (i, j) ∈ triu_indices n 1 -> (i < j < n)%nat.
Proof.
  unfold triu_indices. rewrite list_elem_of_bind.
  intros (i' & Hij & Hi'). apply list_elem_of_fmap in Hij as (j' & ? & Hj'). simplify_eq.
  apply elem_of_seq in Hi', Hj'. lia.
Qed.

Lemma take_pairs_upper X (f : nat) :
  Forall (fun row => length row = f) X ->
  take_pairs (euclidean_distances X) (triu_indices (length (euclidean_distances X)) 1)
  = upper_sq_dists X.
Proof.
  intros Hrows. rewrite <- pair_at_triu. unfold take_pairs, euclidean_distances at 2.
  rewrite length_imap. apply list_fmap_ext. intros idx [i j] Hij. simpl.
  apply list_elem_of_lookup_2, triu_indices_lt in Hij.
  destruct (lookup_lt_is_Some_2 X i) as [x Hx]; [lia|].
  destruct (lookup_lt_is_Some_2 X j) as [y Hy]; [lia|].
  rewrite (euclidean_distances_entry X i j x y Hx Hy).
  - rewrite decide_False by lia. unfold pair_at; simpl. by rewrite Hx, Hy.
  - rewrite (Forall_lookup_1 _ _ _ _ Hrows Hx). by rewrite (Forall_lookup_1 _ _ _ _ Hrows Hy).
Qed.

Variable VERSIONS : gmap string SchemaInfo.


End Bandwidth.


(** ** Counting the subset queries *)

Section Subsets.

Implicit Types (s t : list ascii).

















End Subsets.

(** ** Stream aggregator: row selection and shapes *)

Section Aggregator.
Context {A : Type} {NumA : Num A} {TrigA : Trig A}.
Variable VERSIONS : gmap string SchemaInfo.
Variable pick_rff_freqs : nat -> A -> option Z -> nat -> bool -> list (list A).
Variable parse_query : string -> result (list (Row (A := A) -> bool)).

Implicit Types (c : list (Row (A := A))) (preds : list (Row (A := A) -> bool)).
Implicit Types (stats : Stats (A := A)) (skip : gset string).

(** A record is selected when some query holds of it. *)
Definition selected preds (r : Row (A := A)) : Prop := existsb (fun p => p r) preds.

Lemma compress_fmap {T U} (f : T -> bool) (g : T -> U) (l : list T) :
  compress (f <$> l) (g <$> l) = g <$> filter (fun x => f x) l.
Proof.
  induction l as [|x l IH]; [done|]. cbn [fmap list_fmap compress].
  fold (f <$> l) (g <$> l). rewrite IH.
  destruct (f x) eqn:E.
  - rewrite filter_cons_True; [done|]. rewrite E. exact I.
  - rewrite filter_cons_False; [done|]. rewrite E. intros [].
Qed.

Lemma compress_fmap_id {T} (f : T -> bool) (l : list T) :
  compress (f <$> l) l = filter (fun x => f x) l.
Proof.
  induction l as [|x l IH]; [done|]. cbn [fmap list_fmap compress].
  fold (f <$> l). rewrite IH.
  destruct (f x) eqn:E.
  - rewrite filter_cons_True; [done|]. rewrite E. exact I.
  - rewrite filter_cons_False; [done|]. rewrite E. intros [].
Qed.

Lemma existsb_eval preds c j r :
  c !! j = Some r ->
  existsb (fun w : list bool => default false (w !! j)) ((fun p => p <$> c) <$> preds)
  = existsb (fun p => p r) preds.
Proof.
  intros Hr. induction preds as [|p preds IH]; [done|].
  rewrite fmap_cons. cbn [existsb]. by rewrite IH, list_lookup_fmap, Hr.
Qed.

Lemma any_axis0_eval preds c :
  any_axis0 (length c) (eval_queries preds c) = (fun r => existsb (fun p => p r) preds) <$> c.
Proof.
  unfold any_axis0, eval_queries. apply list_eq. intros j.
  rewrite !list_lookup_fmap. destruct (c !! j) as [r|] eqn:Hr; simpl.
  - rewrite lookup_seq_lt by by eapply lookup_lt_Some. simpl. f_equal.
    by apply existsb_eval.
  - rewrite lookup_seq_ge; [done|]. by apply lookup_ge_None.
Qed.

(** The one-record workaround changes nothing: the chunk is evaluated as
    it is. *)
Lemma hacked_chunk preds c :
  let hacked := bool_decide (length c = 1) in
  let c2 := if hacked then c ++ c else c in
  ((if hacked then take 1 c2 else c2) = c)
  /\ (if hacked then take 1 <$> eval_queries preds c2 else eval_queries preds c2)
     = eval_queries preds c.
Proof.
  simpl. case_bool_decide as Hc; [|done].
  destruct c as [|r [|]]; simplify_eq/=. split; [done|].
  unfold eval_queries. rewrite <- list_fmap_compose. done.
Qed.

Lemma select_rows_filter subsets preds c :
  parse_query subsets = Ok preds ->
  select_rows parse_query subsets c
  = Ok (filter (selected preds) c, (fun p => p <$> filter (selected preds) c) <$> preds).
Proof.
  intros Hparse. unfold select_rows. rewrite Hparse. cbn [bind].
  destruct (hacked_chunk preds c) as [-> ->].
  rewrite any_axis0_eval, compress_fmap_id. do 2 f_equal.
  unfold eval_queries. rewrite <- list_fmap_compose.
  apply list_fmap_ext. intros _ p _. simpl. apply compress_fmap.
Qed.

(** *** Shapes *)

Lemma add_scaled_rows emb piece rs emb' q :
  add_scaled emb piece rs = Ok emb' ->
  Forall (fun row => length row = q) emb ->
  length emb' = length emb /\ Forall (fun row => length row = q) emb'.
Proof.
  unfold add_scaled. case_bool_decide as Hshape; [|done].
  intros ? Hq; simplify_eq. destruct Hshape as (Hlen & Hpiece & Hemb). split.
  - rewrite length_zip_with. lia.
  - apply Forall_lookup_2. intros i row Hi.
    apply lookup_zip_with_Some in Hi as (erow & prow & -> & He & Hp).
    rewrite !length_zip_with.
    pose proof (Forall_lookup_1 _ _ _ _ Hq He) as H1.
    pose proof (Forall_lookup_1 _ _ _ _ Hemb He) as H2.
    pose proof (Forall_lookup_1 _ _ _ _ Hpiece Hp) as H3.
    simpl in *. lia.
Qed.

Lemma combine_rows ratios pieces emb emb' q :
  combine emb ratios pieces = Ok emb' ->
  Forall (fun row => length row = q) emb ->
  length emb' = length emb /\ Forall (fun row => length row = q) emb'.
Proof.
  revert pieces emb. induction ratios as [|rs ratios IH]; intros pieces emb H Hq.
  - simpl in H. by simplify_eq.
  - destruct pieces as [|p pieces]; simpl in H; [by simplify_eq|].
    apply bind_Ok in H as (emb1 & H1 & H).
    destruct (add_scaled_rows _ _ _ _ _ H1 Hq) as [Hl1 Hq1].
    destruct (IH _ _ H Hq1) as [Hl Hq']. split; [lia|done].
Qed.

Lemma zeros_rows rows cols :
  length (zeros (A := A) rows cols) = rows
  /\ Forall (fun row => length row = cols) (zeros (A := A) rows cols).
Proof.
  unfold zeros. split; [by rewrite length_replicate|].
  apply Forall_replicate. by rewrite length_replicate.
Qed.







End Aggregator.

(** ** Stream aggregator: what is returned *)

Section Returned.
Context {A : Type} {NumA : Num A} {TrigA : Trig A}.
Variable VERSIONS : gmap string SchemaInfo.
Variable pick_rff_freqs : nat -> A -> option Z -> nat -> bool -> list (list A).
Variable parse_query : string -> result (list (Row (A := A) -> bool)).




End Returned.




(** ** The default subset *)

Section DefaultSubset.
Variable VERSIONS : gmap string SchemaInfo.
Variable pick_rff_freqs : nat -> R -> option Z -> nat -> bool -> list (list R).
Variable parse_query : string -> result (list (Row (A := R) -> bool)).


End DefaultSubset.


(** ** Chunks: tabulated arrays *)

Section Tabulated.
Local Open Scope R_scope.

(** The [d x n] array with entries [F j i], and the vector with entries
    [f i]. *)
Definition tab (d n : nat) (F : nat -> nat -> R) : list (list R) :=
  (fun j => (fun i => F j i) <$> seq 0 n) <$> seq 0 d.

Definition vtab (n : nat) (f : nat -> R) : list R := f <$> seq 0 n.

Lemma vtab_ext n f g : (forall i, (i < n)%nat -> f i = g i) -> vtab n f = vtab n g.
Proof.
  intros H. apply list_fmap_ext. intros k i Hi.
  apply list_elem_of_lookup_2, elem_of_seq in Hi. apply H. lia.
Qed.

Lemma tab_ext d n F G :
  (forall j i, (j < d)%nat -> (i < n)%nat -> F j i = G j i) -> tab d n F = tab d n G.
Proof.
  intros H. apply list_fmap_ext. intros k j Hj.
  apply list_elem_of_lookup_2, elem_of_seq in Hj. apply vtab_ext. intros i Hi.
  apply H; lia.
Qed.

Lemma length_vtab n f : length (vtab n f) = n.
Proof. unfold vtab. by rewrite length_fmap, length_seq. Qed.

Lemma length_tab d n F : length (tab d n F) = d.
Proof. unfold tab. by rewrite length_fmap, length_seq. Qed.

Lemma tab_rows d n F : Forall (fun row => length row = n) (tab d n F).
Proof.
  unfold tab. apply Forall_fmap, Forall_forall. intros j _. apply length_vtab.
Qed.

Lemma zip_with_tabulated {T U V W} (h : U -> V -> W) (f : T -> U) (g : T -> V) (l : list T) :
  zip_with h (f <$> l) (g <$> l) = (fun x => h (f x) (g x)) <$> l.
Proof. induction l as [|x l IH]; [done|]. csimpl. by rewrite IH. Qed.

Lemma zeros_tab d n : zeros (A := R) d n = tab d n (fun _ _ => 0).
Proof.
  unfold zeros, tab.
  assert (forall (T : Type) (x : T) k m, replicate k x = (fun _ => x) <$> seq m k) as Hrep.
  { intros T x k. induction k as [|k IH]; intros m; [done|]. simpl. by rewrite <- IH. }
  by rewrite <- (Hrep _ _ n 0%nat), <- (Hrep _ _ d 0%nat).
Qed.

Lemma add_scaled_tab d n E P rho :
  add_scaled (tab d n E) (tab d n P) (vtab n rho)
  = Ok (tab d n (fun j i => E j i + P j i * rho i)).
Proof.
  unfold add_scaled. rewrite bool_decide_true.
  - f_equal. unfold tab. rewrite zip_with_tabulated. apply list_fmap_ext. intros _ j _.
    unfold vtab. by rewrite !zip_with_tabulated.
  - rewrite !length_tab, length_vtab. split_and!; [done|apply tab_rows..].
Qed.

Lemma combine_tab {T} d n (rho : T -> nat -> R) (P : T -> nat -> nat -> R) ts E0 :
  combine (tab d n E0) ((fun t => vtab n (rho t)) <$> ts) ((fun t => tab d n (P t)) <$> ts)
  = Ok (tab d n (fun j i => foldl (fun a t => a + P t j i * rho t i) (E0 j i) ts)).
Proof.
  revert E0. induction ts as [|t ts IH]; intros E0; [done|].
  rewrite !fmap_cons. cbn [combine]. rewrite add_scaled_tab. cbn [bind].
  by rewrite IH.
Qed.

(** *** The ratio-weighted sum, entry by entry *)

(** Chunks as pairs of a weighted sum and a weight sum. *)
Definition chunk_sum (l : list (R * R)) : R := vsum (l.*1).
Definition chunk_weight (l : list (R * R)) : R := vsum (l.*2).

Lemma foldl_weights (l : list (R * R)) a :
  foldl (fun acc sw => acc + sw.2) a l = a + chunk_weight l.
Proof.
  unfold chunk_weight. revert a. induction l as [|sw l IH]; intros a.
  - unfold vsum; simpl; lra.
  - rewrite fmap_cons, vsum_cons. cbn [foldl]. rewrite IH. lra.
Qed.

(** The sum of the chunk means, each weighted by the chunk's share of the
    total weight, is the mean over all chunks. *)
Lemma ratio_weighted_sum (l : list (R * R)) (total : R) :
  Forall (fun sw => 0 <= sw.2 /\ (sw.2 = 0 -> sw.1 = 0)) l ->
  total = chunk_weight l ->
  foldl (fun acc sw => acc + guarded_div sw.1 sw.2 * guarded_div sw.2 total) 0 l
  = guarded_div (chunk_sum l) total * guarded_div total total.
Proof.
  intros Hl Htotal.
  assert (forall a, foldl (fun acc sw => acc + guarded_div sw.1 sw.2 * guarded_div sw.2 total) a l
                    = a + (if Req_dec_T total 0 then 0 else chunk_sum l / total)) as Hfold.
  { assert (Forall (fun sw => sw.2 = 0) l \/ total <> 0) as Hcase.
    { destruct (Req_dec_T total 0) as [Hz|Hnz]; [left|by right].
      rewrite Htotal in Hz. unfold chunk_weight in Hz.
      apply vsum_nonneg_zero in Hz.
      - apply Forall_fmap in Hz. eapply Forall_impl; [exact Hz|]. done.
      - apply Forall_fmap. eapply Forall_impl; [exact Hl|]. by intros sw [? _]. }
    clear Htotal. unfold chunk_sum.
    induction Hl as [|[s w] l [Hw Hs] Hl IH]; intros a.
    - unfold vsum; simpl. destruct (Req_dec_T total 0); lra.
    - rewrite fmap_cons, vsum_cons. cbn [foldl fst snd] in *. rewrite IH.
      2:{ destruct Hcase as [Hz|?]; [left; by inversion Hz|by right]. }
      destruct (Req_dec_T total 0) as [Hz|Hnz].
      + destruct Hcase as [Hall|?]; [|done].
        inversion Hall as [|? ? Hw0 _]; simpl in Hw0; subst w.
        rewrite Hs by done. rewrite guarded_div_zero. lra.
      + rewrite (guarded_div_nonzero w total Hnz).
        destruct (Req_dec_T w 0) as [->|Hwnz].
        * rewrite Hs by done. rewrite guarded_div_zero. lra.
        * rewrite (guarded_div_nonzero s w Hwnz). field. done. }
  rewrite Hfold. destruct (Req_dec_T total 0) as [->|Hnz].
  - rewrite !guarded_div_zero.
    assert (chunk_sum l = 0) as ->; [|lra].
    unfold chunk_sum. symmetry in Htotal. unfold chunk_weight in Htotal.
    apply vsum_nonneg_zero in Htotal.
    + clear Hfold. induction Hl as [|[s w] l [Hw Hs] Hl IH]; [done|].
      rewrite fmap_cons, vsum_cons. inversion Htotal; simplify_eq/=.
      rewrite Hs, IH by done. lra.
    + apply Forall_fmap. eapply Forall_impl; [exact Hl|]. by intros sw [? _].
  - rewrite !guarded_div_nonzero by done. field. done.
Qed.

End Tabulated.

(** ** The encoder works record by record *)

Section EncoderRows.
Context {A : Type} {NumA : Num A}.
Variable VERSIONS : gmap string SchemaInfo.

Implicit Types (stats : Stats (A := A)) (df da db : list (Row (A := A))) (skip : gset string).

Lemma mapR_app_Ok {T U} (f : T -> result U) l1 l2 y :
  mapR f (l1 ++ l2) = Ok y ->
  exists y1 y2, mapR f l1 = Ok y1 /\ mapR f l2 = Ok y2 /\ y = y1 ++ y2.
Proof.
  rewrite mapR_app. intros H.
  apply bind_Ok in H as (y1 & H1 & H). apply bind_Ok in H as (y2 & H2 & H).
  simplify_eq. eauto.
Qed.

Lemma encode_reals_app da db stats nf fs m :
  encode_reals (da ++ db) stats nf fs = Ok m ->
  exists m1 m2,
    m = m1 ++ m2 /\ encode_reals da stats nf fs = Ok m1 /\ encode_reals db stats nf fs = Ok m2.
Proof.
  unfold encode_reals, select_reals. intros H.
  apply bind_Ok in H as (x & Hx & H). case_bool_decide as Hfit; [|done].
  apply bind_Ok in H as (means & Hmeans & H). apply bind_Ok in H as (stds & Hstds & H).
  apply mapR_app_Ok in Hx as (x1 & x2 & Hx1 & Hx2 & ->).
  rewrite Hx1, Hx2. cbn [bind]. rewrite ?bool_decide_true by done.
  rewrite Hmeans, Hstds. cbn [bind]. simplify_eq. rewrite fmap_app. eauto.
Qed.

(** The encoder state of two batches written one under the other. *)
Definition stack (st1 st2 : EncState (A := A)) : EncState (A := A) :=
  {| start_col := st1.(start_col);
     filled := st1.(filled) ++ st2.(filled);
     feat_names := st1.(feat_names) |}.

Definition aligned (st1 st2 : EncState (A := A)) : Prop :=
  st1.(start_col) = st2.(start_col) /\ st1.(feat_names) = st2.(feat_names).

Lemma encode_feature_app da db stats nf skip st1 st2 k st :
  well_filled da st1 -> aligned st1 st2 ->
  encode_feature (da ++ db) stats nf skip (stack st1 st2) k = Ok st ->
  exists st1' st2',
    encode_feature da stats nf skip st1 k = Ok st1'
    /\ encode_feature db stats nf skip st2 k = Ok st2'
    /\ st = stack st1' st2' /\ aligned st1' st2'.
Proof.
  intros [Hlen1 _] [Hcol Hnames]. rewrite !encode_feature_unfold.
  case_bool_decide as Hk.
  { intros ?; simplify_eq. exists st1, st2. split_and!; [done..|by split]. }
  intros H. apply bind_Ok in H as (vc & Hvc & H).
  apply bind_Ok in H as (vals & Hvals & H). apply bind_Ok in H as (c & Hc & H).
  case_bool_decide as Hfit; [|done].
  apply bind_Ok in H as (bit & Hbit & H). simpl in Hfit.
  rewrite Hvc. cbn [bind].
  unfold select_cat in *. apply mapR_app_Ok in Hvals as (v1 & v2 & Hv1 & Hv2 & ->).
  rewrite Hv1, Hv2. cbn [bind].
  unfold categorical_codes in *. case_bool_decide; [|done]. simplify_eq. cbn [bind].
  rewrite <- Hcol. rewrite !bool_decide_true by done.
  assert (codes_of stats vc (code_of vc.*1 <$> v1 ++ v2)
          = codes_of stats vc (code_of vc.*1 <$> v1) ++ codes_of stats vc (code_of vc.*1 <$> v2))
    as Hcodes.
  { unfold codes_of. destruct (has_overflow _ _); by rewrite !fmap_app. }
  rewrite Hcodes in Hbit. apply mapR_app_Ok in Hbit as (b1 & b2 & Hb1 & Hb2 & ->).
  rewrite Hb1, Hb2. cbn [bind]. do 2 eexists. split; [done|]. split; [done|].
  unfold stack, aligned; simpl. split; [|by rewrite Hnames].
  f_equal. apply zip_with_app.
  rewrite (mapR_Ok_length _ _ _ Hb1), codes_of_length, length_fmap.
  by rewrite (mapR_Ok_length _ _ _ Hv1).
Qed.

Lemma encode_features_app da db stats nf skip ks st1 st2 st :
  well_filled da st1 -> aligned st1 st2 ->
  encode_features (da ++ db) stats nf skip (stack st1 st2) ks = Ok st ->
  exists st1' st2',
    encode_features da stats nf skip st1 ks = Ok st1'
    /\ encode_features db stats nf skip st2 ks = Ok st2'
    /\ st = stack st1' st2' /\ aligned st1' st2'.
Proof.
  revert st1 st2. induction ks as [|k ks IH]; intros st1 st2 Hw Hal H; simpl in *.
  - simplify_eq. exists st1, st2. by split_and!.
  - apply bind_Ok in H as (st' & Hst' & H).
    destruct (encode_feature_app _ _ _ _ _ _ _ _ _ Hw Hal Hst')
      as (sa & sb & Ha & Hb & -> & Hal').
    rewrite Ha, Hb. cbn [bind]. apply (IH sa sb); [|done..].
    by eapply encode_feature_Ok.
Qed.

(** Encoding two batches at once stacks their encodings. *)
Lemma get_dummies_app da db stats nf ret_df skip m names :
  get_dummies VERSIONS (da ++ db) stats (Some nf) ret_df skip (Some (length (da ++ db), nf))
  = Ok (m, names) ->
  exists m1 m2,
    m = m1 ++ m2 /\ length m1 = length da
    /\ get_dummies VERSIONS da stats (Some nf) ret_df skip (Some (length da, nf)) = Ok (m1, names)
    /\ get_dummies VERSIONS db stats (Some nf) ret_df skip (Some (length db, nf)) = Ok (m2, names).
Proof.
  unfold get_dummies. intros H. apply bind_Ok in H as (info & Hinfo & H).
  rewrite Hinfo. cbn [bind default] in *. change (Datatypes.id nf) with nf in *.
  rewrite !bool_decide_true in * by done.
  apply bind_Ok in H as (x & Hx & H). apply bind_Ok in H as (st & Hst & H).
  case_bool_decide as Hcur; [|done].
  apply encode_reals_app in Hx as (x1 & x2 & -> & Hx1 & Hx2).
  rewrite Hx1, Hx2. cbn [bind].
  remember (filter (fun f => f ∉ skip) (real_feats info)) as kept eqn:Hkept.
  pose (s1 := {| start_col := length kept; filled := x1; feat_names := kept |}).
  pose (s2 := {| start_col := length kept; filled := x2; feat_names := kept |}).
  change {| start_col := length kept; filled := x1 ++ x2; feat_names := kept |}
    with (stack s1 s2) in Hst.
  pose proof (encode_features_Ok _ _ _ _ _ _ _ Hst) as [Hc _].
  change (start_col (stack s1 s2)) with (length kept) in Hc.
  assert (well_filled da s1) as Hw1.
  { destruct (encode_reals_Ok _ _ _ _ _ Hx1) as [Hl Hr]. split; [done|].
    change (start_col s1) with (length kept). change (filled s1) with x1.
    eapply Forall_impl; [exact Hr|]. intros row Hrow. simpl in Hrow. lia. }
  destruct (encode_features_app da db stats nf skip _ s1 s2 st Hw1
              (conj eq_refl eq_refl) Hst)
    as (sa & sb & Ha & Hb & -> & [Hcol Hnm]).
  fold s1 s2. rewrite Ha, Hb. cbn [bind]. simpl in Hcur.
  rewrite <- Hcol, <- Hnm. rewrite !bool_decide_true by done.
  injection H as <- <-. exists (filled sa), (filled sb).
  split; [done|]. split; [|done].
  destruct (encode_features_Ok _ _ _ _ _ _ _ Ha) as [_ Hw]. by destruct (Hw Hw1).
Qed.

(** The feature names do not depend on the batch, and asking for them
    does not change the matrix. *)
Lemma get_dummies_names df stats nf ret_df skip out m names :
  get_dummies VERSIONS df stats nf ret_df skip out = Ok (m, names) ->
  exists nms,
    names = (if ret_df then Some nms else None)
    /\ forall ret_df',
         get_dummies VERSIONS df stats nf ret_df' skip out
         = Ok (m, if ret_df' then Some nms else None).
Proof.
  unfold get_dummies. intros H. apply bind_Ok in H as (info & Hinfo & H).
  rewrite Hinfo. cbn [bind]. case_bool_decide; [|done].
  apply bind_Ok in H as (x & Hx & H). apply bind_Ok in H as (st & Hst & H).
  rewrite Hx. cbn [bind]. rewrite Hst. cbn [bind].
  case_bool_decide; [|done]. injection H as <- <-. eauto.
Qed.

End EncoderRows.

(** ** Chunks: one file, chunk by chunk *)

Section Chunks.
Local Open Scope R_scope.
Variable VERSIONS : gmap string SchemaInfo.
Variable parse_query : string -> result (list (Row (A := R) -> bool)).
Variables (stats : Stats (A := R)) (skip : gset string).
Variables (n_feats n_freqs n : nat) (subsets : string) (skip_rbf : bool).
Variable freqs : list (list R).
Variable preds : list (Row (A := R) -> bool).
Hypothesis Hparse : parse_query subsets = Ok preds.

Implicit Types (K c : list (Row (A := R))) (E : list (list R)).
Implicit Types (st : FileState (A := R)).

(** The weight of a record under query [i]. *)
Definition qw (i : nat) (r : Row (A := R)) : R :=
  match preds !! i with
  | Some p => if (p r : bool) then r.(PWGTP) else 0
  | None => r.(PWGTP)
  end.

Definition qweights K : list (list R) := (fun i => qw i <$> K) <$> seq 0 n.

(** The weight sum of query [i] over the records [K]. *)
Definition den K (i : nat) : R := vsum (qw i <$> K).

Lemma query_weights_kept K :
  (length preds <= n)%nat ->
  query_weights n K ((fun p => p <$> K) <$> preds) = Ok (qweights K).
Proof.
  intros Hn. unfold query_weights. rewrite bool_decide_true by by rewrite length_fmap.
  f_equal. apply list_eq. intros i. unfold qweights.
  rewrite list_lookup_imap, (list_lookup_fmap _ (seq 0 n)).
  destruct (decide (i < n)%nat) as [Hi|Hi].
  - rewrite lookup_replicate_2, lookup_seq_lt by done. simpl. f_equal.
    rewrite list_lookup_fmap. unfold qw.
    destruct (preds !! i) as [p|]; simpl; [|done].
    by rewrite zip_with_tabulated.
  - rewrite lookup_seq_ge by lia.
    assert (replicate n (PWGTP <$> K) !! i = None) as ->; [|done].
    apply lookup_replicate_None. lia.
Qed.

Lemma vsum_qweights K : vsum <$> qweights K = vtab n (den K).
Proof. unfold qweights, vtab. by rewrite <- list_fmap_compose. Qed.

Lemma qweights_rows K m :
  m = length K -> Forall (fun w => length w = m) (qweights K).
Proof.
  intros ->. apply Forall_fmap, Forall_forall. intros i _. simpl. by rewrite length_fmap.
Qed.

(** *** Pieces *)

(** The embedding of the records [K], whose features have the columns
    [col j E]. *)
Definition piece (col : nat -> list (list R) -> list R) (d : nat) E K : list (list R) :=
  tab d n (fun j i => guarded_div (dot (col j E) (qw i <$> K)) (den K i)).

(** Column [k] of the sines and cosines of the projected rows. *)
Definition rff_column (k : nat) E : list R :=
  if decide (k < shape1 freqs)%nat then sin <$> angles_column E freqs k
  else cos <$> angles_column E freqs (k - shape1 freqs).

Lemma weighted_columns_tab ncols (a : list (list R)) K :
  length a = length K ->
  bind (dot_T ncols a (qweights K))
       (fun w => Ok (normalize_columns w (vsum <$> qweights K)))
  = Ok (piece column ncols a K).
Proof.
  intros Hlen. unfold dot_T. rewrite bool_decide_true by by apply qweights_rows.
  cbn [bind]. f_equal. unfold normalize_columns, piece, tab.
  rewrite <- list_fmap_compose. apply list_fmap_ext. intros _ j _. simpl.
  rewrite zip_with_tabulated. unfold qweights. rewrite <- list_fmap_compose. done.
Qed.

Lemma linear_embedding_kept E K :
  length E = length K -> shape1 E = n_feats ->
  linear_embedding E (qweights K) = Ok (piece column n_feats E K).
Proof.
  intros Hlen <-. unfold linear_embedding.
  pose proof (weighted_columns_tab (shape1 E) E K Hlen) as H.
  destruct (dot_T (shape1 E) E (qweights K)); [done|done].
Qed.

Lemma tab_app d m F G :
  tab d m F ++ tab d m G
  = tab (2 * d) m (fun k i => if decide (k < d)%nat then F k i else G (k - d)%nat i).
Proof.
  unfold tab. replace (2 * d)%nat with (d + d)%nat by lia.
  rewrite seq_app, fmap_app. f_equal.
  - apply list_fmap_ext. intros idx k Hk.
    apply list_elem_of_lookup_2, elem_of_seq in Hk.
    apply vtab_ext. intros i _. by rewrite decide_True by lia.
  - replace (0 + d)%nat with (d + 0)%nat by lia.
    rewrite <- (fmap_add_seq d 0), <- list_fmap_compose.
    apply list_fmap_ext. intros idx k Hk. simpl.
    apply vtab_ext. intros i _. rewrite decide_False by lia. do 2 f_equal. lia.
Qed.

Lemma rff_embedding_kept E K :
  length E = length K ->
  Forall (fun row => length row = length freqs) E ->
  rff_embedding E (qweights K) freqs = Ok (piece rff_column (2 * shape1 freqs) E K).
Proof.
  intros Hlen Hfreqs. unfold rff_embedding, matmul.
  rewrite bool_decide_true by done. cbn [bind].
  set (angles := (fun row => (fun j => dot row (column j freqs)) <$> seq 0 (shape1 freqs))
                 <$> E).
  set (S := (fun row : list R => sin <$> row) <$> angles).
  set (C := (fun row : list R => cos <$> row) <$> angles).
  assert (length S = length K) as HS by (subst S angles; by rewrite !length_fmap).
  assert (length C = length K) as HC by (subst C angles; by rewrite !length_fmap).
  unfold dot_T. rewrite !bool_decide_true by (apply qweights_rows; congruence).
  cbn [bind]. f_equal. rewrite normalize_columns_app.
  pose proof (weighted_columns_tab (shape1 freqs) S K HS) as H1.
  pose proof (weighted_columns_tab (shape1 freqs) C K HC) as H2.
  unfold dot_T in H1, H2.
  rewrite !bool_decide_true in H1, H2 by (apply qweights_rows; congruence).
  cbn [bind] in H1, H2. injection H1 as ->. injection H2 as ->.
  unfold piece. rewrite tab_app. apply tab_ext. intros k i Hk Hi.
  unfold rff_column. case_decide as Hlt.
  - subst S angles. by rewrite column_of_angles.
  - subst C angles. by rewrite column_of_angles by lia.
Qed.

(** *** One chunk *)

(** The encoder accepts the records [K] and returns [E], with the names
    [nms] when they are asked for. *)
Definition encodes (nms : list string) K E : Prop :=
  forall ret_df,
    get_dummies VERSIONS K stats (Some n_feats) ret_df skip (Some (length K, n_feats))
    = Ok (E, if ret_df then Some nms else None).

Lemma encodes_shape nms K E :
  encodes nms K E -> length E = length K /\ Forall (fun row => length row = n_feats) E.
Proof. intros H. by apply (get_dummies_shape _ _ _ _ _ _ _ _ _ (H false)). Qed.

Lemma encodes_app nms K1 K2 E :
  encodes nms (K1 ++ K2) E ->
  exists E1 E2, E = E1 ++ E2 /\ encodes nms K1 E1 /\ encodes nms K2 E2.
Proof.
  intros H. destruct (get_dummies_app _ _ _ _ _ _ _ _ _ (H false))
    as (E1 & E2 & -> & Hlen & _ & _).
  exists E1, E2. split; [done|]. split; intros ret_df.
  - destruct (get_dummies_app _ _ _ _ _ _ _ _ _ (H ret_df))
      as (E1' & E2' & Heq & Hlen' & H1 & _).
    apply app_inj_1 in Heq as [<- _]; [done|congruence].
  - destruct (get_dummies_app _ _ _ _ _ _ _ _ _ (H ret_df))
      as (E1' & E2' & Heq & Hlen' & _ & H2).
    apply app_inj_1 in Heq as [_ <-]; [done|congruence].
Qed.

(** The state after a chunk whose selected records [K] encode to [E]. *)
Definition push st E K (nms : list string) : FileState (A := R) :=
  {| lin_emb_pieces := st.(lin_emb_pieces) ++ [piece column n_feats E K];
     rff_emb_pieces :=
       if skip_rbf then []
       else st.(rff_emb_pieces) ++ [piece rff_column (2 * shape1 freqs) E K];
     weights := st.(weights) ++ [vtab n (den K)];
     total_weights := zip_with Rplus st.(total_weights) (vtab n (den K));
     names := Some (default nms st.(names)) |}.

Local Abbreviation process_chunk' :=
  (process_chunk VERSIONS parse_query stats skip n_feats n subsets skip_rbf freqs).
Local Abbreviation process_chunks' :=
  (process_chunks VERSIONS parse_query stats skip n_feats n subsets skip_rbf freqs).

Lemma process_chunk_skip st c :
  filter (selected preds) c = [] -> process_chunk' st c = Ok st.
Proof.
  intros HK. unfold process_chunk. rewrite (select_rows_filter _ _ _ _ Hparse).
  cbn [bind fst snd]. rewrite HK. done.
Qed.

Lemma shape1_rows E m : E <> [] -> Forall (fun row => length row = m) E -> shape1 E = m.
Proof. destruct E as [|row E]; [done|]. intros _ H. by inversion H. Qed.

Lemma process_chunk_kept st c E nms :
  filter (selected preds) c <> [] ->
  encodes nms (filter (selected preds) c) E ->
  (length preds <= n)%nat ->
  (skip_rbf = false -> Forall (fun row => length row = length freqs) E) ->
  process_chunk' st c = Ok (push st E (filter (selected preds) c) nms).
Proof.
  intros HK Henc Hn Hfreqs. unfold process_chunk.
  rewrite (select_rows_filter _ _ _ _ Hparse). cbn [bind fst snd].
  set (K := filter (selected preds) c) in *.
  rewrite bool_decide_false by (by destruct K).
  rewrite (Henc _). cbn [bind fst snd].
  rewrite (query_weights_kept K Hn). cbn [bind].
  destruct (encodes_shape _ _ _ Henc) as [Hlen Hrows].
  assert (E <> []) as HE by (intros ->; by destruct K).
  rewrite (linear_embedding_kept E K Hlen (shape1_rows _ _ HE Hrows)). cbn [bind].
  rewrite vsum_qweights. unfold push.
  destruct skip_rbf; cbn [bind].
  - f_equal. f_equal. by destruct (names st).
  - rewrite (rff_embedding_kept E K Hlen (Hfreqs eq_refl)). cbn [bind].
    f_equal. f_equal. by destruct (names st).
Qed.

Lemma process_chunk_inv st c st' :
  filter (selected preds) c <> [] ->
  process_chunk' st c = Ok st' ->
  exists E nms,
    encodes nms (filter (selected preds) c) E
    /\ (length preds <= n)%nat
    /\ (skip_rbf = false -> Forall (fun row => length row = length freqs) E).
Proof.
  intros HK. unfold process_chunk.
  rewrite (select_rows_filter _ _ _ _ Hparse). cbn [bind fst snd].
  set (K := filter (selected preds) c) in *.
  rewrite bool_decide_false by (by destruct K).
  intros H. apply bind_Ok in H as ([E nm] & Henc & H).
  apply bind_Ok in H as (wts & Hwts & H). apply bind_Ok in H as (lin & Hlin & H).
  apply bind_Ok in H as (rff & Hrff & H). cbn [fst snd] in *.
  destruct (get_dummies_names _ _ _ _ _ _ _ _ _ Henc) as (nms & _ & Hall).
  exists E, nms. split; [exact Hall|]. split.
  - unfold query_weights in Hwts. case_bool_decide as Hn; [|done].
    by rewrite length_fmap in Hn.
  - intros ->. unfold rff_embedding, matmul in Hrff. by case_bool_decide.
Qed.

(** *** A whole file *)

(** The state after the chunks [ts], given as pairs of the encoded matrix
    and the selected records. *)
Definition pushes st (ts : list (list (list R) * list (Row (A := R)))) nms
  : FileState (A := R) :=
  foldl (fun st t => push st t.1 t.2 nms) st ts.

Lemma all_skipped cs st :
  filter (selected preds) (concat cs) = [] -> process_chunks' st cs = Ok st.
Proof.
  induction cs as [|c cs IH]; intros HK; [done|].
  simpl in HK. rewrite filter_app in HK. apply app_eq_nil in HK as [Hc Hcs].
  cbn [process_chunks]. rewrite (process_chunk_skip _ _ Hc). cbn [bind]. auto.
Qed.

Lemma process_chunks_run nms cs st E :
  encodes nms (filter (selected preds) (concat cs)) E ->
  (length preds <= n)%nat ->
  (skip_rbf = false -> Forall (fun row => length row = length freqs) E) ->
  exists ts,
    process_chunks' st cs = Ok (pushes st ts nms)
    /\ concat ts.*1 = E
    /\ concat ts.*2 = filter (selected preds) (concat cs)
    /\ Forall (fun t => length t.1 = length t.2) ts.
Proof.
  intros Henc Hn. revert st E Henc.
  induction cs as [|c cs IH]; intros st E Henc Hfreqs.
  - exists []. destruct (encodes_shape _ _ _ Henc) as [Hlen _].
    destruct E; [|done]. by split_and!.
  - simpl in Henc. rewrite filter_app in Henc.
    destruct (encodes_app _ _ _ _ Henc) as (E1 & E2 & -> & H1 & H2).
    assert (skip_rbf = false -> Forall (fun row => length row = length freqs) E2) as Hf2.
    { intros Hs. by apply Forall_app in Hfreqs as [_ ?]. }
    assert (skip_rbf = false -> Forall (fun row => length row = length freqs) E1) as Hf1.
    { intros Hs. by apply Forall_app in Hfreqs as [? _]. }
    destruct (encodes_shape _ _ _ H1) as [Hlen1 _].
    cbn [process_chunks concat]. rewrite filter_app.
    destruct (decide (filter (selected preds) c = [])) as [Hc|Hc].
    + rewrite (process_chunk_skip _ _ Hc). cbn [bind].
      rewrite Hc in Hlen1. destruct E1; [|done].
      destruct (IH st E2 H2 Hf2) as (ts & Hrun & Hts1 & Hts2 & Hlens).
      exists ts. rewrite Hc. by split_and!.
    + rewrite (process_chunk_kept _ _ _ _ Hc H1 Hn Hf1). cbn [bind].
      destruct (IH (push st E1 (filter (selected preds) c) nms) E2 H2 Hf2)
        as (ts & Hrun & Hts1 & Hts2 & Hlens).
      exists ((E1, filter (selected preds) c) :: ts). split_and!.
      * done.
      * rewrite fmap_cons. cbn [concat fst]. by rewrite Hts1.
      * rewrite fmap_cons. cbn [concat snd]. by rewrite Hts2.
      * by constructor.
Qed.

(** The fields of the state after the chunks [ts]. *)
Lemma pushes_fields nms ts st :
  pushes st ts nms =
  {| lin_emb_pieces := st.(lin_emb_pieces) ++ ((fun t => piece column n_feats t.1 t.2) <$> ts);
     rff_emb_pieces :=
       if skip_rbf then match ts with [] => st.(rff_emb_pieces) | _ => [] end
       else st.(rff_emb_pieces)
            ++ ((fun t => piece rff_column (2 * shape1 freqs) t.1 t.2) <$> ts);
     weights := st.(weights) ++ ((fun t => vtab n (den t.2)) <$> ts);
     total_weights :=
       foldl (fun T t => zip_with Rplus T (vtab n (den t.2))) st.(total_weights) ts;
     names := match ts with [] => st.(names) | _ => Some (default nms st.(names)) end |}.
Proof.
  revert st. induction ts as [|t ts IH]; intros st.
  - simpl. destruct st; simpl. rewrite !app_nil_r. by destruct skip_rbf.
  - cbn [pushes foldl]. fold (pushes (push st t.1 t.2 nms) ts nms). rewrite IH.
    unfold push; cbn [lin_emb_pieces rff_emb_pieces weights total_weights names].
    rewrite !fmap_cons, <- !app_assoc. f_equal.
    + destruct skip_rbf; [by destruct ts|]. by rewrite <- app_assoc.
    + destruct ts; by destruct (names st).
Qed.

Lemma replicate_vtab m : replicate m 0 = vtab m (fun _ => 0).
Proof.
  unfold vtab. generalize 0%nat.
  induction m as [|m IH]; intros k; [done|]. simpl. by rewrite <- IH.
Qed.

Lemma total_vtab ts T0 :
  foldl (fun T t => zip_with Rplus T (vtab n (den t.2))) (vtab n T0) ts
  = vtab n (fun i => foldl (fun a (t : list (list R) * list (Row (A := R))) => a + den t.2 i)
                       (T0 i) ts).
Proof.
  revert T0. induction ts as [|t ts IH]; intros T0; [done|].
  cbn [foldl].
  replace (zip_with Rplus (vtab n T0) (vtab n (den t.2)))
    with (vtab n (fun i => T0 i + den t.2 i))
    by (unfold vtab; by rewrite zip_with_tabulated).
  apply IH.
Qed.

(** The total weight of query [i], and entry [(j, i)] of the ratio-weighted
    sum of the pieces. *)
Definition total_of (ts : list (list (list R) * list (Row (A := R)))) (i : nat) : R :=
  foldl (fun a t => a + den t.2 i) 0 ts.

Definition mix (col : nat -> list (list R) -> list R)
    (ts : list (list (list R) * list (Row (A := R)))) (j i : nat) : R :=
  foldl (fun a t =>
           a + guarded_div (dot (col j t.1) (qw i <$> t.2)) (den t.2 i)
               * guarded_div (den t.2 i) (total_of ts i))
        0 ts.

(** Lines 253-269. *)
Definition finish st : result (FileResult (A := R) * option (list string)) :=
  let ratios := ratio_of st.(total_weights) <$> st.(weights) in
  lin <- combine (zeros n_feats n) ratios st.(lin_emb_pieces) ;;
  rff <- (if skip_rbf then Ok []
          else combine (zeros (2 * n_freqs)%nat n) ratios st.(rff_emb_pieces)) ;;
  Ok ({| file_lin := lin; file_rff := rff; file_weight := st.(total_weights) |}, st.(names)).

Definition st0 (names0 : option (list string)) : FileState (A := R) :=
  {| lin_emb_pieces := []; rff_emb_pieces := []; weights := [];
     total_weights := replicate n 0; names := names0 |}.

Lemma embed_file_finish names0 cs :
  embed_file VERSIONS parse_query stats skip n_feats n_freqs n subsets skip_rbf freqs names0 cs
  = bind (process_chunks' (st0 names0) cs) finish.
Proof. done. Qed.

Lemma finish_pushes nms names0 ts :
  (skip_rbf = false -> n_freqs = shape1 freqs) ->
  finish (pushes (st0 names0) ts nms)
  = Ok ({| file_lin := tab n_feats n (mix column ts);
           file_rff := if skip_rbf then [] else tab (2 * shape1 freqs) n (mix rff_column ts);
           file_weight := vtab n (total_of ts) |},
        match ts with [] => names0 | _ => Some (default nms names0) end).
Proof.
  intros Hfreqs. rewrite pushes_fields. unfold finish, st0.
  cbn [lin_emb_pieces rff_emb_pieces weights total_weights names app].
  rewrite replicate_vtab, total_vtab. fold (total_of ts).
  assert (ratio_of (vtab n (total_of ts)) <$> ((fun t => vtab n (den t.2)) <$> ts)
          = (fun t => vtab n (fun i => guarded_div (den t.2 i) (total_of ts i))) <$> ts)
    as ->.
  { rewrite <- list_fmap_compose. apply list_fmap_ext. intros _ t _. simpl.
    unfold ratio_of, vtab. by rewrite zip_with_tabulated. }
  rewrite zeros_tab.
  unfold piece.
  rewrite (combine_tab n_feats n
             (fun t i => guarded_div (den t.2 i) (total_of ts i))
             (fun t j i => guarded_div (dot (column j t.1) (qw i <$> t.2)) (den t.2 i))).
  cbn [bind]. destruct skip_rbf.
  - cbn [bind]. done.
  - rewrite (Hfreqs eq_refl), zeros_tab.
    rewrite (combine_tab (2 * shape1 freqs) n
               (fun t i => guarded_div (den t.2 i) (total_of ts i))
               (fun t j i => guarded_div (dot (rff_column j t.1) (qw i <$> t.2)) (den t.2 i))).
    cbn [bind]. done.
Qed.

Lemma finish_freqs nms names0 t ts r :
  finish (pushes (st0 names0) (t :: ts) nms) = Ok r ->
  skip_rbf = false -> n_freqs = shape1 freqs.
Proof.
  rewrite pushes_fields. unfold finish, st0.
  cbn [lin_emb_pieces rff_emb_pieces weights total_weights names app].
  intros H Hs. rewrite Hs in H.
  apply bind_Ok in H as (lin & _ & H). apply bind_Ok in H as (rff & Hrff & _).
  rewrite !fmap_cons in Hrff. cbn [combine] in Hrff.
  apply bind_Ok in Hrff as (emb & Hadd & _). unfold add_scaled in Hadd.
  case_bool_decide as Hshape; [|done]. destruct Hshape as [Hlen _].
  unfold piece in Hlen. rewrite length_tab in Hlen.
  rewrite (proj1 (zeros_rows _ _)) in Hlen. lia.
Qed.

(** *** The chunks against the whole file *)

Implicit Types ts : list (list (list R) * list (Row (A := R))).

Lemma qw_nonneg i (r : Row (A := R)) : 0 <= r.(PWGTP) -> 0 <= qw i r.
Proof.
  intros Hr. unfold qw. destruct (preds !! i) as [p|]; [|done].
  destruct (p r); [done|lra].
Qed.

Lemma den_nonneg K i : Forall (fun r => 0 <= r.(PWGTP)) K -> 0 <= den K i.
Proof.
  intros HK. apply vsum_nonneg, Forall_fmap.
  eapply Forall_impl; [exact HK|]. intros r. apply qw_nonneg.
Qed.

Lemma den_zero xs K i :
  Forall (fun r => 0 <= r.(PWGTP)) K -> den K i = 0 -> dot xs (qw i <$> K) = 0.
Proof.
  intros HK Hz. apply dot_zero_weights, vsum_nonneg_zero; [|done].
  apply Forall_fmap. eapply Forall_impl; [exact HK|]. intros r. apply qw_nonneg.
Qed.

(** The columns of the features stack with the records. *)
Definition stacks (col : nat -> list (list R) -> list R) : Prop :=
  (forall j E1 E2, col j (E1 ++ E2) = col j E1 ++ col j E2)
  /\ (forall j E, length (col j E) = length E).

Lemma column_stacks : stacks column.
Proof.
  split; intros; unfold column; [by rewrite fmap_app|by rewrite length_fmap].
Qed.

Lemma rff_column_stacks : stacks rff_column.
Proof.
  split; intros; unfold rff_column, angles_column; case_decide;
    by rewrite ?fmap_app, ?length_fmap.
Qed.

Lemma sums_concat col ts j i :
  stacks col ->
  Forall (fun t => length t.1 = length t.2) ts ->
  dot (col j (concat ts.*1)) (qw i <$> concat ts.*2)
  = vsum ((fun t => dot (col j t.1) (qw i <$> t.2)) <$> ts)
  /\ den (concat ts.*2) i = vsum ((fun t => den t.2 i) <$> ts).
Proof.
  intros [Happ Hlen] Hts. induction Hts as [|[E K] ts HEK _ [IH1 IH2]].
  - split; [apply dot_nil_r|done].
  - rewrite !fmap_cons. cbn [concat fst snd] in *.
    rewrite !vsum_cons, <- IH1, <- IH2. split.
    + rewrite Happ, fmap_app, dot_app; [done|]. by rewrite Hlen, length_fmap.
    + unfold den. by rewrite fmap_app, vsum_app.
Qed.

Lemma mix_merge col ts j i :
  stacks col ->
  Forall (fun t => length t.1 = length t.2) ts ->
  Forall (fun t => Forall (fun r => 0 <= r.(PWGTP)) t.2) ts ->
  total_of ts i = total_of [(concat ts.*1, concat ts.*2)] i
  /\ mix col ts j i = mix col [(concat ts.*1, concat ts.*2)] j i.
Proof.
  intros Hcol Hlens Hnonneg.
  destruct (sums_concat col ts j i Hcol Hlens) as [HS HW].
  set (l := (fun t : list (list R) * list (Row (A := R)) =>
               (dot (col j t.1) (qw i <$> t.2), den t.2 i)) <$> ts).
  assert (chunk_sum l = dot (col j (concat ts.*1)) (qw i <$> concat ts.*2)) as Hsum.
  { rewrite HS. unfold chunk_sum, l. by rewrite <- list_fmap_compose. }
  assert (chunk_weight l = den (concat ts.*2) i) as Hweight.
  { rewrite HW. unfold chunk_weight, l. by rewrite <- list_fmap_compose. }
  assert (total_of ts i = chunk_weight l) as Htotal.
  { unfold total_of.
    replace (foldl (fun a t => a + den t.2 i) 0 ts)
      with (foldl (fun acc (sw : R * R) => acc + sw.2) 0 l)
      by (unfold l; by rewrite foldl_fmap).
    rewrite foldl_weights. lra. }
  assert (total_of [(concat ts.*1, concat ts.*2)] i = chunk_weight l) as Htotal'.
  { unfold total_of. cbn [foldl snd]. rewrite Hweight. lra. }
  split; [congruence|].
  unfold mix. rewrite Htotal'. cbn [foldl fst snd]. rewrite <- Hsum, <- Hweight, Htotal.
  replace (foldl (fun a t =>
                    a + guarded_div (dot (col j t.1) (qw i <$> t.2)) (den t.2 i)
                        * guarded_div (den t.2 i) (chunk_weight l)) 0 ts)
    with (foldl (fun acc (sw : R * R) =>
                   acc + guarded_div sw.1 sw.2 * guarded_div sw.2 (chunk_weight l)) 0 l)
    by (unfold l; by rewrite foldl_fmap).
  rewrite (ratio_weighted_sum l (chunk_weight l)); [lra| |done].
  unfold l. apply Forall_fmap. eapply Forall_impl; [exact Hnonneg|].
  intros [E K] HK; simpl in *. split; [by apply den_nonneg|].
  intros Hz. by apply den_zero.
Qed.

Local Abbreviation embed_file' :=
  (embed_file VERSIONS parse_query stats skip n_feats n_freqs n subsets skip_rbf freqs).

(** Read in chunks, a file gives what it gives read at once. *)
Lemma embed_file_chunks names0 cs r :
  Forall (fun row => 0 <= row.(PWGTP)) (concat cs) ->
  embed_file' names0 [concat cs] = Ok r ->
  embed_file' names0 cs = Ok r.
Proof.
  intros Hnonneg. rewrite !embed_file_finish. intros H.
  set (K := filter (selected preds) (concat cs)).
  destruct (decide (K = [])) as [HK|HK].
  - rewrite (all_skipped cs _ HK).
    rewrite (all_skipped [concat cs]) in H; [done|].
    cbn [concat]. by rewrite app_nil_r.
  - apply bind_Ok in H as (st1 & Hst1 & H). cbn [process_chunks] in Hst1.
    apply bind_Ok in Hst1 as (st1' & Hchunk & Hst1). injection Hst1 as <-.
    destruct (process_chunk_inv _ _ _ HK Hchunk) as (E & nms & Henc & Hn & Hfreqs).
    rewrite (process_chunk_kept _ _ _ _ HK Henc Hn Hfreqs) in Hchunk.
    injection Hchunk as <-. fold K in H, Henc.
    change (push (st0 names0) E K nms) with (pushes (st0 names0) [(E, K)] nms) in H.
    pose proof (finish_freqs _ _ _ _ _ H) as Hd.
    destruct (process_chunks_run nms cs (st0 names0) E Henc Hn Hfreqs)
      as (ts & Hrun & HE & HKs & Hlens).
    rewrite Hrun. cbn [bind]. fold K in HKs.
    rewrite (finish_pushes _ _ _ Hd) in H. rewrite (finish_pushes _ _ _ Hd).
    rewrite <- H. clear H.
    assert (ts <> []) as Hts by (intros ->; by rewrite <- HKs in HK).
    assert (Forall (fun t => Forall (fun r => 0 <= r.(PWGTP)) t.2) ts) as Hpos.
    { assert (Forall (fun r => 0 <= r.(PWGTP)) (concat ts.*2)) as Hall.
      { rewrite HKs. apply Forall_forall. intros row Hrow.
        apply list_elem_of_filter in Hrow as [_ Hrow].
        by apply (proj1 (Forall_forall _ _) Hnonneg). }
      clear -Hall. induction ts as [|t ts IH]; [constructor|].
      rewrite fmap_cons in Hall. cbn [concat] in Hall.
      apply Forall_app in Hall as [? ?]. constructor; auto. }
    rewrite <- HE, <- HKs.
    f_equal. f_equal; [|by destruct ts].
    f_equal.
    + apply tab_ext. intros j i _ _. by apply mix_merge; [apply column_stacks|..].
    + destruct skip_rbf; [done|].
      apply tab_ext. intros j i _ _. by apply mix_merge; [apply rff_column_stacks|..].
    + apply vtab_ext. intros i _. by apply (mix_merge column ts 0 i column_stacks).
Qed.

End Chunks.

(** ** Chunksize invariance *)

Section ChunkSize.
Local Open Scope R_scope.
Variable VERSIONS : gmap string SchemaInfo.
Variable pick_rff_freqs : nat -> R -> option Z -> nat -> bool -> list (list R).
Variable parse_query : string -> result (list (Row (A := R) -> bool)).

Implicit Types (file : list (Row (A := R))).








End ChunkSize.


(** * Further properties of the encoder *)

Section EncoderLayout.
Context {A : Type} {NumA : Num A}.
Variable VERSIONS : gmap string SchemaInfo.

Implicit Types (stats : Stats (A := A)) (df da db : list (Row (A := A))) (skip : gset string).
Implicit Types (st : EncState (A := A)).

(** The default call is the call on a buffer of the counted width. *)
Lemma get_dummies_default df stats ret_df skip :
  get_dummies VERSIONS df stats None ret_df skip None
  = get_dummies VERSIONS df stats (Some (_num_feats stats skip)) ret_df skip
      (Some (length df, _num_feats stats skip)).
Proof. done. Qed.

(** X1: the encoder works record by record.  When a batch is encoded, so
    are its two parts, the matrix of the batch is the matrix of the first
    part on top of the matrix of the second, and the column names are the
    same for all three. *)
Theorem encoder_row_by_row da db stats ret_df skip m names :
  get_dummies VERSIONS (da ++ db) stats None ret_df skip None = Ok (m, names) ->
  exists m1 m2,
    m = m1 ++ m2
    /\ length m1 = length da
    /\ get_dummies VERSIONS da stats None ret_df skip None = Ok (m1, names)
    /\ get_dummies VERSIONS db stats None ret_df skip None = Ok (m2, names).
Proof.
  rewrite !get_dummies_default. apply get_dummies_app.
Qed.

(** *** The blocks *)

Lemma take_eye_hot stats vc v row :
  take_eye (n_codes_of stats vc)
    (let c := code_of (vc.*1) v in
     if has_overflow vc stats.(n_total)
     then (if bool_decide (c = -1)%Z then Z.of_nat (length vc) else c) else c)
  = Ok row ->
  row = eye_row (n_codes_of stats vc) (hot_index stats vc v).
Proof.
  unfold take_eye, hot_index, n_codes_of, code_of. cbn zeta.
  assert (forall i c', list_find (fun c => c = i) vc.*1 = Some c' -> (c'.1 < length vc)%nat)
    as Hfound.
  { intros s [i c'] (Hi & _ & _)%list_find_Some.
    apply lookup_lt_Some in Hi. by rewrite length_fmap in Hi. }
  destruct v as [s|]; simpl;
    [destruct (list_find (fun c => c = s) vc.*1) as [[i c']|] eqn:Hfind; simpl;
     [apply Hfound in Hfind; simpl in Hfind|]|];
    destruct (has_overflow vc (n_total stats));
    repeat (case_bool_decide; try lia); try done;
    intros [= <-]; f_equal; lia.
Qed.

Lemma block_names_length stats skip k :
  length (block_names stats skip k) = feat_width stats skip k.
Proof.
  unfold block_names, feat_width, block_width.
  destruct (value_counts stats !! k) as [vc|]; case_bool_decide; try done.
  rewrite length_app, !length_fmap. by destruct (has_overflow vc (n_total stats)).
Qed.

Lemma block_names_bind_length stats skip ks :
  length (k ← ks; block_names stats skip k) = sum_list_with (feat_width stats skip) ks.
Proof.
  induction ks as [|k ks IH]; [done|].
  cbn [mbind list_bind sum_list_with]. by rewrite length_app, block_names_length, IH.
Qed.

(** One pass of the loop appends the block of the feature to every row,
    and the names of the block to the names. *)
Lemma encode_feature_block df stats nf skip st k st' :
  encode_feature df stats nf skip st k = Ok st' ->
  length (filled st) = length df ->
  feat_names st' = feat_names st ++ block_names stats skip k
  /\ forall i row old,
       df !! i = Some row -> filled st !! i = Some old ->
       filled st' !! i = Some (old ++ block_of stats skip row k).
Proof.
  rewrite encode_feature_unfold. unfold block_of, block_names. intros H Hlen.
  case_bool_decide as Hskip.
  { injection H as <-. split; [by rewrite app_nil_r|].
    intros i row old _ Hold. by rewrite app_nil_r. }
  apply bind_Ok in H as (vc & Hvc & H).
  destruct (value_counts stats !! k) as [vc'|]; [|done]. injection Hvc as ->.
  apply bind_Ok in H as (vals & Hvals & H). apply bind_Ok in H as (c & Hc & H).
  case_bool_decide; [|done]. apply bind_Ok in H as (bit & Hbit & H).
  injection H as <-. cbn [feat_names filled]. split; [done|].
  intros i row old Hi Hold.
  unfold select_cat in Hvals.
  destruct (mapR_Ok_lookup _ _ _ _ _ Hvals Hi) as (v & Hv & Hvi).
  destruct (cats row !! k) as [v'|]; [|done]. injection Hv as ->.
  unfold categorical_codes in Hc. case_bool_decide; [|done]. injection Hc as <-.
  assert (codes_of stats vc (code_of vc.*1 <$> vals) !! i
          = Some (let c := code_of (vc.*1) v in
                  if has_overflow vc stats.(n_total)
                  then (if bool_decide (c = -1)%Z then Z.of_nat (length vc) else c)
                  else c)) as Hci.
  { unfold codes_of. destruct (has_overflow vc (n_total stats));
      by rewrite !list_lookup_fmap, Hvi. }
  destruct (mapR_Ok_lookup _ _ _ _ _ Hbit Hci) as (b & Hb & Hbi).
  apply take_eye_hot in Hb as ->.
  rewrite lookup_zip_with, Hold, Hbi. done.
Qed.

Lemma encode_features_blocks df stats nf skip ks st st' :
  encode_features df stats nf skip st ks = Ok st' ->
  well_filled df st ->
  feat_names st' = feat_names st ++ (k ← ks; block_names stats skip k)
  /\ forall i row old,
       df !! i = Some row -> filled st !! i = Some old ->
       filled st' !! i = Some (old ++ (k ← ks; block_of stats skip row k)).
Proof.
  revert st. induction ks as [|k ks IH]; intros st H Hwf.
  - injection H as <-. split; [by rewrite app_nil_r|].
    intros i row old _ Hold. by rewrite app_nil_r.
  - cbn [encode_features] in H. apply bind_Ok in H as (st1 & Hk & H).
    destruct (encode_feature_block _ _ _ _ _ _ _ Hk (proj1 Hwf)) as [Hn1 Hr1].
    destruct (encode_feature_Ok _ _ _ _ _ _ _ Hk) as [_ Hwf1].
    destruct (IH _ H (Hwf1 Hwf)) as [Hn Hr]. split.
    + rewrite Hn, Hn1, <- app_assoc. done.
    + intros i row old Hi Hold.
      rewrite (Hr i row _ Hi (Hr1 i row old Hi Hold)), <- app_assoc. done.
Qed.

(** X2: the layout of an encoded row.  The row of a record starts with
    one entry per kept real feature; then come, in schema order, the
    blocks of the kept discrete features and allocation flags, each the
    row of the identity matrix that [hot_index] selects. *)
Theorem encoded_row_layout df stats info num_feats ret_df skip out m names :
  VERSIONS !! stats.(version) = Some info ->
  get_dummies VERSIONS df stats num_feats ret_df skip out = Ok (m, names) ->
  forall i row, df !! i = Some row ->
    exists standardized,
      length standardized = length (filter (fun f => f ∉ skip) info.(real_feats))
      /\ m !! i
         = Some (standardized
                 ++ (k ← info.(discrete_feats) ++ info.(alloc_flags);
                     block_of stats skip row k)).
Proof.
  intros Hinfo H i row Hi. unfold get_dummies in H. rewrite Hinfo in H; simpl in H.
  case_bool_decide; [|done].
  apply bind_Ok in H as (x & Hx & H). apply bind_Ok in H as (st & Hst & H).
  case_bool_decide as Hcur; [|done]. injection H as <- _.
  remember (default (_num_feats stats skip) num_feats) as nf eqn:Hnf.
  remember (filter (fun f => f ∉ skip) (real_feats info)) as kept eqn:Hkept.
  pose proof (encode_features_Ok _ _ _ _ _ _ _ Hst) as [Hc _]. simpl in Hc.
  pose proof (encode_reals_Ok _ _ _ _ _ Hx) as [Hxlen Hxrows].
  assert (length kept `min` nf = length kept) as Hwidth by lia.
  rewrite Hwidth in Hxrows.
  destruct (lookup_lt_is_Some_2 x i) as [rr Hrr].
  { rewrite Hxlen. by apply lookup_lt_Some in Hi. }
  exists rr. split; [by apply (Forall_lookup_1 _ _ _ _ Hxrows Hrr)|].
  eapply (encode_features_blocks _ _ _ _ _ _ _ Hst); [|done|done].
  split; simpl; done.
Qed.

Lemma get_dummies_names_layout df stats info num_feats skip out m names :
  VERSIONS !! stats.(version) = Some info ->
  get_dummies VERSIONS df stats num_feats true skip out = Ok (m, names) ->
  names = Some (filter (fun f => f ∉ skip) info.(real_feats)
                ++ (k ← info.(discrete_feats) ++ info.(alloc_flags);
                    block_names stats skip k))
  /\ length (filter (fun f => f ∉ skip) info.(real_feats)
             ++ (k ← info.(discrete_feats) ++ info.(alloc_flags);
                 block_names stats skip k))
     = default (_num_feats stats skip) num_feats.
Proof.
  intros Hinfo H. unfold get_dummies in H. rewrite Hinfo in H; simpl in H.
  case_bool_decide; [|done].
  apply bind_Ok in H as (x & Hx & H). apply bind_Ok in H as (st & Hst & H).
  case_bool_decide as Hcur; [|done]. injection H as <- <-.
  pose proof (encode_features_Ok _ _ _ _ _ _ _ Hst) as [Hc _]. simpl in Hc.
  pose proof (encode_reals_Ok _ _ _ _ _ Hx) as [Hxlen Hxrows].
  destruct (encode_features_blocks _ _ _ _ _ _ _ Hst) as [Hn _].
  { split; simpl; [done|]. eapply Forall_impl; [exact Hxrows|]. simpl. intros ? ->. lia. }
  simpl in Hn. split; [by rewrite Hn|].
  rewrite length_app, block_names_bind_length, <- Hc, Hcur. done.
Qed.

(** Asked for names, the encoder returns one name per column. *)
Lemma get_dummies_names_count df stats num_feats skip out m names :
  get_dummies VERSIONS df stats num_feats true skip out = Ok (m, names) ->
  exists nms, names = Some nms /\ length nms = default (_num_feats stats skip) num_feats.
Proof.
  intros H. assert (exists info, VERSIONS !! stats.(version) = Some info) as [info Hinfo].
  { unfold get_dummies in H. destruct (VERSIONS !! version stats); [eauto|done]. }
  destruct (get_dummies_names_layout _ _ _ _ _ _ _ _ Hinfo H) as [-> Hlen]. eauto.
Qed.

(** X3: the column names.  Asked for names, the encoder returns the kept
    real features, then for every kept discrete feature and allocation
    flag the names [k_v] of its stored categories and [k_nan] for its
    overflow column; there is one name per column. *)
Theorem column_names_layout df stats info num_feats skip out m names :
  VERSIONS !! stats.(version) = Some info ->
  get_dummies VERSIONS df stats num_feats true skip out = Ok (m, names) ->
  names = Some (filter (fun f => f ∉ skip) info.(real_feats)
                ++ (k ← info.(discrete_feats) ++ info.(alloc_flags);
                    block_names stats skip k))
  /\ forall nms, names = Some nms -> Forall (fun row => length row = length nms) m.
Proof.
  intros Hinfo H.
  pose proof (get_dummies_shape _ _ _ _ _ _ _ _ _ H) as [_ Hrows].
  destruct (get_dummies_names_layout _ _ _ _ _ _ _ _ Hinfo H) as [-> Hlen].
  split; [done|]. intros nms [= <-]. by rewrite Hlen.
Qed.

(** *** What the encoder reads *)

Lemma mapR_ext_in {T U} (f g : T -> result U) (l : list T) :
  (forall x, x ∈ l -> f x = g x) -> mapR f l = mapR g l.
Proof.
  induction l as [|x l IH]; intros H; [done|]. cbn [mapR].
  rewrite (H x) by left. rewrite IH; [done|]. intros y Hy. apply H. by right.
Qed.

Lemma mapR_ext_Forall2 {T U} (f : T -> result U) (l1 l2 : list T) :
  Forall2 (fun x y => f x = f y) l1 l2 -> mapR f l1 = mapR f l2.
Proof.
  induction 1 as [|x y l1 l2 Hxy _ IH]; [done|]. cbn [mapR]. by rewrite Hxy, IH.
Qed.

Lemma encode_features_agree da db stats nf skip (good : string -> Prop) ks st :
  Forall2 (fun r1 r2 => forall k, good k -> k ∉ skip -> r1.(cats) !! k = r2.(cats) !! k)
    da db ->
  Forall good ks ->
  encode_features da stats nf skip st ks = encode_features db stats nf skip st ks.
Proof.
  intros Hrows Hks. revert st. induction Hks as [|k ks Hk _ IH]; intros st; [done|].
  cbn [encode_features].
  assert (encode_feature da stats nf skip st k = encode_feature db stats nf skip st k) as ->.
  { unfold encode_feature. case_bool_decide as Hskip; [done|].
    assert (select_cat da k = select_cat db k) as ->; [|done].
    unfold select_cat. apply mapR_ext_Forall2.
    eapply Forall2_impl; [exact Hrows|]. intros r1 r2 H. simpl. by rewrite (H k). }
  destruct (encode_feature db stats nf skip st k); [apply IH|done].
Qed.

(** X4: what the encoder reads.  The encoding of a batch depends on the
    records only through the features that are kept: two batches whose
    records agree, one by one, on every kept real feature and every kept
    discrete feature and allocation flag are encoded alike, whatever
    their weights and their skipped features are. *)
Theorem encoder_reads_kept_features da db stats info num_feats ret_df skip out :
  VERSIONS !! stats.(version) = Some info ->
  Forall2 (agree_on_kept info skip) da db ->
  get_dummies VERSIONS da stats num_feats ret_df skip out
  = get_dummies VERSIONS db stats num_feats ret_df skip out.
Proof.
  intros Hinfo Hrows. unfold get_dummies. rewrite Hinfo. cbn [lookup_or bind].
  rewrite (Forall2_length _ _ _ Hrows).
  case_bool_decide; [|done].
  assert (encode_reals da stats (default (_num_feats stats skip) num_feats)
            (filter (fun f => f ∉ skip) (real_feats info))
          = encode_reals db stats (default (_num_feats stats skip) num_feats)
              (filter (fun f => f ∉ skip) (real_feats info))) as ->.
  { unfold encode_reals.
    assert (select_reals da (filter (fun f => f ∉ skip) (real_feats info))
            = select_reals db (filter (fun f => f ∉ skip) (real_feats info))) as ->; [|done].
    unfold select_reals. apply mapR_ext_Forall2.
    eapply Forall2_impl; [exact Hrows|]. intros r1 r2 [Hreals _]. simpl.
    apply mapR_ext_in. intros f [Hskip Hf]%list_elem_of_filter. by rewrite Hreals. }
  destruct (encode_reals db _ _ _) as [x|e]; [|done]. cbn [bind].
  rewrite (encode_features_agree da db stats _ skip
             (fun k => k ∈ discrete_feats info ++ alloc_flags info)); [done| |].
  - eapply Forall2_impl; [exact Hrows|]. intros r1 r2 [_ Hcats]. exact Hcats.
  - by apply Forall_forall.
Qed.

End EncoderLayout.

(** Two records, the second with a missing [SEX]. *)
Lemma encoder_row_by_row_witness :
  let da := [Examples.person 50%float (Some "2") 1%float] in
  let db := [Examples.person 30%float None 1%float] in
  exists m names,
    get_dummies Examples.versions (da ++ db) Examples.stats64 None true ∅ None
    = Ok (m, names)
    /\ exists m1 m2,
         m = m1 ++ m2
         /\ length m1 = length da
         /\ get_dummies Examples.versions da Examples.stats64 None true ∅ None = Ok (m1, names)
         /\ get_dummies Examples.versions db Examples.stats64 None true ∅ None = Ok (m2, names).
Proof.
  intros da db. do 2 eexists.
  assert (get_dummies Examples.versions (da ++ db) Examples.stats64 None true ∅ None
          = Ok (_, _)) as H by (vm_compute; reflexivity).
  split; [exact H|].
  exact (encoder_row_by_row Examples.versions da db Examples.stats64 true ∅ _ _ H).
Defined.

(** A record with a stored [SEX] and the only stored [FAGEP]. *)
Lemma encoded_row_layout_witness :
  let row := Examples.person 50%float (Some "2") 1%float in
  exists standardized,
    length standardized = 1
    /\ [[1; 0; 1; 1; 0]]%float !! 0
       = Some (standardized
               ++ (k ← ["SEX"; "FAGEP"]; block_of Examples.stats64 ∅ row k)).
Proof.
  intros row.
  assert (Examples.versions !! Examples.stats64.(version) = Some Examples.schema) as H1
    by (vm_compute; reflexivity).
  assert (get_dummies Examples.versions [row] Examples.stats64 None true ∅ None
          = Ok ([[1; 0; 1; 1; 0]]%float,
                Some ["AGEP"; "SEX_1"; "SEX_2"; "FAGEP_0"; "FAGEP_nan"])) as H2
    by (vm_compute; reflexivity).
  exact (encoded_row_layout Examples.versions [row] Examples.stats64 Examples.schema
           None true ∅ None _ _ H1 H2 0 row eq_refl).
Defined.

Lemma column_names_layout_witness :
  let row := Examples.person 50%float (Some "2") 1%float in
  Some ["AGEP"; "SEX_1"; "SEX_2"; "FAGEP_0"; "FAGEP_nan"]
  = Some (filter (fun f => f ∉ (∅ : gset string)) ["AGEP"]
          ++ (k ← ["SEX"; "FAGEP"]; block_names Examples.stats64 ∅ k))
  /\ forall nms,
       Some ["AGEP"; "SEX_1"; "SEX_2"; "FAGEP_0"; "FAGEP_nan"] = Some nms ->
       Forall (fun r => length r = length nms) [[1; 0; 1; 1; 0]]%float.
Proof.
  intros row.
  assert (Examples.versions !! Examples.stats64.(version) = Some Examples.schema) as H1
    by (vm_compute; reflexivity).
  assert (get_dummies Examples.versions [row] Examples.stats64 None true ∅ None
          = Ok ([[1; 0; 1; 1; 0]]%float,
                Some ["AGEP"; "SEX_1"; "SEX_2"; "FAGEP_0"; "FAGEP_nan"])) as H2
    by (vm_compute; reflexivity).
  exact (column_names_layout Examples.versions [row] Examples.stats64 Examples.schema
           None ∅ None _ _ H1 H2).
Defined.

(** ** The column count and the skip-set *)

Section ColumnCount.
Context {A : Type}.

Implicit Types (stats : Stats (A := A)) (skip : gset string).

Lemma sum_list_with_le {T} (f g : T -> nat) (l : list T) :
  (forall x, x ∈ l -> f x <= g x) -> sum_list_with f l <= sum_list_with g l.
Proof.
  induction l as [|x l IH]; intros H; [done|]. cbn [sum_list_with].
  assert (x ∈ x :: l) as Hx by left. pose proof (H x Hx) as Hfx.
  assert (sum_list_with f l <= sum_list_with g l) as Hl
    by (apply IH; intros y Hy; apply H; by right).
  lia.
Qed.

(** X5: skipping more features never adds columns, and skipping a name
    that is no key of the stats bundle changes nothing. *)
Theorem num_feats_skip stats skip skip' :
  (skip ⊆ skip' -> _num_feats stats skip' <= _num_feats stats skip)
  /\ ((forall k, k ∈ skip' -> k ∉ skip ->
         (k ∉ (real_means stats).*1) /\ value_counts stats !! k = None) ->
      skip ⊆ skip' -> _num_feats stats skip' = _num_feats stats skip).
Proof.
  rewrite !num_feats_sum. split.
  - intros Hsub.
    assert (size (list_to_set (C := gset string) (real_means stats).*1 ∖ skip')
            <= size (list_to_set (C := gset string) (real_means stats).*1 ∖ skip)) as H1.
    { apply subseteq_size. set_solver. }
    assert (sum_list_with (fun kv => block_width stats skip' kv.1 kv.2)
              (map_to_list (value_counts stats))
            <= sum_list_with (fun kv => block_width stats skip kv.1 kv.2)
                 (map_to_list (value_counts stats))) as H2.
    { apply sum_list_with_le. intros [k vc] _. unfold block_width; simpl.
      repeat case_bool_decide; try lia. set_solver. }
    lia.
  - intros Hnew Hsub. f_equal.
    + f_equal. apply set_eq. intros k. rewrite !elem_of_difference, !elem_of_list_to_set.
      split; [intros [? ?]; split; [done|set_solver]|].
      intros [Hk Hs]. split; [done|]. intros Hs'. by destruct (Hnew k Hs' Hs).
    + apply Nat.le_antisymm; apply sum_list_with_le; intros [k vc] Hin;
        unfold block_width; simpl; repeat case_bool_decide; try lia; try set_solver.
      apply elem_of_map_to_list in Hin. destruct (Hnew k) as [_ Hnone]; [done..|].
      congruence.
Qed.

End ColumnCount.

Lemma num_feats_skip_witness :
  (_num_feats Examples.stats64 {["FAGEP"; "other"]} <= _num_feats Examples.stats64 {["FAGEP"]})
  /\ _num_feats Examples.stats64 {["FAGEP"; "other"]} = _num_feats Examples.stats64 {["FAGEP"]}.
Proof.
  assert ({["FAGEP"]} ⊆@{gset string} {["FAGEP"; "other"]}) as Hsub by set_solver.
  split.
  - exact (proj1 (num_feats_skip Examples.stats64 {["FAGEP"]} {["FAGEP"; "other"]}) Hsub).
  - apply (proj2 (num_feats_skip Examples.stats64 {["FAGEP"]} {["FAGEP"; "other"]}));
      [|exact Hsub].
    intros k Hk Hnk. assert (k = "other") as -> by set_solver.
    split; [compute_done|by vm_compute].
Defined.

(** Two records that differ in their weight and in the skipped flag. *)
Lemma encoder_reads_kept_features_witness :
  let r1 := Examples.person 50%float (Some "2") 1%float in
  let r2 := {| reals := {[ "AGEP" := 50%float ]};
               cats := {[ "SEX" := Some "2"; "FAGEP" := None ]};
               PWGTP := 7%float |} in
  get_dummies Examples.versions [r1] Examples.stats64 None true {["FAGEP"]} None
  = get_dummies Examples.versions [r2] Examples.stats64 None true {["FAGEP"]} None.
Proof.
  intros r1 r2.
  assert (Examples.versions !! Examples.stats64.(version) = Some Examples.schema) as H1
    by (vm_compute; reflexivity).
  assert (Forall2 (agree_on_kept Examples.schema {["FAGEP"]}) [r1] [r2]) as H2.
  { repeat constructor.
    intros k Hk Hskip. cbn in Hk. rewrite !elem_of_cons, elem_of_nil in Hk.
    destruct Hk as [->|[->|[]]]; [done|]. destruct Hskip. by apply elem_of_singleton. }
  exact (encoder_reads_kept_features Examples.versions [r1] [r2] Examples.stats64
           Examples.schema None true {["FAGEP"]} None H1 H2).
Defined.

(** * Further properties of the embedding primitives, in exact arithmetic *)

Section EmbeddingFacts.
Local Open Scope R_scope.

Implicit Types (feats wts freqs : list (list R)) (w xs : list R).

Lemma dot_scaled xs w (c : R) : dot xs (Rmult c <$> w) = c * dot xs w.
Proof.
  revert w. induction xs as [|x xs IH]; intros [|y w]; try (unfold dot, vsum; simpl; lra).
  rewrite fmap_cons, !dot_cons, IH. lra.
Qed.

Lemma vsum_scaled w (c : R) : vsum (Rmult c <$> w) = c * vsum w.
Proof.
  induction w as [|y w IH]; [unfold vsum; simpl; lra|].
  rewrite fmap_cons, !vsum_cons, IH. lra.
Qed.

(** The guarded quotient does not see a positive factor of the weights. *)
Lemma guarded_div_scaled xs w (c : R) :
  0 < c -> Forall (fun x => 0 <= x) w ->
  guarded_div (dot xs (Rmult c <$> w)) (vsum (Rmult c <$> w))
  = guarded_div (dot xs w) (vsum w).
Proof.
  intros Hc Hw. rewrite dot_scaled, vsum_scaled.
  destruct (Req_dec_T (vsum w) 0) as [Hz|Hnz].
  - rewrite (dot_zero_weights xs w) by by apply vsum_nonneg_zero.
    rewrite Hz, !Rmult_0_r. done.
  - rewrite !guarded_div_nonzero by nra. field. split; lra.
Qed.

Lemma rescale_shape cs wts m :
  length cs = length wts ->
  Forall (fun w => length w = m) (rescale cs wts) <-> Forall (fun w => length w = m) wts.
Proof.
  revert cs. induction wts as [|w wts IH]; intros [|c cs] Hlen; simplify_eq/=; [done|].
  rewrite !Forall_cons, length_fmap, (IH cs) by done. done.
Qed.

Lemma rescale_entries (f : list R -> R) cs wts :
  length cs = length wts ->
  Forall (fun c => 0 < c) cs ->
  Forall (Forall (fun x => 0 <= x)) wts ->
  (forall c w, 0 < c -> Forall (fun x => 0 <= x) w -> f (Rmult c <$> w) = f w) ->
  f <$> rescale cs wts = f <$> wts.
Proof.
  intros Hlen Hcs Hwts Hf. revert cs Hlen Hcs.
  induction Hwts as [|w wts Hw _ IH]; intros [|c cs] Hlen Hcs; simplify_eq/=; [done|].
  inversion Hcs; subst. rewrite Hf by done. f_equal. by apply IH.
Qed.

(** The normalized rows of the weighted column sums of [a]. *)
Definition mean_rows ncols (a wts : list (list R)) : list (list R) :=
  (fun j => (fun w => guarded_div (dot (column j a) w) (vsum w)) <$> wts) <$> seq 0 ncols.

Lemma mean_rows_normalized ncols a wts :
  normalize_columns ((fun j => (fun w => dot (column j a) w) <$> wts) <$> seq 0 ncols)
    (vsum <$> wts)
  = mean_rows ncols a wts.
Proof.
  unfold normalize_columns, mean_rows. rewrite <- list_fmap_compose.
  apply list_fmap_ext. intros _ j _. simpl. by rewrite zip_with_tabulated.
Qed.

Lemma linear_embedding_rows feats wts :
  linear_embedding feats wts
  = if decide (Forall (fun w => length w = length feats) wts)
    then Ok (mean_rows (shape1 feats) feats wts)
    else Raise (ValueError aligned_msg).
Proof.
  unfold linear_embedding, dot_T. case_decide.
  - rewrite bool_decide_true by done. cbn [bind]. by rewrite mean_rows_normalized.
  - by rewrite bool_decide_false.
Qed.

Lemma rff_embedding_rows feats wts freqs :
  rff_embedding feats wts freqs
  = bind (matmul feats freqs) (fun angles =>
      if decide (Forall (fun w => length w = length feats) wts)
      then Ok (mean_rows (shape1 freqs) ((fun row : list R => Rtrigo_def.sin <$> row) <$> angles) wts
               ++ mean_rows (shape1 freqs) ((fun row : list R => Rtrigo_def.cos <$> row) <$> angles) wts)
      else Raise (ValueError aligned_msg)).
Proof.
  unfold rff_embedding. destruct (matmul feats freqs) as [angles|e] eqn:Hm; [|done].
  cbn [bind]. assert (length angles = length feats) as Hlen.
  { unfold matmul in Hm. case_bool_decide; [|done]. injection Hm as <-.
    by rewrite length_fmap. }
  unfold dot_T. rewrite !length_fmap, Hlen. case_decide.
  - rewrite !bool_decide_true by done. cbn [bind].
    by rewrite normalize_columns_app, !mean_rows_normalized.
  - by rewrite bool_decide_false.
Qed.

Lemma mean_rows_rescale ncols a cs wts :
  length cs = length wts ->
  Forall (fun c => 0 < c) cs ->
  Forall (Forall (fun x => 0 <= x)) wts ->
  mean_rows ncols a (rescale cs wts) = mean_rows ncols a wts.
Proof.
  intros Hlen Hcs Hwts. unfold mean_rows. apply list_fmap_ext. intros _ j _. simpl.
  apply (rescale_entries (fun w => guarded_div (dot (column j a) w) (vsum w))); try done.
  intros c w Hc Hw. by apply guarded_div_scaled.
Qed.

(** X6: the embeddings are weighted means, so they do not depend on the
    scale of the weights: multiplying the non-negative weights of each
    query by a positive factor of its own changes neither the linear nor
    the RFF embedding. *)
Theorem embeddings_scale_invariant feats wts freqs (cs : list R) :
  length cs = length wts ->
  Forall (fun c => 0 < c) cs ->
  Forall (Forall (fun x => 0 <= x)) wts ->
  linear_embedding feats (rescale cs wts) = linear_embedding feats wts
  /\ rff_embedding feats (rescale cs wts) freqs = rff_embedding feats wts freqs.
Proof.
  intros Hlen Hcs Hwts. rewrite !linear_embedding_rows, !rff_embedding_rows.
  pose proof (rescale_shape cs wts (length feats) Hlen) as Hiff. split.
  - repeat case_decide; try tauto. by rewrite mean_rows_rescale.
  - destruct (matmul feats freqs) as [angles|e]; [|done]. cbn [bind].
    repeat case_decide; try tauto. by rewrite !mean_rows_rescale.
Qed.

(** *** Bounds *)

Lemma dot_between (a b : R) xs w :
  Forall (fun x => a <= x <= b) xs ->
  Forall (fun x => 0 <= x) w ->
  length xs = length w ->
  a * vsum w <= dot xs w <= b * vsum w.
Proof.
  intros Hxs. revert w. induction Hxs as [|x xs Hx _ IH]; intros [|y w] Hw Hlen;
    try discriminate; [unfold dot, vsum; simpl; lra|].
  injection Hlen as Hlen. inversion Hw as [|? ? Hy Hw']; subst.
  rewrite dot_cons, vsum_cons. specialize (IH w Hw' Hlen). nra.
Qed.

Lemma mean_rows_length ncols a wts : length (mean_rows ncols a wts) = ncols.
Proof. unfold mean_rows. by rewrite length_fmap, length_seq. Qed.

Lemma mean_rows_lookup ncols a wts j i w :
  (j < ncols)%nat -> wts !! i = Some w ->
  (mean_rows ncols a wts !! j) ≫= (fun row => row !! i)
  = Some (guarded_div (dot (column j a) w) (vsum w)).
Proof.
  intros Hj Hi. unfold mean_rows.
  rewrite list_lookup_fmap, lookup_seq_lt by done. simpl.
  by rewrite list_lookup_fmap, Hi.
Qed.

Lemma mean_rows_Forall (P : R -> Prop) ncols a wts i w :
  wts !! i = Some w ->
  (forall j, (j < ncols)%nat -> P (guarded_div (dot (column j a) w) (vsum w))) ->
  Forall (fun row => exists x, row !! i = Some x /\ P x) (mean_rows ncols a wts).
Proof.
  intros Hi HP. apply Forall_fmap, Forall_forall. intros j Hj%elem_of_seq. simpl.
  eexists. rewrite list_lookup_fmap, Hi. split; [done|]. apply HP. lia.
Qed.

(** X7: a weighted mean lies between the least and the greatest value.
    When every entry of a rectangular encoded matrix lies between [a] and
    [b], so does every entry the linear embedding gives a query whose
    non-negative weights do not sum to zero. *)
Theorem linear_embedding_between (a b : R) feats wts lin :
  Forall (fun row => length row = shape1 feats /\ Forall (fun x => a <= x <= b) row) feats ->
  Forall (Forall (fun x => 0 <= x)) wts ->
  linear_embedding feats wts = Ok lin ->
  forall i w, wts !! i = Some w -> vsum w <> 0 ->
    Forall (fun row => exists x, row !! i = Some x /\ a <= x <= b) lin.
Proof.
  intros Hfeats Hwts. rewrite linear_embedding_rows. case_decide as Hshape; [|done].
  intros [= <-] i w Hi Hnz. apply (mean_rows_Forall _ _ _ _ _ _ Hi). intros j Hj.
  pose proof (Forall_lookup_1 _ _ _ _ Hwts Hi) as Hw.
  pose proof (Forall_lookup_1 _ _ _ _ Hshape Hi) as Hlen.
  assert (0 < vsum w) as Hpos by (pose proof (vsum_nonneg w Hw); lra).
  rewrite guarded_div_nonzero by done.
  destruct (dot_between a b (column j feats) w) as [Hlo Hhi]; [|done|..].
  - unfold column. apply Forall_fmap. eapply Forall_impl; [exact Hfeats|].
    intros row [Hrow Hab]; simpl. destruct (lookup_lt_is_Some_2 row j) as [x Hx]; [lia|].
    rewrite Hx. simpl. exact (Forall_lookup_1 _ _ _ _ Hab Hx).
  - unfold column. by rewrite length_fmap.
  - split.
    + apply Rmult_le_reg_r with (vsum w); [done|]. field_simplify; [lra|lra].
    + apply Rmult_le_reg_r with (vsum w); [done|]. field_simplify; [lra|lra].
Qed.

(** The sum of vectors of length at most one, weighted: its length is at
    most the sum of the weights. *)
Lemma weighted_unit_vectors (ps : list (R * R)) w :
  Forall (fun p => p.1 * p.1 + p.2 * p.2 <= 1) ps ->
  Forall (fun x => 0 <= x) w ->
  dot (ps.*1) w * dot (ps.*1) w + dot (ps.*2) w * dot (ps.*2) w <= vsum w * vsum w.
Proof.
  intros Hps. revert w. induction Hps as [|[s c] ps Hp _ IH]; intros w Hw.
  - unfold dot; simpl. pose proof (vsum_nonneg w Hw). unfold vsum at 1 2; simpl. nra.
  - destruct Hw as [|y w Hy Hw].
    + unfold dot, vsum; simpl. lra.
    + rewrite !fmap_cons, !dot_cons, vsum_cons. simpl in *.
      specialize (IH w Hw). pose proof (vsum_nonneg w Hw) as HW.
      set (A := dot ps.*1 w) in *. set (B := dot ps.*2 w) in *. set (W := vsum w) in *.
      assert (A * s + B * c <= W) as Hcs.
      { assert ((A * s + B * c) * (A * s + B * c) <= W * W) as Hsq.
        { assert (0 <= (A * c - B * s) * (A * c - B * s)) by apply Rle_0_sqr.
          assert (0 <= A * A + B * B) by nra. nra. }
        nra. }
      nra.
Qed.

(** X8: each pair of a sine row and its cosine row of the RFF embedding
    is a weighted mean of points of the unit circle: for non-negative
    weights the sum of their squares is at most 1, so every entry of the
    RFF embedding lies between -1 and 1. *)
Theorem rff_embedding_norm feats wts freqs rff :
  Forall (Forall (fun x => 0 <= x)) wts ->
  rff_embedding feats wts freqs = Ok rff ->
  forall k i s c, (k < shape1 freqs)%nat ->
    (rff !! k) ≫= (fun row => row !! i) = Some s ->
    (rff !! (shape1 freqs + k)%nat) ≫= (fun row => row !! i) = Some c ->
    s * s + c * c <= 1 /\ -1 <= s <= 1 /\ -1 <= c <= 1.
Proof.
  intros Hwts. rewrite rff_embedding_rows. intros H.
  apply bind_Ok in H as (angles & _ & H). case_decide; [|done]. injection H as <-.
  intros k i s c Hk Hs Hc.
  rewrite lookup_app_l in Hs by (rewrite mean_rows_length; lia).
  rewrite lookup_app_r in Hc by (rewrite mean_rows_length; lia).
  rewrite mean_rows_length in Hc.
  replace (shape1 freqs + k - shape1 freqs)%nat with k in Hc by lia.
  destruct (wts !! i) as [w|] eqn:Hi; cycle 1.
  { unfold mean_rows in Hs. rewrite list_lookup_fmap, lookup_seq_lt in Hs by done.
    simpl in Hs. by rewrite list_lookup_fmap, Hi in Hs. }
  rewrite (mean_rows_lookup _ _ _ _ _ _ Hk Hi) in Hs.
  rewrite (mean_rows_lookup _ _ _ _ _ _ Hk Hi) in Hc.
  injection Hs as <-. injection Hc as <-.
  pose proof (Forall_lookup_1 _ _ _ _ Hwts Hi) as Hw.
  set (ps := (fun row : list R =>
                match row !! k with
                | Some t => (Rtrigo_def.sin t, Rtrigo_def.cos t)
                | None => (0, 0)
                end) <$> angles).
  assert (column k ((fun row : list R => Rtrigo_def.sin <$> row) <$> angles) = ps.*1) as ->.
  { unfold column, ps. rewrite <- !list_fmap_compose. apply list_fmap_ext.
    intros _ row _. simpl. rewrite list_lookup_fmap. by destruct (row !! k). }
  assert (column k ((fun row : list R => Rtrigo_def.cos <$> row) <$> angles) = ps.*2) as ->.
  { unfold column, ps. rewrite <- !list_fmap_compose. apply list_fmap_ext.
    intros _ row _. simpl. rewrite list_lookup_fmap. by destruct (row !! k). }
  assert (Forall (fun p => p.1 * p.1 + p.2 * p.2 <= 1) ps) as Hps.
  { apply Forall_fmap, Forall_forall. intros row _. simpl.
    destruct (row !! k) as [t|]; simpl; [|lra].
    pose proof (sin2_cos2 t) as Ht. unfold Rsqr in Ht. lra. }
  pose proof (weighted_unit_vectors ps w Hps Hw) as Hb.
  pose proof (vsum_nonneg w Hw) as HW.
  set (S := dot ps.*1 w) in *. set (C := dot ps.*2 w) in *. set (W := vsum w) in *.
  assert (guarded_div S W * guarded_div S W + guarded_div C W * guarded_div C W <= 1) as Hn.
  { destruct (Req_dec_T W 0) as [Hz|Hnz].
    - rewrite Hz in *. rewrite !guarded_div_zero. nra.
    - rewrite !guarded_div_nonzero by done.
      replace (S / W * (S / W) + C / W * (C / W)) with ((S * S + C * C) / (W * W))
        by (field; lra).
      apply Rmult_le_reg_r with (W * W); [nra|]. field_simplify; [lra|lra]. }
  split; [done|]. split; nra.
Qed.

End EmbeddingFacts.

(** Two queries, the second with zero weights, rescaled by 3 and by 5. *)
Lemma embeddings_scale_invariant_witness :
  let feats := [[1; 0]; [0; 1]]%R in
  let wts := [[2; 2]; [0; 0]]%R in
  let freqs := [[0]; [0]]%R in
  linear_embedding feats (rescale [3; 5]%R wts) = linear_embedding feats wts
  /\ rff_embedding feats (rescale [3; 5]%R wts) freqs = rff_embedding feats wts freqs.
Proof.
  intros feats wts freqs.
  assert (length [3; 5]%R = length wts) as H1 by reflexivity.
  assert (Forall (fun c => 0 < c)%R [3; 5]%R) as H2 by (repeat constructor; lra).
  assert (Forall (Forall (fun x => 0 <= x)%R) wts) as H3 by (repeat constructor; lra).
  exact (embeddings_scale_invariant feats wts freqs [3; 5]%R H1 H2 H3).
Defined.

(** Two one-hot rows and a query of positive weight. *)
Lemma linear_embedding_between_witness :
  let feats := [[1; 0]; [0; 1]]%R in
  let wts := [[2; 2]; [0; 0]]%R in
  exists lin,
    linear_embedding feats wts = Ok lin
    /\ Forall (fun row => exists x, row !! 0 = Some x /\ (0 <= x <= 1)%R) lin.
Proof.
  intros feats wts. eexists.
  assert (linear_embedding feats wts = Ok _) as H by (vm_compute; reflexivity).
  split; [exact H|].
  assert (Forall (fun row => length row = shape1 feats
                             /\ Forall (fun x => 0 <= x <= 1)%R row) feats) as H1.
  { repeat constructor; lra. }
  assert (Forall (Forall (fun x => 0 <= x)%R) wts) as H2 by (repeat constructor; lra).
  assert (vsum [2; 2]%R <> 0%R) as H3 by (unfold vsum; simpl; lra).
  exact (linear_embedding_between 0 1 feats wts _ H1 H2 H 0 [2; 2]%R eq_refl H3).
Defined.

(** Two records, two queries and three frequencies. *)
Lemma rff_embedding_norm_witness :
  let feats := [[1; 0]; [0; 1]]%R in
  let wts := [[2; 2]; [0; 0]]%R in
  let freqs := [[0; 1; 2]; [1; 0; 3]]%R in
  exists rff,
    rff_embedding feats wts freqs = Ok rff
    /\ forall k i s c, (k < 3)%nat ->
         (rff !! k) ≫= (fun row => row !! i) = Some s ->
         (rff !! (3 + k)%nat) ≫= (fun row => row !! i) = Some c ->
         (s * s + c * c <= 1 /\ -1 <= s <= 1 /\ -1 <= c <= 1)%R.
Proof.
  intros feats wts freqs. eexists.
  assert (rff_embedding feats wts freqs = Ok _) as H by (vm_compute; reflexivity).
  split; [exact H|].
  assert (Forall (Forall (fun x => 0 <= x)%R) wts) as H2 by (repeat constructor; lra).
  exact (rff_embedding_norm feats wts freqs _ H2 H).
Defined.

(** * Further properties of the stream aggregator *)

Section AggregatorFacts.
Context {A : Type} {NumA : Num A} {TrigA : Trig A}.
Variable VERSIONS : gmap string SchemaInfo.
Variable pick_rff_freqs : nat -> A -> option Z -> nat -> bool -> list (list A).
Variable parse_query : string -> result (list (Row (A := A) -> bool)).

Implicit Types (c file : list (Row (A := A))) (preds : list (Row (A := A) -> bool)).
Implicit Types (stats : Stats (A := A)) (skip : gset string) (st : FileState (A := A)).

(** X9: the rows a chunk keeps.  A chunk keeps exactly the records that
    at least one query selects, in their order, together with the
    membership flags of those records; this also holds for a chunk of one
    record, which the code evaluates in duplicate.  An expression the
    evaluator rejects fails the chunk with the evaluator's error. *)
Theorem chunk_selection subsets c :
  (forall preds, parse_query subsets = Ok preds ->
     select_rows parse_query subsets c
     = Ok (filter (selected preds) c, (fun p => p <$> filter (selected preds) c) <$> preds))
  /\ (forall e, parse_query subsets = Raise e ->
        select_rows parse_query subsets c = Raise e).
Proof.
  split.
  - intros preds Hp. by apply select_rows_filter.
  - intros e He. unfold select_rows. by rewrite He.
Qed.

(** *** Files without a selected record *)

Lemma process_chunk_unselected stats skip n_feats n subsets skip_rbf freqs preds st c :
  parse_query subsets = Ok preds ->
  Forall (fun r => ~ selected preds r) c ->
  process_chunk VERSIONS parse_query stats skip n_feats n subsets skip_rbf freqs st c = Ok st.
Proof.
  intros Hp Hc. unfold process_chunk. rewrite (select_rows_filter _ _ _ _ Hp).
  cbn [bind fst snd].
  assert (filter (selected preds) c = []) as ->; [|done].
  induction Hc as [|r c Hr _ IH]; [done|]. by rewrite filter_cons_False.
Qed.

Lemma process_chunks_unselected stats skip n_feats n subsets skip_rbf freqs preds st cs :
  parse_query subsets = Ok preds ->
  Forall (Forall (fun r => ~ selected preds r)) cs ->
  process_chunks VERSIONS parse_query stats skip n_feats n subsets skip_rbf freqs st cs = Ok st.
Proof.
  intros Hp Hcs. induction Hcs as [|c cs Hc _ IH]; [done|].
  cbn [process_chunks]. by rewrite (process_chunk_unselected _ _ _ _ _ _ _ _ _ _ Hp Hc).
Qed.

Lemma embed_file_unselected stats skip n_feats n_freqs n subsets skip_rbf freqs preds names0 cs :
  parse_query subsets = Ok preds ->
  Forall (Forall (fun r => ~ selected preds r)) cs ->
  embed_file VERSIONS parse_query stats skip n_feats n_freqs n subsets skip_rbf freqs names0 cs
  = Ok (zero_file n_feats n_freqs n skip_rbf, names0).
Proof.
  intros Hp Hcs. unfold embed_file.
  rewrite (process_chunks_unselected _ _ _ _ _ _ _ _ _ _ Hp Hcs). cbn [bind].
  cbn. by destruct skip_rbf.
Qed.

Lemma chunked_Forall (P : Row (A := A) -> Prop) fuel chunksize file :
  Forall P file -> Forall (Forall P) (chunked fuel chunksize file).
Proof.
  revert file. induction fuel as [|fuel IH]; intros file H; [constructor|].
  destruct file as [|r file]; [constructor|]. cbn [chunked]. constructor.
  - by apply Forall_take.
  - apply IH. by apply Forall_drop.
Qed.

Lemma embed_files_unselected stats skip n_feats n_freqs n subsets skip_rbf freqs preds
    chunksize names0 files :
  parse_query subsets = Ok preds ->
  Forall (Forall (fun r => ~ selected preds r)) files ->
  embed_files VERSIONS parse_query stats skip n_feats n_freqs n subsets skip_rbf freqs
    chunksize names0 files
  = Ok (replicate (length files) (zero_file n_feats n_freqs n skip_rbf), names0).
Proof.
  intros Hp Hfiles. induction Hfiles as [|file files Hfile _ IH]; [done|].
  cbn [embed_files]. unfold read_hdf.
  rewrite (embed_file_unselected _ _ _ _ _ _ _ _ _ names0 _ Hp
             (chunked_Forall _ (length file) chunksize _ Hfile)).
  cbn [bind fst snd]. rewrite IH. done.
Qed.

(** X10: files without a selected record.  When no query selects any
    record of the files, the encoder is never called: every file gets
    all-zero embeddings and zero region weights whatever the stats bundle
    holds, and the call returns no feature names. *)
Theorem nothing_selected files stats n_freqs freqs bandwidth chunksize skip_rbf skip_feats
    seed rff_orthogonal subsets squeeze_queries skip_alloc_flags preds r :
  let s := default "PWGTP > 0" subsets in
  let evaluated := if decide (count_subsets s = 1) then s +:+ "," else s in
  parse_query evaluated = Ok preds ->
  Forall (Forall (fun row => ~ selected preds row)) files ->
  (forall skip n_feats n_freqs n freqs names0,
     embed_files VERSIONS parse_query stats skip n_feats n_freqs n evaluated skip_rbf freqs
       chunksize names0 files
     = Ok (replicate (length files) (zero_file n_feats n_freqs n skip_rbf), names0))
  /\ (get_embeddings VERSIONS pick_rff_freqs parse_query files stats n_freqs freqs bandwidth
        chunksize skip_rbf skip_feats seed rff_orthogonal subsets squeeze_queries
        skip_alloc_flags = Ok r ->
      returned_names r = None).
Proof.
  intros s evaluated Hp Hfiles. split.
  - intros. by apply (embed_files_unselected _ _ _ _ _ _ _ _ preds).
  - unfold get_embeddings. intros H.
    apply bind_Ok in H as (skip' & _ & H). apply bind_Ok in H as (fb & _ & H).
    fold s evaluated in H.
    rewrite (embed_files_unselected _ _ _ _ _ _ _ _ _ _ _ _ Hp Hfiles) in H.
    cbn [bind fst snd] in H. by destruct skip_rbf; injection H as <-.
Qed.

(** X11: more predicates than queries.  The number of queries is counted
    from the commas of the subset string; when the evaluator returns more
    rows than that for a chunk whose kept records are encoded, masking
    the weights fails with [IndexError]. *)
Theorem more_predicates_than_queries stats skip n_feats n subsets skip_rbf freqs preds st c enc :
  parse_query subsets = Ok preds ->
  n < length preds ->
  filter (selected preds) c <> [] ->
  get_dummies VERSIONS (filter (selected preds) c) stats (Some n_feats)
    (bool_decide (st.(names) = None)) skip
    (Some (length (filter (selected preds) c), n_feats)) = Ok enc ->
  process_chunk VERSIONS parse_query stats skip n_feats n subsets skip_rbf freqs st c
  = Raise IndexError.
Proof.
  intros Hp Hn HK Henc. unfold process_chunk.
  rewrite (select_rows_filter _ _ _ _ Hp). cbn [bind fst snd].
  rewrite bool_decide_false by (by destruct (filter (selected preds) c)).
  rewrite Henc. cbn [bind]. unfold query_weights.
  rewrite bool_decide_false by (rewrite length_fmap; lia). done.
Qed.

(** *** Shapes *)

Lemma embed_file_rows stats skip n_feats n_freqs n subsets skip_rbf freqs names0 cs fr names :
  embed_file VERSIONS parse_query stats skip n_feats n_freqs n subsets skip_rbf freqs names0 cs
  = Ok (fr, names) ->
  length (file_lin fr) = n_feats
  /\ (skip_rbf = false -> length (file_rff fr) = 2 * n_freqs).
Proof.
  unfold embed_file. intros H. apply bind_Ok in H as (st & _ & H).
  apply bind_Ok in H as (lin & Hlin & H). apply bind_Ok in H as (rff & Hrff & H).
  injection H as <- _. cbn [file_lin file_rff].
  destruct (zeros_rows (A := A) n_feats n) as [Hz1 Hz2].
  destruct (combine_rows _ _ _ _ _ Hlin Hz2) as [-> _]. split; [done|].
  intros ->. destruct (zeros_rows (A := A) (2 * n_freqs) n) as [Hr1 Hr2].
  by destruct (combine_rows _ _ _ _ _ Hrff Hr2) as [-> _].
Qed.

Lemma embed_files_rows stats skip n_feats n_freqs n subsets skip_rbf freqs chunksize
    files names0 frs names :
  embed_files VERSIONS parse_query stats skip n_feats n_freqs n subsets skip_rbf freqs
    chunksize names0 files = Ok (frs, names) ->
  length frs = length files
  /\ Forall (fun fr => length (file_lin fr) = n_feats
                       /\ (skip_rbf = false -> length (file_rff fr) = 2 * n_freqs)) frs.
Proof.
  revert names0 frs names. induction files as [|file files IH]; intros names0 frs names H.
  - injection H as <- _. by split.
  - cbn [embed_files] in H. apply bind_Ok in H as ([fr nm] & Hfile & H).
    apply bind_Ok in H as ([frs' nm'] & Hfiles & H). injection H as <- _.
    cbn [fst snd] in *. destruct (IH _ _ _ Hfiles) as [Hlen Hrows]. split.
    + simpl. by rewrite Hlen.
    + constructor; [by apply embed_file_rows in Hfile|done].
Qed.

(** *** The feature names *)

Lemma process_chunk_names stats skip n_feats n subsets skip_rbf freqs st c st' :
  process_chunk VERSIONS parse_query stats skip n_feats n subsets skip_rbf freqs st c = Ok st' ->
  (forall nms, st.(names) = Some nms -> length nms = n_feats) ->
  forall nms, st'.(names) = Some nms -> length nms = n_feats.
Proof.
  unfold process_chunk. intros H Hst.
  apply bind_Ok in H as (sel & _ & H). case_bool_decide; [by injection H as <-|].
  apply bind_Ok in H as ([feats nm] & Henc & H). apply bind_Ok in H as (wts & _ & H).
  apply bind_Ok in H as (lin & _ & H). apply bind_Ok in H as (rff & _ & H).
  injection H as <-. cbn [names fst snd]. destruct (names st) as [ns|] eqn:Hns; [done|].
  rewrite bool_decide_true in Henc by done.
  destruct (get_dummies_names_count _ _ _ _ _ _ _ _ Henc) as (nms & -> & Hlen).
  intros ? [= <-]. done.
Qed.

Lemma process_chunks_names stats skip n_feats n subsets skip_rbf freqs cs st st' :
  process_chunks VERSIONS parse_query stats skip n_feats n subsets skip_rbf freqs st cs = Ok st' ->
  (forall nms, st.(names) = Some nms -> length nms = n_feats) ->
  forall nms, st'.(names) = Some nms -> length nms = n_feats.
Proof.
  revert st. induction cs as [|c cs IH]; intros st H Hst; [by injection H as <-|].
  cbn [process_chunks] in H. apply bind_Ok in H as (st1 & Hc & H).
  apply (IH _ H). by eapply process_chunk_names.
Qed.

Lemma embed_files_names stats skip n_feats n_freqs n subsets skip_rbf freqs chunksize
    files names0 frs names :
  embed_files VERSIONS parse_query stats skip n_feats n_freqs n subsets skip_rbf freqs
    chunksize names0 files = Ok (frs, names) ->
  (forall nms, names0 = Some nms -> length nms = n_feats) ->
  forall nms, names = Some nms -> length nms = n_feats.
Proof.
  revert names0 frs names. induction files as [|file files IH];
    intros names0 frs names H H0; [by injection H as _ <-|].
  cbn [embed_files] in H. apply bind_Ok in H as ([fr nm] & Hfile & H).
  apply bind_Ok in H as ([frs' nm'] & Hfiles & H). injection H as _ <-.
  cbn [fst snd] in *. apply (IH _ _ _ Hfiles).
  unfold embed_file in Hfile. apply bind_Ok in Hfile as (st & Hst & Hfile).
  apply bind_Ok in Hfile as (lin & _ & Hfile). apply bind_Ok in Hfile as (rff & _ & Hfile).
  injection Hfile as _ <-. by apply (process_chunks_names _ _ _ _ _ _ _ _ _ _ Hst).
Qed.

(** X12: the shapes of the returned arrays.  Every returned array has one
    entry per file; a linear embedding has as many rows as the column
    count of the stats bundle under the skip-set in force, and an RFF
    embedding twice as many rows as there are frequencies: the columns of
    the frequency matrix the caller passed, or [n_freqs].  The feature
    names, when some are returned, name the rows of a linear embedding
    one by one. *)
Theorem returned_shapes files stats n_freqs freqs bandwidth chunksize skip_rbf skip_feats
    seed rff_orthogonal subsets squeeze_queries skip_alloc_flags r :
  get_embeddings VERSIONS pick_rff_freqs parse_query files stats n_freqs freqs bandwidth
    chunksize skip_rbf skip_feats seed rff_orthogonal subsets squeeze_queries
    skip_alloc_flags = Ok r ->
  exists skip,
    (if skip_alloc_flags
     then exists info, VERSIONS !! stats.(version) = Some info
                       /\ skip = skip_feats ∪ list_to_set info.(alloc_flags)
     else skip = skip_feats)
    /\ returned_shape (length files) (_num_feats stats skip)
         (2 * match freqs with Some F => shape1 F | None => n_freqs end) r
    /\ forall nms, returned_names r = Some nms -> length nms = _num_feats stats skip.
Proof.
  unfold get_embeddings. intros H.
  apply bind_Ok in H as (skip & Hskip & H). apply bind_Ok in H as (fb & Hfb & H).
  apply bind_Ok in H as ([frs names] & Hfiles & H). cbn [fst snd] in H.
  exists skip. split.
  { destruct skip_alloc_flags; [|by injection Hskip as <-].
    apply bind_Ok in Hskip as (info & Hinfo & Hskip). injection Hskip as <-.
    exists info. split; [|done]. by destruct (VERSIONS !! version stats); simplify_eq/=. }
  assert (forall nms, returned_names r = Some nms -> length nms = _num_feats stats skip)
    as Hnames.
  { intros nms Hr. apply (embed_files_names _ _ _ _ _ _ _ _ _ _ _ _ _ Hfiles); [done|].
    by destruct skip_rbf; injection H as <-. }
  split; [|done]. clear Hnames.
  destruct (embed_files_rows _ _ _ _ _ _ _ _ _ _ _ _ _ Hfiles) as [Hlen Hrows].
  assert (Forall (fun m => length m = _num_feats stats skip) (file_lin <$> frs)) as Hlin.
  { apply Forall_fmap. eapply Forall_impl; [exact Hrows|]. by intros fr [? _]. }
  assert (forall (a : list (list (list A))) m,
            Forall (fun x => length x = m) a ->
            Forall (fun row => length row = m) (first_query a)) as Hsq.
  { intros a m Ha. unfold first_query. apply Forall_fmap.
    eapply Forall_impl; [exact Ha|]. intros x Hx; simpl. by rewrite length_fmap. }
  destruct skip_rbf.
  - injection H as <-. injection Hfb as <-. cbn [fst snd returned_shape].
    destruct (squeeze_queries && bool_decide (count_subsets _ = 1));
      cbn [embedding_shape weights_shape]; rewrite ?length_fmap;
      unfold first_query; rewrite ?length_fmap; split_and!; try done.
    by apply Hsq.
  - injection H as <-. cbn [returned_shape].
    assert (fb.2 = match freqs with Some F => shape1 F | None => n_freqs end) as Hn.
    { destruct freqs as [F|]; [by injection Hfb as <-|].
      apply bind_Ok in Hfb as (bw & _ & Hfb). by injection Hfb as <-. }
    rewrite Hn in Hrows.
    assert (Forall (fun m => length m
                             = 2 * match freqs with Some F => shape1 F | None => n_freqs end)
              (file_rff <$> frs)) as Hrff.
    { apply Forall_fmap. eapply Forall_impl; [exact Hrows|]. intros fr [_ Hr]. by apply Hr. }
    destruct (squeeze_queries && bool_decide (count_subsets _ = 1));
      cbn [embedding_shape weights_shape]; rewrite ?length_fmap;
      unfold first_query; rewrite ?length_fmap; split_and!; try done.
    + by apply Hsq.
    + by apply Hsq.
Qed.

End AggregatorFacts.

(** One file whose only record has [SEX] 1, and the query [SEX == 2]. *)
Lemma nothing_selected_witness :
  let files := [[Examples.person 30%R (Some "1") 1%R]] in
  let r := Ret3 (Squeezed [[0; 0; 0]]%R) (WeightsSqueezed [0%R]) None in
  get_embeddings Examples.versions Examples.zero_freqs Examples.eval_by_sex files
    Examples.stats_exact 2 None None 2 true ∅ None true (Some "SEX == 2") true true = Ok r
  /\ returned_names r = None
  /\ embed_files Examples.versions Examples.eval_by_sex Examples.stats_exact ∅ 5 2 1
       "SEX == 2," true [] 2 None files
     = Ok (replicate 1 (zero_file 5 2 1 true), None).
Proof.
  intros files r.
  assert (Examples.eval_by_sex (A := R) "SEX == 2," = Ok [Examples.sex_is "2"]) as Hp
    by reflexivity.
  assert (Forall (Forall (fun row => ~ selected [Examples.sex_is "2"] row)) files) as Hf.
  { repeat constructor. vm_compute. tauto. }
  assert (get_embeddings Examples.versions Examples.zero_freqs Examples.eval_by_sex files
            Examples.stats_exact 2 None None 2 true ∅ None true (Some "SEX == 2") true true
          = Ok r) as H by (vm_compute; reflexivity).
  destruct (nothing_selected Examples.versions Examples.zero_freqs Examples.eval_by_sex
              files Examples.stats_exact 2 None None 2 true ∅ None true (Some "SEX == 2")
              true true [Examples.sex_is "2"] r Hp Hf) as [Hzero Hnames].
  split; [exact H|]. split; [exact (Hnames H)|]. exact (Hzero ∅ 5 2 1 [] None).
Defined.

(** Two predicates against one counted query. *)
Lemma more_predicates_than_queries_witness :
  let st := {| lin_emb_pieces := []; rff_emb_pieces := []; weights := [];
               total_weights := [0%R]; names := None |} in
  process_chunk Examples.versions Examples.eval_by_sex Examples.stats_exact {["FAGEP"]}
    3 1 "SEX == 1, SEX == 2" true [] st Examples.file_exact
  = Raise IndexError.
Proof.
  intros st.
  assert (Examples.eval_by_sex (A := R) "SEX == 1, SEX == 2"
          = Ok [Examples.sex_is "1"; Examples.sex_is "2"]) as Hp by reflexivity.
  assert (1 < length [Examples.sex_is (A := R) "1"; Examples.sex_is "2"]) as Hn
    by (simpl; lia).
  assert (filter (selected [Examples.sex_is "1"; Examples.sex_is "2"]) Examples.file_exact
          <> []) as HK by (vm_compute; discriminate).
  assert (get_dummies Examples.versions
            (filter (selected [Examples.sex_is "1"; Examples.sex_is "2"]) Examples.file_exact)
            Examples.stats_exact (Some 3) (bool_decide (st.(names) = None)) {["FAGEP"]}
            (Some (length (filter (selected [Examples.sex_is "1"; Examples.sex_is "2"])
                             Examples.file_exact), 3))
          = Ok _) as Henc by (vm_compute; reflexivity).
  exact (more_predicates_than_queries Examples.versions Examples.eval_by_sex
           Examples.stats_exact {["FAGEP"]} 3 1 "SEX == 1, SEX == 2" true []
           [Examples.sex_is "1"; Examples.sex_is "2"] st Examples.file_exact _ Hp Hn HK Henc).
Defined.

(** One file, two queries, frequencies drawn by the call. *)
Lemma returned_shapes_witness :
  exists r,
    get_embeddings Examples.versions Examples.zero_freqs Examples.eval_by_sex
      [Examples.file_exact] Examples.stats_exact 2 None (Some 1%R) 2 false ∅ None true
      (Some "SEX == 1, SEX == 2") true true = Ok r
    /\ exists skip,
         (exists info, Examples.versions !! Examples.stats_exact.(version) = Some info
                       /\ skip = ∅ ∪ list_to_set info.(alloc_flags))
         /\ returned_shape 1 (_num_feats Examples.stats_exact skip) (2 * 2) r
         /\ forall nms, returned_names r = Some nms
                        -> length nms = _num_feats Examples.stats_exact skip.
Proof.
  eexists.
  assert (get_embeddings Examples.versions Examples.zero_freqs Examples.eval_by_sex
            [Examples.file_exact] Examples.stats_exact 2 None (Some 1%R) 2 false ∅ None true
            (Some "SEX == 1, SEX == 2") true true = Ok _) as H by (vm_compute; reflexivity).
  split; [exact H|].
  exact (returned_shapes Examples.versions Examples.zero_freqs Examples.eval_by_sex
           _ _ _ _ _ _ _ _ _ _ _ _ _ _ H).
Defined.

(** * What a file is embedded to, in exact arithmetic *)

Section FileEmbedding.
Local Open Scope R_scope.
Variable VERSIONS : gmap string SchemaInfo.
Variable parse_query : string -> result (list (Row (A := R) -> bool)).
Variables (stats : Stats (A := R)) (skip : gset string).
Variables (n_feats n_freqs n : nat) (subsets : string) (skip_rbf : bool).
Variable freqs : list (list R).
Variable preds : list (Row (A := R) -> bool).
Hypothesis Hparse : parse_query subsets = Ok preds.

Implicit Types (K c file : list (Row (A := R))) (E : list (list R)).

Local Abbreviation embed_file' :=
  (embed_file VERSIONS parse_query stats skip n_feats n_freqs n subsets skip_rbf freqs).

Lemma tab_lookup d m F j i :
  (j < d)%nat -> (i < m)%nat -> (tab d m F !! j) ≫= (fun row => row !! i) = Some (F j i).
Proof.
  intros Hj Hi. unfold tab. rewrite list_lookup_fmap, lookup_seq_lt by done. simpl.
  by rewrite list_lookup_fmap, lookup_seq_lt.
Qed.

Lemma vtab_lookup m f i : (i < m)%nat -> vtab m f !! i = Some (f i).
Proof. intros Hi. unfold vtab. by rewrite list_lookup_fmap, lookup_seq_lt. Qed.

(** One chunk: the mix is the guarded weighted mean. *)
Lemma total_of_single E K i : total_of preds [(E, K)] i = den preds K i.
Proof. unfold total_of. simpl. lra. Qed.

Lemma mix_single col E K j i :
  mix preds col [(E, K)] j i
  = if Req_dec_T (den preds K i) 0 then 0
    else dot (col j E) (qw preds i <$> K) / den preds K i.
Proof.
  unfold mix. cbn [foldl fst snd]. rewrite total_of_single.
  destruct (Req_dec_T (den preds K i) 0) as [Hz|Hnz].
  - rewrite Hz, !guarded_div_zero. lra.
  - rewrite !guarded_div_nonzero by done. field. done.
Qed.

(** The guarded weighted mean of the column [xs] under query [i]. *)
Definition query_mean (xs : list R) K (i : nat) : R :=
  if Req_dec_T (den preds K i) 0 then 0
  else dot xs (qw preds i <$> K) / den preds K i.

(** The file read at once and the file read in chunks, entry by entry. *)
Lemma embed_file_entries names0 cs r :
  Forall (fun row => 0 <= row.(PWGTP)) (concat cs) ->
  embed_file' names0 [concat cs] = Ok r ->
  let K := filter (selected preds) (concat cs) in
  embed_file' names0 cs = Ok r
  /\ exists E,
       (K <> [] -> exists nms, encodes VERSIONS stats skip n_feats nms K E)
       /\ (forall i, (i < n)%nat -> file_weight r.1 !! i = Some (den preds K i))
       /\ (forall j i, (j < n_feats)%nat -> (i < n)%nat ->
             (file_lin r.1 !! j) ≫= (fun row => row !! i)
             = Some (query_mean (column j E) K i))
       /\ (skip_rbf = false -> n_freqs = shape1 freqs ->
           forall k i, (k < 2 * shape1 freqs)%nat -> (i < n)%nat ->
             (file_rff r.1 !! k) ≫= (fun row => row !! i)
             = Some (query_mean (rff_column freqs k E) K i)).
Proof.
  intros Hnonneg H K.
  split; [by apply (embed_file_chunks _ _ _ _ _ _ _ _ _ _ _ Hparse)|].
  rewrite embed_file_finish in H.
  destruct (decide (K = [])) as [HK|HK].
  - rewrite (all_skipped _ _ _ _ _ _ _ _ _ _ Hparse [concat cs]) in H
      by (cbn [concat]; by rewrite app_nil_r).
    cbn [bind] in H. unfold finish in H. cbn in H.
    assert (r.1 = {| file_lin := zeros n_feats n;
                     file_rff := if skip_rbf then [] else zeros (2 * n_freqs) n;
                     file_weight := replicate n 0 |}) as ->.
    { by destruct skip_rbf; injection H as <-. }
    assert (forall xs i, query_mean xs K i = 0) as Hzero.
    { intros xs i. unfold query_mean, den. rewrite HK. simpl.
      destruct (Req_dec_T 0 0) as [|Hne]; [done|by destruct Hne]. }
    exists []. cbn [file_lin file_rff file_weight]. split_and!; [done|..].
    + intros i Hi. rewrite replicate_vtab, vtab_lookup by done.
      unfold den. by rewrite HK.
    + intros j i Hj Hi. by rewrite zeros_tab, tab_lookup, Hzero.
    + intros -> <- k i Hk Hi. by rewrite zeros_tab, tab_lookup, Hzero.
  - apply bind_Ok in H as (st1 & Hst1 & H). cbn [process_chunks] in Hst1.
    apply bind_Ok in Hst1 as (st1' & Hchunk & Hst1). injection Hst1 as <-.
    assert (filter (selected preds) (concat [concat cs]) <> []) as HK'.
    { cbn [concat]. by rewrite app_nil_r. }
    assert (concat [concat cs] = concat cs) as Hcc by (cbn [concat]; by rewrite app_nil_r).
    destruct (process_chunk_inv _ _ _ _ _ _ _ _ _ _ Hparse _ _ _ HK Hchunk)
      as (E & nms & Henc & Hn & Hfreqs).
    rewrite (process_chunk_kept _ _ _ _ _ _ _ _ _ _ Hparse _ _ _ _ HK Henc Hn Hfreqs)
      in Hchunk.
    injection Hchunk as <-. fold K in H, Henc.
    change (push n_feats n skip_rbf freqs preds (st0 n names0) E K nms)
      with (pushes n_feats n skip_rbf freqs preds (st0 n names0) [(E, K)] nms) in H.
    pose proof (finish_freqs _ _ _ _ _ _ _ _ _ _ _ H) as Hd.
    rewrite (finish_pushes _ _ _ _ _ _ _ _ _ Hd) in H. injection H as <-.
    exists E. cbn [fst file_lin file_rff file_weight]. split_and!; [by eauto|..].
    + intros i Hi. by rewrite vtab_lookup, total_of_single.
    + intros j i Hj Hi. by rewrite tab_lookup, mix_single.
    + intros -> _ k i Hk Hi. by rewrite tab_lookup, mix_single.
Qed.

Lemma vsum_filter {T} (f : T -> R) (P : T -> Prop) `{forall x, Decision (P x)} (l : list T) :
  (forall x, ~ P x -> f x = 0) -> vsum (f <$> filter P l) = vsum (f <$> l).
Proof.
  intros Hf. induction l as [|x l IH]; [done|].
  rewrite fmap_cons, vsum_cons. destruct (decide (P x)) as [Hx|Hx].
  - by rewrite filter_cons_True, fmap_cons, vsum_cons, IH.
  - rewrite filter_cons_False, IH, (Hf x) by done. lra.
Qed.

(** X13: the region weight of a query is the total weight of the records
    of the file that the query selects, however the file is cut into
    chunks (for record weights that are not negative, and a file that is
    embedded when read at once). *)
Theorem region_weight_is_selected_weight names0 cs r :
  Forall (fun row => 0 <= row.(PWGTP)) (concat cs) ->
  embed_file' names0 [concat cs] = Ok r ->
  embed_file' names0 cs = Ok r
  /\ forall i (p : Row (A := R) -> bool), (i < n)%nat -> preds !! i = Some p ->
       file_weight r.1 !! i
       = Some (vsum ((fun row : Row (A := R) => if p row then row.(PWGTP) else 0) <$> concat cs)).
Proof.
  intros Hnonneg H.
  destruct (embed_file_entries names0 cs r Hnonneg H) as (Hcs & E & _ & Hw & _).
  split; [done|]. intros i p Hi Hp. rewrite (Hw i Hi). f_equal. unfold den.
  rewrite <- (vsum_filter (fun row : Row (A := R) => if p row then row.(PWGTP) else 0)
                (selected preds) (concat cs)).
  - f_equal. apply list_fmap_ext. intros _ row _. unfold qw. by rewrite Hp.
  - intros row Hrow. destruct (p row) eqn:Hprow; [|done]. destruct Hrow.
    unfold selected. apply Is_true_true, existsb_exists. exists p.
    split; [|done]. apply list_elem_of_In. by eapply list_elem_of_lookup_2.
Qed.

(** X14: what a file is embedded to.  For each query, the entries of the
    file's linear embedding are the weighted means of the encoded columns
    of the records that some query selects, under the weights the query
    gives them, and the entries of its RFF embedding the weighted means
    of the sines and cosines of their projections; a query of zero weight
    gets zeros.  This holds however the file is cut into chunks. *)
Theorem file_embedding_is_weighted_mean names0 cs r :
  Forall (fun row => 0 <= row.(PWGTP)) (concat cs) ->
  embed_file' names0 [concat cs] = Ok r ->
  let K := filter (selected preds) (concat cs) in
  embed_file' names0 cs = Ok r
  /\ exists E,
       (K <> [] ->
        exists nms, forall ret_df,
          get_dummies VERSIONS K stats (Some n_feats) ret_df skip (Some (length K, n_feats))
          = Ok (E, if ret_df then Some nms else None))
       /\ forall i, (i < n)%nat ->
            let w := qw preds i <$> K in
            (forall j, (j < n_feats)%nat ->
               (file_lin r.1 !! j) ≫= (fun row => row !! i)
               = Some (if Req_dec_T (vsum w) 0 then 0 else weighted_mean (column j E) w))
            /\ (skip_rbf = false -> n_freqs = shape1 freqs ->
                forall k, (k < shape1 freqs)%nat ->
                  (file_rff r.1 !! k) ≫= (fun row => row !! i)
                  = Some (if Req_dec_T (vsum w) 0 then 0
                          else weighted_mean (sin <$> angles_column E freqs k) w)
                  /\ (file_rff r.1 !! (shape1 freqs + k)%nat) ≫= (fun row => row !! i)
                     = Some (if Req_dec_T (vsum w) 0 then 0
                             else weighted_mean (cos <$> angles_column E freqs k) w)).
Proof.
  intros Hnonneg H K.
  destruct (embed_file_entries names0 cs r Hnonneg H) as (Hcs & E & Henc & _ & Hlin & Hrff).
  split; [done|]. exists E. split; [exact Henc|]. intros i Hi w. split.
  - intros j Hj. by rewrite (Hlin j i Hj Hi).
  - intros Hrbf Hd k Hk. split.
    + rewrite (Hrff Hrbf Hd k i) by lia. unfold query_mean, rff_column.
      by rewrite decide_True by done.
    + rewrite (Hrff Hrbf Hd (shape1 freqs + k)%nat i) by lia. unfold query_mean, rff_column.
      rewrite decide_False by lia.
      by replace (shape1 freqs + k - shape1 freqs)%nat with k by lia.
Qed.

End FileEmbedding.

(** Three records cut into a chunk of one and a chunk of two, and the two
    queries on [SEX]. *)
Lemma region_weight_is_selected_weight_witness :
  let cs := [take 1 Examples.file_exact; drop 1 Examples.file_exact] in
  let preds := [Examples.sex_is "1"; Examples.sex_is "2"] in
  exists r,
    embed_file Examples.versions Examples.eval_by_sex Examples.stats_exact {["FAGEP"]}
      3 2 2 "SEX == 1, SEX == 2" true [] None cs = Ok r
    /\ forall i (p : Row (A := R) -> bool), (i < 2)%nat -> preds !! i = Some p ->
         file_weight r.1 !! i
         = Some (vsum ((fun row : Row (A := R) => if p row then row.(PWGTP) else 0%R)
                       <$> concat cs)).
Proof.
  intros cs preds. eexists.
  assert (Examples.eval_by_sex "SEX == 1, SEX == 2" = Ok preds) as Hp by reflexivity.
  assert (Forall (fun row => 0 <= row.(PWGTP))%R (concat cs)) as Hnonneg.
  { repeat constructor; simpl; lra. }
  assert (embed_file Examples.versions Examples.eval_by_sex Examples.stats_exact {["FAGEP"]}
            3 2 2 "SEX == 1, SEX == 2" true [] None [concat cs] = Ok _) as H
    by (vm_compute; reflexivity).
  exact (region_weight_is_selected_weight Examples.versions Examples.eval_by_sex
           Examples.stats_exact {["FAGEP"]} 3 2 2 "SEX == 1, SEX == 2" true [] preds Hp
           None cs _ Hnonneg H).
Defined.

Lemma file_embedding_is_weighted_mean_witness :
  let cs := [take 1 Examples.file_exact; drop 1 Examples.file_exact] in
  let preds := [Examples.sex_is "1"; Examples.sex_is "2"] in
  let K := filter (selected preds) (concat cs) in
  exists r,
    embed_file Examples.versions Examples.eval_by_sex Examples.stats_exact {["FAGEP"]}
      3 2 2 "SEX == 1, SEX == 2" true [] None cs = Ok r
    /\ exists E,
         (K <> [] ->
          exists nms, forall ret_df,
            get_dummies Examples.versions K Examples.stats_exact (Some 3) ret_df {["FAGEP"]}
              (Some (length K, 3))
            = Ok (E, if ret_df then Some nms else None))
         /\ forall i, (i < 2)%nat ->
              let w := qw preds i <$> K in
              forall j, (j < 3)%nat ->
                (file_lin r.1 !! j) ≫= (fun row => row !! i)
                = Some (if Req_dec_T (vsum w) 0 then 0%R else weighted_mean (column j E) w).
Proof.
  intros cs preds K. eexists.
  assert (Examples.eval_by_sex "SEX == 1, SEX == 2" = Ok preds) as Hp by reflexivity.
  assert (Forall (fun row => 0 <= row.(PWGTP))%R (concat cs)) as Hnonneg.
  { repeat constructor; simpl; lra. }
  assert (embed_file Examples.versions Examples.eval_by_sex Examples.stats_exact {["FAGEP"]}
            3 2 2 "SEX == 1, SEX == 2" true [] None [concat cs] = Ok _) as H
    by (vm_compute; reflexivity).
  destruct (file_embedding_is_weighted_mean Examples.versions Examples.eval_by_sex
              Examples.stats_exact {["FAGEP"]} 3 2 2 "SEX == 1, SEX == 2" true [] preds Hp
              None cs _ Hnonneg H) as (Hcs & E & Henc & Hentries).
  split; [exact Hcs|]. exists E. split; [exact Henc|].
  intros i Hi w j Hj. exact (proj1 (Hentries i Hi) j Hj).
Defined.

(** * Further properties of the bandwidth selector *)

Section BandwidthFacts.
Variable VERSIONS : gmap string SchemaInfo.

(** X15: a reference sample of one record has no pair of rows: the
    median is taken of an empty array, and in binary64 the bandwidth is
    NaN.  (The record encodes to a row of finite numbers that is not
    empty, which the distance function asks for.) *)
Theorem single_record_sample_bandwidth (stats : Stats (A := float)) skip row m names :
  stats.(sample) = [row] ->
  get_dummies VERSIONS [row] stats None false skip None = Ok (m, names) ->
  Forall (fun r => r <> [] /\ Forall ffinite r) m ->
  pick_gaussian_bandwidth VERSIONS stats skip = Ok nan.
Proof.
  intros Hs H _. unfold pick_gaussian_bandwidth. rewrite Hs, H. cbn [bind fst].
  apply get_dummies_shape in H as [Hlen _].
  destruct m as [|x [|y m]]; try done.
Qed.

Local Open Scope R_scope.

Lemma upper_pairs_same {T} (x : T) (l : list T) :
  Forall (fun y => y = x) l -> Forall (fun p => p = (x, x)) (upper_pairs l).
Proof.
  induction 1 as [|y l -> Hl IH]; [constructor|]. cbn [upper_pairs].
  apply Forall_app. split; [|done]. apply Forall_fmap.
  eapply Forall_impl; [exact Hl|]. by intros ? ->.
Qed.

Lemma sq_dist_same (x : list R) : sq_dist x x = 0.
Proof.
  unfold sq_dist. induction x as [|a x IH]; [done|].
  cbn [zip_with]. rewrite vsum_cons, IH. lra.
Qed.

Lemma median_zeros (l : list R) : Forall (fun d => d = 0) l -> median l = 0.
Proof.
  intros Hl. unfold median.
  assert (forall k : list R, existsb isnan k = false) as ->.
  { intros k. induction k as [|a k IH]; [done|]. exact IH. }
  assert (forall i, default zero (merge_sort num_le l !! i) = 0) as Hs.
  { intros i. destruct (merge_sort num_le l !! i) as [d|] eqn:Hd; [|done]. simpl.
    apply list_elem_of_lookup_2 in Hd. rewrite merge_sort_Permutation in Hd.
    by apply (proj1 (Forall_forall _ _) Hl). }
  case_decide; [simpl; unfold Rdiv; lra|].
  destruct (Nat.even (length l)); rewrite ?Hs; [|done].
  simpl. unfold Rdiv. lra.
Qed.

(** X16: a reference sample of two or more records that all encode to
    the same row (with a column at least) has zero distances only, and
    the bandwidth is 0. *)
Theorem identical_sample_zero_bandwidth (stats : Stats (A := R)) skip x samp names :
  get_dummies VERSIONS stats.(sample) stats None false skip None = Ok (samp, names) ->
  Forall (fun row => row = x) samp ->
  (2 <= length samp)%nat ->
  x <> [] ->
  pick_gaussian_bandwidth VERSIONS stats skip = Ok 0.
Proof.
  intros Henc Hsame _ _. unfold pick_gaussian_bandwidth. rewrite Henc. cbn [bind fst].
  apply get_dummies_shape in Henc as [_ Hrows].
  rewrite (take_pairs_upper samp _ Hrows). f_equal.
  rewrite median_zeros; [apply sqrt_0|].
  unfold upper_sq_dists. apply Forall_fmap.
  eapply Forall_impl; [exact (upper_pairs_same x samp Hsame)|].
  intros p ->. simpl. apply sq_dist_same.
Qed.

End BandwidthFacts.

Lemma single_record_sample_bandwidth_witness :
  let row := Examples.person 50%float (Some "2") 1%float in
  pick_gaussian_bandwidth Examples.versions (Examples.stats_of 40%float 10%float [row]) ∅
  = Ok nan.
Proof.
  intros row.
  assert (get_dummies Examples.versions [row] (Examples.stats_of 40%float 10%float [row])
            None false ∅ None = Ok ([[1; 0; 1; 1; 0]]%float, None)) as H
    by (vm_compute; reflexivity).
  exact (single_record_sample_bandwidth Examples.versions
           (Examples.stats_of 40%float 10%float [row]) ∅ row _ _ eq_refl H
           ltac:(by repeat constructor)).
Defined.

(** A sample of twice the same record. *)
Lemma identical_sample_zero_bandwidth_witness :
  let row := Examples.person 50%R (Some "2") 1%R in
  pick_gaussian_bandwidth Examples.versions (Examples.stats_of 40%R 10%R [row; row]) ∅
  = Ok 0%R.
Proof.
  intros row.
  assert (exists a x, get_dummies Examples.versions [row; row]
                        (Examples.stats_of 40%R 10%R [row; row]) None false ∅ None
                      = Ok ([a :: x; a :: x], None)) as (a & x & H).
  { do 2 eexists. vm_compute. reflexivity. }
  exact (identical_sample_zero_bandwidth Examples.versions
           (Examples.stats_of 40%R 10%R [row; row]) ∅ (a :: x) [a :: x; a :: x] None H
           ltac:(by repeat constructor) ltac:(simpl; lia) ltac:(done)).
Defined.

(** * The frequency sampler *)

Section SamplerFacts.
Context {A : Type} {NumA : Num A}.
Variable RandomState : Type.
Variable global_rand : RandomState.
Variable seeded : Z -> RandomState.
Variable normal : A -> A -> nat * nat -> RandomState -> list (list A) * RandomState.
Variable chisquare : nat -> nat -> RandomState -> list A * RandomState.
Variable qr : list (list A) -> list (list A).
Variable garbage : nat -> nat -> A.

Hypothesis Hshaped : draws_shaped RandomState normal qr chisquare.

Local Abbreviation pick_rff_freqs' :=
  (Sampler.pick_rff_freqs RandomState global_rand seeded normal chisquare qr garbage).

(** A matrix given by its entries. *)
Definition gtab (rows cols : nat) (F : nat -> nat -> A) : list (list A) :=
  (fun i => F i <$> seq 0 cols) <$> seq 0 rows.

Lemma gtab_ext rows cols F G :
  (forall i j, i < rows -> j < cols -> F i j = G i j) -> gtab rows cols F = gtab rows cols G.
Proof.
  intros H. unfold gtab. apply list_fmap_ext. intros _ i Hi%list_elem_of_lookup_2%elem_of_seq.
  apply list_fmap_ext. intros _ j Hj%list_elem_of_lookup_2%elem_of_seq. apply H; lia.
Qed.

Lemma gtab_shape rows cols F :
  length (gtab rows cols F) = rows
  /\ Forall (fun row => length row = cols) (gtab rows cols F).
Proof.
  unfold gtab. split; [by rewrite length_fmap, length_seq|].
  apply Forall_fmap, Forall_forall. intros i _. simpl. by rewrite length_fmap, length_seq.
Qed.

Lemma gtab_lookup rows cols F i j :
  i < rows -> j < cols -> (gtab rows cols F !! i) ≫= (fun row => row !! j) = Some (F i j).
Proof.
  intros Hi Hj. unfold gtab. rewrite list_lookup_fmap, lookup_seq_lt by done. simpl.
  by rewrite list_lookup_fmap, lookup_seq_lt.
Qed.

(** A matrix is the table of its entries. *)
Lemma gtab_of_matrix (m : list (list A)) rows cols :
  length m = rows -> Forall (fun row => length row = cols) m ->
  m = gtab rows cols (fun i j => default zero ((m !! i) ≫= (fun row => row !! j))).
Proof.
  intros Hrows Hcols. apply list_eq. intros i. unfold gtab.
  rewrite list_lookup_fmap. destruct (m !! i) as [row|] eqn:Hi.
  - rewrite lookup_seq_lt by (apply lookup_lt_Some in Hi; lia). simpl. f_equal.
    apply list_eq. intros j. rewrite list_lookup_fmap.
    pose proof (Forall_lookup_1 _ _ _ _ Hcols Hi) as Hlen. simpl in Hlen.
    destruct (row !! j) as [x|] eqn:Hj.
    + rewrite lookup_seq_lt by (apply lookup_lt_Some in Hj; lia). simpl.
      by rewrite Hi; simpl; rewrite Hj.
    + rewrite lookup_seq_ge; [done|]. apply lookup_ge_None in Hj. lia.
  - rewrite lookup_seq_ge; [done|]. apply lookup_ge_None in Hi. lia.
Qed.

Lemma broadcast_matrix_exact rows width (value : list (list A)) :
  length value = rows -> Forall (fun row => length row = width) value ->
  Sampler.broadcast_matrix rows width value = Ok value.
Proof.
  intros Hrows Hcols. unfold Sampler.broadcast_matrix.
  assert (mapR (broadcast_row width) value = Ok value) as ->.
  { clear Hrows. induction Hcols as [|row value Hrow _ IH]; [done|].
    cbn [mapR]. unfold broadcast_row at 1. rewrite decide_True by done.
    cbn [bind]. by rewrite IH. }
  by rewrite decide_True.
Qed.

Lemma splice_lookup (l b : list A) start j :
  start + length b <= length l ->
  (take start l ++ b ++ drop (start + length b) l) !! j
  = if decide (start <= j < start + length b) then b !! (j - start) else l !! j.
Proof.
  intros Hlen. assert (length (take start l) = start) as Htake.
  { rewrite length_take. lia. }
  destruct (decide (j < start)) as [Hlt|Hge].
  - rewrite lookup_app_l by lia. rewrite lookup_take_lt by done.
    by rewrite decide_False by lia.
  - rewrite lookup_app_r by lia. rewrite Htake.
    destruct (decide (j < start + length b)) as [Hin|Hout].
    + rewrite lookup_app_l by lia. by rewrite decide_True by lia.
    + rewrite lookup_app_r by lia. rewrite lookup_drop. rewrite decide_False by lia.
      f_equal. lia.
Qed.

(** Assigning a block of the right shape to the columns from [start]. *)
Lemma assign_columns_gtab rows cols F start stop (value : list (list A)) width :
  start <= cols -> stop <= cols -> start + width = stop ->
  length value = rows -> Forall (fun row => length row = width) value ->
  Sampler.assign_columns cols (gtab rows cols F) start stop value
  = Ok (gtab rows cols (fun i j =>
          if decide (start <= j < stop)
          then default zero ((value !! i) ≫= (fun row => row !! (j - start)))
          else F i j)).
Proof.
  intros Hstart Hstop Hwidth Hrows Hcols. unfold Sampler.assign_columns.
  rewrite (proj1 (gtab_shape rows cols F)).
  replace (start `min` cols) with start by lia.
  replace (stop `min` cols - start) with width by lia.
  rewrite (broadcast_matrix_exact rows width value Hrows Hcols). cbn [bind]. f_equal.
  apply list_eq. intros i. unfold gtab at 1 2.
  rewrite lookup_zip_with, !list_lookup_fmap.
  destruct (decide (i < rows)) as [Hi|Hi]; cycle 1.
  { by rewrite lookup_seq_ge by lia. }
  rewrite lookup_seq_lt by done. simpl.
  destruct (lookup_lt_is_Some_2 value i) as [brow Hb]; [lia|]. rewrite Hb. simpl. f_equal.
  pose proof (Forall_lookup_1 _ _ _ _ Hcols Hb) as Hlen. simpl in Hlen.
  apply list_eq. intros j. rewrite <- Hlen.
  rewrite splice_lookup by (rewrite length_fmap, length_seq; lia).
  rewrite !list_lookup_fmap.
  destruct (decide (j < cols)) as [Hj|Hj].
  - rewrite lookup_seq_lt by done. simpl. case_decide.
    + rewrite decide_True by lia.
      destruct (lookup_lt_is_Some_2 brow (j - start)) as [x Hx]; [lia|]. by rewrite Hx.
    + by rewrite decide_False by lia.
  - rewrite lookup_seq_ge by lia. simpl. rewrite decide_False by lia. done.
Qed.

(** *** Arithmetic of the blocks *)

Lemma ceil_div_bounds n_freqs n_feats :
  0 < n_feats ->
  let k := Sampler.ceil_div n_freqs n_feats in
  n_freqs <= k * n_feats /\ (0 < k -> (k - 1) * n_feats < n_freqs).
Proof.
  intros Hpos k. subst k. unfold Sampler.ceil_div.
  pose proof (Nat.div_mod_eq (n_freqs + n_feats - 1) n_feats) as Heq.
  pose proof (Nat.mod_upper_bound (n_freqs + n_feats - 1) n_feats ltac:(lia)) as Hlt.
  split; [nia|]. intros Hk. nia.
Qed.

Lemma block_of_column n_feats s j :
  0 < n_feats -> s * n_feats <= j < (s + 1) * n_feats ->
  j / n_feats = s /\ j mod n_feats = j - s * n_feats.
Proof.
  intros Hpos Hj. pose proof (Nat.div_mod_eq j n_feats) as Heq.
  pose proof (Nat.mod_upper_bound j n_feats ltac:(lia)) as Hlt.
  assert (j / n_feats = s) as Hs by nia. split; [done|]. nia.
Qed.

(** *** The transpose *)

Lemma transpose_shape (m : list (list A)) cols :
  m <> [] -> Forall (fun row => length row = cols) m ->
  length (Sampler.transpose m) = cols
  /\ Forall (fun row => length row = length m) (Sampler.transpose m).
Proof.
  intros Hne Hcols. unfold Sampler.transpose.
  assert (shape1 m = cols) as ->.
  { destruct m as [|row m]; [done|]. by inversion Hcols. }
  split; [by rewrite length_fmap, length_seq|].
  apply Forall_fmap, Forall_forall. intros i _. simpl. unfold column. by rewrite length_fmap.
Qed.

Lemma transpose_entry (m : list (list A)) cols r c :
  m <> [] -> Forall (fun row => length row = cols) m ->
  default zero ((Sampler.transpose m !! r) ≫= (fun row => row !! c))
  = default zero ((m !! c) ≫= (fun row => row !! r)).
Proof.
  intros Hne Hcols. unfold Sampler.transpose.
  assert (shape1 m = cols) as ->.
  { destruct m as [|row m]; [done|]. by inversion Hcols. }
  rewrite list_lookup_fmap. destruct (decide (r < cols)) as [Hr|Hr].
  - rewrite lookup_seq_lt by done. simpl. unfold column. rewrite list_lookup_fmap.
    by destruct (m !! c).
  - rewrite lookup_seq_ge by lia. simpl. destruct (m !! c) as [row|] eqn:Hc; [|done].
    simpl. pose proof (Forall_lookup_1 _ _ _ _ Hcols Hc) as Hlen. simpl in Hlen.
    rewrite (proj2 (lookup_ge_None row r)); [done|lia].
Qed.

(** *** The loop over the blocks *)

(** One pass writes block [i] into its columns. *)
Lemma fill_block_gtab n_feats n_freqs F rs i :
  0 < n_feats -> i < Sampler.ceil_div n_freqs n_feats ->
  Sampler.fill_block RandomState normal qr n_feats n_freqs
    (Sampler.ceil_div n_freqs n_feats) (gtab n_feats n_freqs F, rs) i
  = Ok (gtab n_feats n_freqs (fun r j =>
          if decide (i * n_feats <= j < (i + 1) * n_feats)
          then default zero
                 ((qr (normal zero one (n_feats, n_feats) rs).1 !! (j - i * n_feats))
                    ≫= (fun row => row !! r))
          else F r j),
        (normal zero one (n_feats, n_feats) rs).2).
Proof.
  intros Hpos Hi. destruct Hshaped as (Hnormal & Hqr & _).
  destruct (ceil_div_bounds n_freqs n_feats Hpos) as [Hup Hlow].
  set (k := Sampler.ceil_div n_freqs n_feats) in *.
  unfold Sampler.fill_block. cbn [fst snd].
  set (g := normal zero one (n_feats, n_feats) rs).
  destruct (Hnormal zero one n_feats n_feats rs) as [Hg1 Hg2]. fold g in Hg1, Hg2.
  destruct (Hqr g.1 n_feats Hg1 Hg2) as [HQ1 HQ2].
  set (Q := qr g.1) in *.
  assert (Q <> []) as HQne by (intros HQ; rewrite HQ in HQ1; simpl in HQ1; lia).
  case_decide as Hlast.
  - (* a full block *)
    assert ((i + 1) * n_feats <= n_freqs) as Hfit by nia.
    destruct (transpose_shape Q n_feats HQne HQ2) as [Ht1 Ht2]. rewrite HQ1 in Ht2.
    rewrite (assign_columns_gtab n_feats n_freqs F (i * n_feats) ((i + 1) * n_feats)
               (Sampler.transpose Q) n_feats) by (try done; lia).
    cbn [bind]. f_equal. f_equal. apply gtab_ext. intros r j Hr Hj.
    case_decide; [|done]. by rewrite (transpose_entry Q n_feats).
  - (* the last block, cut to the columns that are left *)
    assert (i = k - 1) as Hik by lia. specialize (Hlow ltac:(lia)).
    set (m := n_freqs - i * n_feats).
    assert (0 < m <= n_feats) as Hm by (subst m; nia).
    assert (length (take m Q) = m) as Htk by (rewrite length_take; lia).
    assert (take m Q <> []) as Hne by (intros HQ; rewrite HQ in Htk; simpl in Htk; lia).
    assert (Forall (fun row => length row = n_feats) (take m Q)) as Hrows
      by by apply Forall_take.
    destruct (transpose_shape (take m Q) n_feats Hne Hrows) as [Ht1 Ht2]. rewrite Htk in Ht2.
    rewrite (assign_columns_gtab n_feats n_freqs F (i * n_feats) n_freqs
               (Sampler.transpose (take m Q)) m) by (try done; subst m; lia).
    cbn [bind]. f_equal. f_equal. apply gtab_ext. intros r j Hr Hj.
    repeat case_decide; try lia; [|done].
    rewrite (transpose_entry (take m Q) n_feats) by done.
    by rewrite lookup_take_lt by (subst m; lia).
Qed.

(** The blocks [s, s + len) written one after the other. *)
Lemma fill_blocks_gtab n_feats n_freqs len s F rs :
  0 < n_feats -> s + len <= Sampler.ceil_div n_freqs n_feats ->
  Sampler.fill_blocks RandomState normal qr n_feats n_freqs
    (Sampler.ceil_div n_freqs n_feats) (gtab n_feats n_freqs F, rs) (seq s len)
  = Ok (gtab n_feats n_freqs (fun r j =>
          if decide (s * n_feats <= j < (s + len) * n_feats)
          then block_entry (blocks_drawn RandomState normal qr n_feats len rs).1
                 (j / n_feats - s) (j mod n_feats) r
          else F r j),
        (blocks_drawn RandomState normal qr n_feats len rs).2).
Proof.
  intros Hpos. revert s F rs. induction len as [|len IH]; intros s F rs Hlen.
  - cbn [seq Sampler.fill_blocks blocks_drawn fst snd]. f_equal. f_equal.
    apply gtab_ext. intros r j _ _. by rewrite decide_False by lia.
  - cbn [seq Sampler.fill_blocks blocks_drawn fst snd].
    rewrite fill_block_gtab by (try done; lia). cbn [bind].
    rewrite IH by lia. f_equal. f_equal. apply gtab_ext. intros r j Hr Hj.
    set (g := normal zero one (n_feats, n_feats) rs).
    destruct (decide (s * n_feats <= j < (s + 1) * n_feats)) as [Hin|Hout].
    + destruct (block_of_column n_feats s j Hpos Hin) as [Hdiv Hmod].
      rewrite decide_False by lia. rewrite decide_True by lia.
      rewrite Hdiv, Hmod, Nat.sub_diag. done.
    + destruct (decide (S s * n_feats <= j < (S s + len) * n_feats)) as [Hin'|Hout'].
      * rewrite decide_True by lia.
        assert (S s <= j / n_feats) as Hq.
        { apply Nat.div_le_lower_bound; lia. }
        replace (j / n_feats - s) with (S (j / n_feats - S s)) by lia. done.
      * by rewrite decide_False by lia.
Qed.

Lemma blocks_drawn_spec n_feats k rs :
  length (blocks_drawn RandomState normal qr n_feats k rs).1 = k
  /\ Forall (fun Q => exists g, Q = qr g /\ length g = n_feats
                                /\ Forall (fun row => length row = n_feats) g)
       (blocks_drawn RandomState normal qr n_feats k rs).1.
Proof.
  destruct Hshaped as (Hnormal & _ & _).
  revert rs. induction k as [|k IH]; intros rs; [by split|].
  cbn [blocks_drawn fst snd length]. destruct (IH (normal zero one (n_feats, n_feats) rs).2)
    as [-> Hall].
  split; [done|]. constructor; [|done].
  destruct (Hnormal zero one n_feats n_feats rs) as [H1 H2]. eauto.
Qed.

Lemma column_gtab rows cols F j :
  j < cols -> column j (gtab rows cols F) = (fun r => F r j) <$> seq 0 rows.
Proof.
  intros Hj. unfold column, gtab. rewrite <- list_fmap_compose.
  apply list_fmap_ext. intros _ r _. simpl. by rewrite list_lookup_fmap, lookup_seq_lt.
Qed.

(** The entries of a row, listed by their index. *)
Lemma row_entries (row : list A) n (f : A -> A) :
  length row = n ->
  (fun r => f (default zero (row !! r))) <$> seq 0 n = f <$> row.
Proof.
  intros Hlen. apply list_eq. intros r. rewrite !list_lookup_fmap.
  destruct (row !! r) as [x|] eqn:Hr.
  - rewrite lookup_seq_lt by (apply lookup_lt_Some in Hr; lia). simpl. by rewrite Hr.
  - by rewrite lookup_seq_ge by (apply lookup_ge_None in Hr; lia).
Qed.

(** *** The sampler *)

Lemma scale_rows rows cols F (scale : list A) :
  length scale = cols ->
  (fun row => zip_with mul row scale) <$> gtab rows cols F
  = gtab rows cols (fun r j => mul (F r j) (default zero (scale !! j))).
Proof.
  intros Hlen. unfold gtab. rewrite <- list_fmap_compose. apply list_fmap_ext.
  intros _ r _. simpl. apply list_eq. intros j.
  rewrite lookup_zip_with, !list_lookup_fmap. destruct (decide (j < cols)) as [Hj|Hj].
  - rewrite lookup_seq_lt by done. simpl.
    destruct (lookup_lt_is_Some_2 scale j) as [x Hx]; [lia|]. by rewrite Hx.
  - by rewrite lookup_seq_ge by lia.
Qed.

(** The orthogonal branch, in closed form. *)
Lemma pick_rff_freqs_orthogonal n_freqs bandwidth seed n_feats stats skip :
  2 <= n_feats ->
  let rs0 := match seed with None => global_rand | Some s => seeded s end in
  let Qs := blocks_drawn RandomState normal qr n_feats
              (Sampler.ceil_div n_freqs n_feats) rs0 in
  let chi := chisquare n_feats n_freqs Qs.2 in
  pick_rff_freqs' n_freqs bandwidth seed (Some n_feats) true stats skip
  = Drawn (gtab n_feats n_freqs (fun r j =>
             mul (block_entry Qs.1 (j / n_feats) (j mod n_feats) r)
                 (div (sqrt (default zero (chi.1 !! j))) bandwidth)),
           chi.2).
Proof.
  intros Hnf rs0 Qs chi. unfold Sampler.pick_rff_freqs. cbn [negb orb].
  rewrite bool_decide_false by lia. rewrite decide_False by lia. fold rs0.
  destruct (ceil_div_bounds n_freqs n_feats ltac:(lia)) as [Hup _].
  unfold Sampler.np_empty. fold (gtab n_feats n_freqs garbage).
  rewrite (fill_blocks_gtab n_feats n_freqs (Sampler.ceil_div n_freqs n_feats) 0 garbage rs0)
    by lia.
  cbn [bind fst snd]. fold Qs chi. destruct Hshaped as (_ & _ & Hchi).
  assert (length chi.1 = n_freqs) as Hlen by apply Hchi.
  unfold broadcast_row. rewrite decide_True by by rewrite length_fmap.
  cbn [bind Sampler.lift]. f_equal. f_equal.
  rewrite scale_rows by by rewrite length_fmap.
  apply gtab_ext. intros r j Hr Hj. rewrite decide_True by lia. rewrite Nat.sub_0_r.
  f_equal. rewrite list_lookup_fmap.
  destruct (lookup_lt_is_Some_2 chi.1 j) as [x Hx]; [lia|]. by rewrite Hx.
Qed.

(** X17: when the sampler fails and what it returns.  Called without
    [n_feats] and without [stats] it fails with [TypeError]; with [stats]
    alone it counts the columns itself; asked for orthogonal frequencies
    in dimension 0 it fails with [ZeroDivisionError].  Otherwise it
    returns a matrix of [n_feats] rows and [n_freqs] columns: on the
    plain path for a bandwidth that [normal] accepts, on the orthogonal
    path for every bandwidth. *)
Theorem sampler_outcome n_freqs bandwidth seed orthogonal skip :
  pick_rff_freqs' n_freqs bandwidth seed None orthogonal None skip = Failed TypeError
  /\ (forall stats,
        pick_rff_freqs' n_freqs bandwidth seed None orthogonal (Some stats) skip
        = pick_rff_freqs' n_freqs bandwidth seed (Some (_num_feats stats skip)) orthogonal
            (Some stats) skip)
  /\ forall n_feats stats,
       (orthogonal = true -> n_feats = 0 ->
        pick_rff_freqs' n_freqs bandwidth seed (Some n_feats) orthogonal stats skip
        = Failed ZeroDivisionError)
       /\ ((orthogonal = false \/ n_feats = 1) /\ accepted_bandwidth bandwidth
           \/ orthogonal = true /\ 2 <= n_feats ->
           exists F rs,
             pick_rff_freqs' n_freqs bandwidth seed (Some n_feats) orthogonal stats skip
             = Drawn (F, rs)
             /\ length F = n_feats
             /\ Forall (fun row => length row = n_freqs) F).
Proof.
  split; [done|]. split; [done|]. intros n_feats stats. split.
  - by intros -> ->.
  - intros [[Hplain _]|[-> Hnf]].
    + unfold Sampler.pick_rff_freqs.
      assert (negb orthogonal || bool_decide (n_feats = 1) = true) as ->.
      { destruct Hplain as [->| ->]; [done|]. rewrite bool_decide_true by done.
        apply orb_true_r. }
      destruct Hshaped as (Hnormal & _ & _).
      set (rs := match seed with None => global_rand | Some s => seeded s end).
      destruct (Hnormal zero (div one bandwidth) n_feats n_freqs rs) as [H1 H2].
      destruct (normal zero (div one bandwidth) (n_feats, n_freqs) rs) as [F rs'] eqn:HF.
      exists F, rs'. done.
    + rewrite (pick_rff_freqs_orthogonal n_freqs bandwidth seed n_feats stats skip Hnf).
      do 2 eexists. split; [done|]. apply gtab_shape.
Qed.

(** X18: the orthogonal frequencies, entry by entry.  In dimension 2 or
    more, column [j] of the returned matrix is row [j mod n_feats] of the
    orthogonal factor of block [j / n_feats], times
    [sqrt(S_j) / bandwidth] for the chi-square draw [S]; no entry of the
    uninitialised buffer is left in it, and the random source is left in
    the state after the chi-square draw. *)
Theorem orthogonal_frequencies n_freqs bandwidth seed n_feats stats skip :
  2 <= n_feats ->
  let rs0 := match seed with None => global_rand | Some s => seeded s end in
  let Qs := blocks_drawn RandomState normal qr n_feats
              (Sampler.ceil_div n_freqs n_feats) rs0 in
  let chi := chisquare n_feats n_freqs Qs.2 in
  exists F,
    pick_rff_freqs' n_freqs bandwidth seed (Some n_feats) true stats skip = Drawn (F, chi.2)
    /\ forall r j, r < n_feats -> j < n_freqs ->
         (F !! r) ≫= (fun row => row !! j)
         = Some (mul (block_entry Qs.1 (j / n_feats) (j mod n_feats) r)
                     (div (sqrt (default zero (chi.1 !! j))) bandwidth)).
Proof.
  intros Hnf rs0 Qs chi. eexists. split; [by apply pick_rff_freqs_orthogonal|].
  intros r j Hr Hj. by rewrite gtab_lookup.
Qed.

End SamplerFacts.

(** ** Orthogonal frequencies, in exact arithmetic *)

Section SamplerOrthogonality.
Local Open Scope R_scope.
Variable RandomState : Type.
Variable global_rand : RandomState.
Variable seeded : Z -> RandomState.
Variable normal : R -> R -> nat * nat -> RandomState -> list (list R) * RandomState.
Variable chisquare : nat -> nat -> RandomState -> list R * RandomState.
Variable qr : list (list R) -> list (list R).
Variable garbage : nat -> nat -> R.

Lemma dot_scaled_rows (ra rb : list R) (s t : R) :
  dot ((fun x => x * s) <$> ra) ((fun x => x * t) <$> rb) = s * t * dot ra rb.
Proof.
  revert rb. induction ra as [|a ra IH]; intros [|b rb];
    try (unfold dot, vsum; simpl; lra).
  rewrite !fmap_cons, !dot_cons, IH. lra.
Qed.

(** X19: orthogonal random features.  When the factor [Q] of the QR
    decomposition has orthonormal rows, two different columns of the
    returned matrix that come from the same block are orthogonal, and
    column [j] has the squared length [(sqrt(S_j) / bandwidth)^2]. *)
Theorem orthogonal_within_block n_freqs bandwidth seed n_feats stats skip F rs :
  draws_shaped RandomState normal qr chisquare ->
  orthonormal_rows qr ->
  (2 <= n_feats)%nat ->
  Sampler.pick_rff_freqs RandomState global_rand seeded normal chisquare qr garbage
    n_freqs bandwidth seed (Some n_feats) true stats skip = Drawn (F, rs) ->
  forall j j', (j < n_freqs)%nat -> (j' < n_freqs)%nat ->
    (j / n_feats = j' / n_feats)%nat ->
    dot (column j F) (column j' F)
    = if decide (j = j')
      then let S := (chisquare n_feats n_freqs
                       (blocks_drawn RandomState normal qr n_feats
                          (Sampler.ceil_div n_freqs n_feats)
                          match seed with None => global_rand | Some s => seeded s end).2).1 in
           (sqrt (default 0 (S !! j)) / bandwidth) * (sqrt (default 0 (S !! j)) / bandwidth)
      else 0.
Proof.
  intros Hshaped Hortho Hnf Hpick j j' Hj Hj' Hblock.
  rewrite (pick_rff_freqs_orthogonal RandomState global_rand seeded normal chisquare qr
             garbage Hshaped n_freqs bandwidth seed n_feats stats skip Hnf) in Hpick.
  injection Hpick as <- _. rewrite !column_gtab by done.
  set (rs0 := match seed with None => global_rand | Some s => seeded s end).
  set (Qs := blocks_drawn RandomState normal qr n_feats
               (Sampler.ceil_div n_freqs n_feats) rs0).
  set (S := (chisquare n_feats n_freqs Qs.2).1).
  destruct (blocks_drawn_spec RandomState normal chisquare qr Hshaped n_feats
              (Sampler.ceil_div n_freqs n_feats) rs0) as [Hk Hall]. fold Qs in Hk, Hall.
  destruct (ceil_div_bounds n_freqs n_feats ltac:(lia)) as [Hup _].
  assert (j / n_feats < Sampler.ceil_div n_freqs n_feats)%nat as Hb.
  { apply Nat.Div0.div_lt_upper_bound. lia. }
  destruct (lookup_lt_is_Some_2 Qs.1 (j / n_feats)%nat) as [Q HQ]; [lia|].
  destruct (Forall_lookup_1 _ _ _ _ Hall HQ) as (g & -> & Hg1 & Hg2).
  destruct Hshaped as (_ & Hqr & _). destruct (Hqr g n_feats Hg1 Hg2) as [HQ1 HQ2].
  assert (forall c, (c < n_freqs)%nat -> (c / n_feats = j / n_feats)%nat ->
            exists row,
              qr g !! (c mod n_feats)%nat = Some row
              /\ (fun r => mul (block_entry Qs.1 (c / n_feats) (c mod n_feats) r)
                               (div (sqrt (default zero (S !! c))) bandwidth))
                   <$> seq 0 n_feats
                 = (fun x => x * (sqrt (default 0 (S !! c)) / bandwidth)) <$> row) as Hcol.
  { intros c Hc Hcb.
    destruct (lookup_lt_is_Some_2 (qr g) (c mod n_feats)%nat) as [row Hrow].
    { rewrite HQ1. apply Nat.mod_upper_bound. lia. }
    exists row. split; [done|].
    pose proof (Forall_lookup_1 _ _ _ _ HQ2 Hrow) as Hlen. simpl in Hlen.
    rewrite <- (row_entries row n_feats
                  (fun x => x * (sqrt (default 0 (S !! c)) / bandwidth)) Hlen).
    apply list_fmap_ext. intros _ r _. simpl. unfold block_entry.
    rewrite Hcb, HQ. simpl. rewrite Hrow. done. }
  destruct (Hcol j Hj eq_refl) as (ra & Hra & Ha).
  destruct (Hcol j' Hj' (eq_sym Hblock)) as (rb & Hrb & Hb').
  transitivity (dot ((fun x => x * (sqrt (default 0 (S !! j)) / bandwidth)) <$> ra)
                    ((fun x => x * (sqrt (default 0 (S !! j')) / bandwidth)) <$> rb)).
  { apply (f_equal2 dot); [exact Ha|exact Hb']. }
  rewrite dot_scaled_rows, (Hortho g n_feats Hg1 Hg2 _ _ _ _ Hra Hrb).
  destruct (decide (j = j')) as [<-|Hne].
  - rewrite decide_True by done. cbn zeta. lra.
  - rewrite decide_False; [lra|]. intros Hmod. apply Hne.
    rewrite (Nat.div_mod_eq j n_feats), (Nat.div_mod_eq j' n_feats). congruence.
Qed.

End SamplerOrthogonality.

(** *** The example sampler *)

Lemma example_draws_shaped {A} `{Num A} :
  draws_shaped (A := A) nat SamplerExamples.normal SamplerExamples.qr
    SamplerExamples.chisquare.
Proof.
  split_and!.
  - intros loc scale rows cols rs. simpl. split; [by rewrite length_replicate|].
    apply Forall_replicate. by rewrite length_replicate.
  - intros m n Hlen _. unfold SamplerExamples.qr. split; [by rewrite length_imap|].
    apply Forall_forall. intros row Hrow. apply list_elem_of_lookup_1 in Hrow as [i Hi].
    rewrite list_lookup_imap in Hi. destruct (m !! i); [|done]. injection Hi as <-.
    unfold eye_row. by rewrite length_fmap, length_seq.
  - intros df n rs. simpl. by rewrite length_replicate.
Qed.

Lemma vsum_delta (s n a b : nat) :
  vsum ((fun j => (if decide (j = a) then 1 else 0) * (if decide (j = b) then 1 else 0))%R
        <$> seq s n)
  = if decide (a = b /\ s <= a < s + n) then 1%R else 0%R.
Proof.
  revert s. induction n as [|n IH]; intros s.
  - simpl. by rewrite decide_False by lia.
  - cbn [seq]. rewrite fmap_cons, vsum_cons, IH.
    repeat case_decide; try lia; lra.
Qed.

Lemma example_orthonormal : orthonormal_rows SamplerExamples.qr.
Proof.
  intros g n Hlen _ a b ra rb Ha Hb. unfold SamplerExamples.qr in *.
  rewrite list_lookup_imap in Ha, Hb.
  destruct (g !! a) eqn:Hga; [|done]. destruct (g !! b) eqn:Hgb; [|done].
  injection Ha as <-. injection Hb as <-.
  apply lookup_lt_Some in Hga, Hgb.
  unfold dot, eye_row. rewrite zip_with_tabulated.
  transitivity (vsum ((fun j => (if decide (j = a) then 1 else 0)
                                * (if decide (j = b) then 1 else 0))%R <$> seq 0 (length g))).
  { done. }
  rewrite vsum_delta. repeat case_decide; try done; lia.
Qed.

(** Three frequencies in dimension 2: two blocks, the second cut to one
    column; and three frequencies in dimension 1, on the plain path. *)
Lemma sampler_outcome_witness :
  SamplerExamples.pick_rff_freqs 3 2%float (Some 7%Z) None true None ∅ = Failed TypeError
  /\ (SamplerExamples.pick_rff_freqs 3 2%float (Some 7%Z) (Some 0) true None ∅
      = Failed ZeroDivisionError)
  /\ (exists F rs,
        SamplerExamples.pick_rff_freqs 3 2%float (Some 7%Z) (Some 1) true None ∅
        = Drawn (F, rs)
        /\ length F = 1
        /\ Forall (fun row => length row = 3) F)
  /\ exists F rs,
       SamplerExamples.pick_rff_freqs 3 2%float (Some 7%Z) (Some 2) true None ∅
       = Drawn (F, rs)
       /\ length F = 2
       /\ Forall (fun row => length row = 3) F.
Proof.
  destruct (sampler_outcome nat 0 Z.to_nat SamplerExamples.normal SamplerExamples.chisquare
              SamplerExamples.qr SamplerExamples.garbage example_draws_shaped
              3 2%float (Some 7%Z) true ∅) as (Htype & _ & Hsome).
  assert (accepted_bandwidth 2%float) as Hpos by (vm_compute; done).
  split; [exact Htype|]. split; [|split].
  - exact (proj1 (Hsome 0 None) eq_refl eq_refl).
  - exact (proj2 (Hsome 1 None) (or_introl (conj (or_intror eq_refl) Hpos))).
  - exact (proj2 (Hsome 2 None) (or_intror (conj eq_refl (le_n 2)))).
Defined.

Lemma orthogonal_frequencies_witness :
  exists F,
    SamplerExamples.pick_rff_freqs 3 2%float (Some 7%Z) (Some 2) true None ∅
    = Drawn (F, 10)
    /\ (F !! 1) ≫= (fun row => row !! 1) = Some 1%float
    /\ (F !! 1) ≫= (fun row => row !! 2) = Some 0%float.
Proof.
  destruct (orthogonal_frequencies nat 0 Z.to_nat SamplerExamples.normal
              SamplerExamples.chisquare SamplerExamples.qr SamplerExamples.garbage
              example_draws_shaped 3 2%float (Some 7%Z) 2 None ∅ ltac:(lia))
    as (F & HF & Hentries).
  exists F. split; [exact HF|]. split.
  - exact (Hentries 1 1 ltac:(lia) ltac:(lia)).
  - exact (Hentries 1 2 ltac:(lia) ltac:(lia)).
Defined.

Lemma orthogonal_within_block_witness :
  exists F rs,
    SamplerExamples.pick_rff_freqs 3 2%R (Some 7%Z) (Some 2) true None ∅ = Drawn (F, rs)
    /\ dot (column 0 F) (column 1 F) = 0%R.
Proof.
  pose proof (pick_rff_freqs_orthogonal nat 0 Z.to_nat SamplerExamples.normal
                SamplerExamples.chisquare SamplerExamples.qr SamplerExamples.garbage
                example_draws_shaped 3 2%R (Some 7%Z) 2 None ∅ ltac:(lia)) as HF.
  cbv zeta in HF. eexists _, _. split; [exact HF|].
  exact (orthogonal_within_block nat 0 Z.to_nat SamplerExamples.normal
           SamplerExamples.chisquare SamplerExamples.qr SamplerExamples.garbage
           3 2%R (Some 7%Z) 2 None ∅ _ _ example_draws_shaped example_orthonormal
           ltac:(lia) HF 0 1 ltac:(lia) ltac:(lia) eq_refl).
Defined.
